(** * BG-Toolbox material classifier: the classification resolution engine

    A shallow embedding of the taxonomy loader, the keyword/brand matcher,
    the LLM response extractor, the retry loop and the validator of
    [code/material_classifier_web] (with the sibling variants where they
    differ), followed by the properties the specification states of them.

    Python [str] values are lists of Unicode code points.  Library functions
    with a small closed definition ([str.strip], [str.replace], [in],
    [re.split] on a character class, [re.findall] of a lazy delimiter
    pattern) are written out; [str.lower] and [json.loads], whose definitions
    are the Unicode case tables and a full JSON grammar, are parameters. *)

From Stdlib Require Import List NArith Bool Arith Lia String Ascii.
From Stdlib Require Import Permutation.
Import ListNotations.

Set Implicit Arguments.

(** ** Python text *)

Definition char := N.
Definition str := list char.

Definition str_eq_dec : forall a b : str, {a = b} + {a <> b} :=
  list_eq_dec N.eq_dec.

Definition str_eqb (a b : str) : bool := if str_eq_dec a b then true else false.

(** An ASCII literal as a Python string. *)
Definition lit (s : string) : str := map N_of_ascii (list_ascii_of_string s).

(** [str.isspace] on one code point: the characters [str.strip()] removes. *)
Definition isspace (c : char) : bool :=
  (((0x09 <=? c) && (c <=? 0x0D)) || ((0x1C <=? c) && (c <=? 0x20))
  || (c =? 0x85) || (c =? 0xA0) || (c =? 0x1680)
  || ((0x2000 <=? c) && (c <=? 0x200A))
  || (c =? 0x2028) || (c =? 0x2029) || (c =? 0x202F) || (c =? 0x205F)
  || (c =? 0x3000))%N.

Fixpoint lstrip (s : str) : str :=
  match s with
  | [] => []
  | c :: s' => if isspace c then lstrip s' else s
  end.

Definition rstrip (s : str) : str := rev (lstrip (rev s)).

(** [s.strip()] *)
Definition strip (s : str) : str := rstrip (lstrip s).

(** [s.replace(c, empty)] for a one-character [c]: every [c] is removed. *)
Definition remove_char (c : char) (s : str) : str :=
  filter (fun x => negb (x =? c)%N) s.

Definition SPACE : char := 0x20%N.
Definition TAB : char := 0x09%N.
Definition NEWLINE : char := 0x0A%N.

Fixpoint startswith (p s : str) : bool :=
  match p, s with
  | [], _ => true
  | _ :: _, [] => false
  | a :: p', b :: s' => (a =? b)%N && startswith p' s'
  end.

Definition endswith (p s : str) : bool := startswith (rev p) (rev s).

(** [p in s] on strings. *)
Fixpoint contains (p s : str) : bool :=
  startswith p s ||
  match s with
  | [] => false
  | _ :: s' => contains p s'
  end.

(** [re.split] on a character class: the pieces between separators, empty
    pieces included. *)
Fixpoint split_on (sep : char -> bool) (cur : str) (s : str) : list str :=
  match s with
  | [] => [rev cur]
  | c :: s' => if sep c then rev cur :: split_on sep [] s'
               else split_on sep (c :: cur) s'
  end.

(** The class [[、,，]]. *)
Definition is_list_separator (c : char) : bool :=
  ((c =? 0x3001) || (c =? 0x2C) || (c =? 0xFF0C))%N.

Definition re_split_separators (s : str) : list str :=
  split_on is_list_separator [] s.

(** [[x.strip() for x in re.split(r'[、,，]', s) if x.strip()]] *)
Definition stripped_items (s : str) : list str :=
  map strip (filter (fun x => negb (str_eqb (strip x) [])) (re_split_separators s)).

(** ** Python values as the engine observes them *)

(** A field value is a string, [None], or some other object, of which the
    code only takes the truth value and the text it makes of it ([str(v)],
    or the decoding of a [bytes] reply). *)
Inductive pyval : Type :=
| PNone
| PStr (s : str)
| POther (truthy : bool) (text : str).

Definition truthy (v : pyval) : bool :=
  match v with
  | PNone => false
  | PStr s => negb (str_eqb s [])
  | POther t _ => t
  end.

Definition py_str (v : pyval) : str :=
  match v with
  | PNone => lit "None"
  | PStr s => s
  | POther _ t => t
  end.

(** [a or b] *)
Definition py_or (a b : pyval) : pyval := if truthy a then a else b.

(** ** Insertion-ordered dictionaries *)

Section Dict.
Variables K V : Type.
Variable K_eq_dec : forall a b : K, {a = b} + {a <> b}.

Definition dict := list (K * V).

Fixpoint dict_get (d : dict) (k : K) : option V :=
  match d with
  | [] => None
  | (k', v) :: d' => if K_eq_dec k k' then Some v else dict_get d' k
  end.

Definition dict_mem (d : dict) (k : K) : bool :=
  match dict_get d k with Some _ => true | None => false end.

(** [d[k] = v]: an existing key keeps its position, a new key goes last. *)
Fixpoint dict_set (d : dict) (k : K) (v : V) : dict :=
  match d with
  | [] => [(k, v)]
  | (k', v') :: d' =>
      if K_eq_dec k k' then (k', v) :: d' else (k', v') :: dict_set d' k v
  end.

Definition dict_keys (d : dict) : list K := map fst d.
End Dict.

Definition pydict := dict str pyval.

(** [d.get(k, default)] *)
Definition get_default (d : pydict) (k : str) (default : pyval) : pyval :=
  match dict_get str_eq_dec d k with
  | Some v => v
  | None => default
  end.

(** [d.get(k)] *)
Definition get (d : pydict) (k : str) : pyval := get_default d k PNone.

(** ** Normalization *)

Section Normalize.
(** [str.lower] *)
Variable lower : str -> str.

(** [s.strip().lower()] with every space and every tab then removed: the
    expression of the loader and of the validator. *)
Definition normalize_category (s : str) : str :=
  remove_char TAB (remove_char SPACE (lower (strip s))).

(** [KeywordMatcher._normalize_text] *)
Definition _normalize_text (text : pyval) : str :=
  if negb (truthy text) then []
  else remove_char NEWLINE
         (remove_char TAB (remove_char SPACE (strip (lower (py_str text))))).
End Normalize.

(** ASCII lower-casing, the instance of [str.lower] used for the examples. *)
Definition lower_ascii_char (c : char) : char :=
  if ((0x41 <=? c) && (c <=? 0x5A))%N then (c + 32)%N else c.

Definition lower_ascii (s : str) : str := map lower_ascii_char s.

(** ** Errors and results *)

Inductive error : Type :=
| ReadError                              (* the rules table cannot be read *)
| IndexError                             (* [cols[i]] past the last column *)
| NoRulesLoaded                          (* ValueError: no valid rule loaded *)
| ApiKeyMissing                          (* ValueError: API key not configured *)
| IncompleteResult (main sub : pyval)    (* ValueError: result incomplete *)
| UnknownCategory (main sub : pyval)     (* ValueError: not in the taxonomy *)
| ClientError (msg : str)                (* raised by the remote client *)
| EmptyContent                           (* ValueError: empty reply *)
| JSONDecodeError
| NotAnObject                            (* ValueError: JSON value is no dict *)
| MissingFields                          (* ValueError: a required key absent *)
| AttributeError                         (* [None.get] *)
| LoadsError                             (* [json.loads] raises, no decode error *)
| ParserError                            (* raised by the LangChain parser *)
| TypeError.                             (* item assignment into no dict *)

Inductive result (A : Type) : Type :=
| Ok (a : A)
| Raise (e : error).

Arguments Ok {A} a.
Arguments Raise {A} e.

(** ** Field names *)

Definition k_material_name : str := [29289; 26009; 21517; 31216]%N.      (* 物料名称 *)
Definition k_drawing_model : str := [22270; 21495; 47; 22411; 21495]%N.  (* 图号/型号 *)
Definition k_model : str := [22411; 21495]%N.                            (* 型号 *)
Definition k_category_brand : str := [20998; 31867; 47; 21697; 29260]%N. (* 分类/品牌 *)
Definition k_brand : str := [21697; 29260]%N.                            (* 品牌 *)
Definition k_supplier : str := [20379; 24212; 21830]%N.                  (* 供应商 *)
Definition k_material : str := [26448; 26009]%N.                         (* 材料 *)

Definition k_main_category : str := lit "main_category".
Definition k_sub_category : str := lit "sub_category".
Definition k_classification_source : str := lit "classification_source".

(** ** Taxonomy store *)

(** A value of [classification_mapping]:
    [(original_main, original_sub, keywords, explanation, common_brands)]. *)
Record entry : Type := {
  original_main : str;
  original_sub : str;
  keywords : str;
  explanation : str;
  common_brands : str
}.

Definition key := (str * str)%type.

Definition key_eq_dec (a b : key) : {a = b} + {a <> b}.
Proof. decide equality; apply str_eq_dec. Defined.

Definition mapping := dict key entry.

(** One record of [df.to_dict('records')]: the cells in column order.  The
    loader addresses cells by position only ([row[cols[i]]] with
    [cols = list(row.keys())]). *)
Definition row := list pyval.

Definition cell (r : row) (i : nat) : result pyval :=
  match nth_error r i with
  | Some v => Ok v
  | None => Raise IndexError
  end.

(** [str(v).strip()], with the text [nan] of a missing cell read as empty. *)
Definition clean_cell (v : pyval) : str :=
  let s := strip (py_str v) in
  if str_eqb s (lit "nan") then [] else s.

Definition nonempty (s : str) : bool := negb (str_eqb s []).

Section Taxonomy.
Variable lower : str -> str.

Definition load_row (st : option str * mapping) (r : row)
  : result (option str * mapping) :=
  match cell r 1, cell r 2, cell r 3, cell r 4, cell r 5 with
  | Ok c1, Ok c2, Ok c3, Ok c4, Ok c5 =>
      let main_cat := clean_cell c1 in
      let sub_cat := clean_cell c2 in
      let current_main_category :=
        if nonempty main_cat then Some main_cat else fst st in
      match current_main_category with
      | Some cm =>
          if nonempty cm && nonempty sub_cat then
            let normalized_main := normalize_category lower cm in
            let normalized_sub := normalize_category lower sub_cat in
            Ok (current_main_category,
                dict_set key_eq_dec (snd st) (normalized_main, normalized_sub)
                  {| original_main := cm;
                     original_sub := sub_cat;
                     keywords := clean_cell c3;
                     explanation := clean_cell c4;
                     common_brands := clean_cell c5 |})
          else Ok (current_main_category, snd st)
      | None => Ok (current_main_category, snd st)
      end
  | _, _, _, _, _ => Raise IndexError
  end.

Fixpoint load_rows (st : option str * mapping) (rows : list row)
  : result (option str * mapping) :=
  match rows with
  | [] => Ok st
  | r :: rest =>
      match load_row st r with
      | Ok st' => load_rows st' rest
      | Raise e => Raise e
      end
  end.

(** [MaterialClassifier.load_classification_standards]; [src] is what
    [pd.read_excel(...).to_dict('records')] gives. *)
Definition load_classification_standards (src : result (list row))
  : result mapping :=
  match src with
  | Raise e => Raise e
  | Ok rows =>
      match load_rows (None, []) rows with
      | Raise e => Raise e
      | Ok (_, classification_mapping) =>
          match classification_mapping with
          | [] => Raise NoRulesLoaded
          | _ :: _ => Ok classification_mapping
          end
      end
  end.

(** The instance a construction yields. *)
Record classifier : Type := {
  classification_mapping : mapping;
  initial_api_failures : nat
}.

(** [MaterialClassifier.__init__]: [cache] is the class attribute
    [_classification_mapping]; the second component is its value
    afterwards. *)
Definition init (cache : option mapping) (src : result (list row))
    (api_key : pyval) : result classifier * option mapping :=
  let loaded :=
    match cache with
    | Some m => Ok m
    | None => load_classification_standards src
    end in
  match loaded with
  | Raise e => (Raise e, cache)
  | Ok m =>
      if negb (truthy api_key) then (Raise ApiKeyMissing, Some m)
      else (Ok {| classification_mapping := m; initial_api_failures := 0 |},
            Some m)
  end.

(** ** Validator *)

Section Validate.
Variable V : Type.
(** The first two components of a mapping value. *)
Variable originals : V -> str * str.

Definition validate_with (m : dict key V) (res : pydict) : result pydict :=
  let main_category := get res k_main_category in
  let sub_category := get res k_sub_category in
  if negb (truthy main_category) || negb (truthy sub_category) then
    Raise (IncompleteResult main_category sub_category)
  else
    let normalized_main := normalize_category lower (py_str main_category) in
    let normalized_sub := normalize_category lower (py_str sub_category) in
    match dict_get key_eq_dec m (normalized_main, normalized_sub) with
    | None => Raise (UnknownCategory main_category sub_category)
    | Some v =>
        let '(orig_main, orig_sub) := originals v in
        Ok (dict_set str_eq_dec
              (dict_set str_eq_dec res k_main_category (PStr orig_main))
              k_sub_category (PStr orig_sub))
    end.
End Validate.

(** [MaterialClassifier.validate_classification_result] of
    [material_classifier_web]; the dictionary returned is [result] after
    the call. *)
Definition validate_classification_result (m : mapping) (res : pydict)
  : result pydict :=
  validate_with (fun e => (original_main e, original_sub e)) m res.

(** The same method in [code/claude], whose mapping values are the pairs
    [(original_main, original_sub)]. *)
Definition validate_classification_result_claude
    (m : dict key (str * str)) (res : pydict) : result pydict :=
  validate_with (fun p => p) m res.

(** ** Keyword and brand matcher *)

(** [(original_main, original_sub, common_brands)] *)
Definition match_t := (str * str * str)%type.

Definition category_of (mt : match_t) : key := (fst (fst mt), snd (fst mt)).

(** The body of the loop over the mapping in [match_keywords]. *)
Definition entry_matches (normalized_name : str) (e : entry) : list match_t :=
  if negb (nonempty (keywords e)) then []
  else
    match stripped_items (keywords e) with
    | [] => []
    | keyword_list =>
        flat_map
          (fun keyword =>
             let normalized_keyword := _normalize_text lower (PStr keyword) in
             if negb (nonempty normalized_keyword) then []
             else if contains normalized_keyword normalized_name
                  then [(original_main e, original_sub e, common_brands e)]
                  else [])
          keyword_list
    end.

(** [KeywordMatcher.match_keywords] *)
Definition match_keywords (m : mapping) (material_name : pyval)
  : list match_t :=
  if negb (truthy material_name) then []
  else
    let normalized_name := _normalize_text lower material_name in
    if negb (nonempty normalized_name) then []
    else flat_map (fun kv => entry_matches normalized_name (snd kv)) m.

(** The de-duplicating loop
    [for match in matches: if (match[0], match[1]) not in checked: ...]. *)
Fixpoint add_unseen (matches : list match_t)
    (acc : list match_t * list key) : list match_t * list key :=
  match matches with
  | [] => acc
  | mt :: rest =>
      if in_dec key_eq_dec (category_of mt) (snd acc)
      then add_unseen rest acc
      else add_unseen rest (fst acc ++ [mt], snd acc ++ [category_of mt])
  end.

Definition is_nil (A : Type) (l : list A) : bool :=
  match l with [] => true | _ :: _ => false end.

Definition field_material_name (material_data : pydict) : pyval :=
  get_default material_data k_material_name (PStr []).

Definition field_model (material_data : pydict) : pyval :=
  py_or (get_default material_data k_drawing_model (PStr []))
        (get_default material_data k_model (PStr [])).

Definition field_brand (material_data : pydict) : pyval :=
  py_or (get_default material_data k_category_brand (PStr []))
        (get_default material_data k_brand (PStr [])).

Definition field_material (material_data : pydict) : pyval :=
  get_default material_data k_material (PStr []).

(** [KeywordMatcher.match_by_multiple_fields] of [material_classifier_web] *)
Definition match_by_multiple_fields (m : mapping) (material_data : pydict)
  : list match_t :=
  let acc := add_unseen (match_keywords m (field_material_name material_data))
               ([], []) in
  let acc :=
    if is_nil (fst acc)
    then add_unseen (match_keywords m (field_model material_data)) acc
    else acc in
  let acc :=
    if is_nil (fst acc)
    then add_unseen (match_keywords m (field_brand material_data)) acc
    else acc in
  let acc :=
    if is_nil (fst acc)
    then add_unseen (match_keywords m (field_material material_data)) acc
    else acc in
  fst acc.

(** The inner loop over [brand_list], left by [break] at the first hit. *)
Definition brand_hit (normalized_material_brand : str) (brands : str) : bool :=
  if negb (nonempty brands) then false
  else
    existsb
      (fun brand =>
         let normalized_brand := _normalize_text lower (PStr brand) in
         nonempty normalized_brand
         && (contains normalized_brand normalized_material_brand
             || contains normalized_material_brand normalized_brand))
      (stripped_items brands).

Definition brand_matches (normalized_material_brand : str)
    (keyword_matches : list match_t) : list key :=
  map category_of
    (filter (fun mt => brand_hit normalized_material_brand (snd mt))
       keyword_matches).

(** [KeywordMatcher.match_by_keywords_and_brand] *)
Definition match_by_keywords_and_brand (m : mapping) (material_data : pydict)
  : option key :=
  match match_by_multiple_fields m material_data with
  | [] => None
  | [single] => Some (category_of single)
  | (first :: _ :: _) as keyword_matches =>
      let normalized_material_brand :=
        _normalize_text lower (field_brand material_data) in
      if negb (nonempty normalized_material_brand) then
        Some (category_of first)
      else
        match brand_matches normalized_material_brand keyword_matches with
        | bm :: _ => Some bm
        | [] => Some (category_of first)
        end
  end.
End Taxonomy.

(** [KeywordMatcher] of [code/material_classifier], the earlier matcher:
    mapping values are [(original_main, original_sub, keywords, notes)] and a
    match is a single pair. *)
Module Legacy.
Section Matcher.
Variable lower : str -> str.

Definition entry4 := (str * str * str * str)%type.

Definition entry_matches (normalized_name : str) (e : entry4)
  : list (str * str * str) :=
  let '(orig_main, orig_sub, keywords, _) := e in
  if negb (nonempty keywords) then []
  else
    match stripped_items keywords with
    | [] => []
    | keyword_list =>
        flat_map
          (fun keyword =>
             let normalized_keyword := _normalize_text lower (PStr keyword) in
             if negb (nonempty normalized_keyword) then []
             else if contains normalized_keyword normalized_name
                  then [(orig_main, orig_sub, keyword)]
                  else [])
          keyword_list
    end.

Definition match_keywords (m : dict key entry4) (material_name : pyval)
  : option key :=
  if negb (truthy material_name) then None
  else
    let normalized_name := _normalize_text lower material_name in
    if negb (nonempty normalized_name) then None
    else
      match flat_map (fun kv => entry_matches normalized_name (snd kv)) m with
      | [] => None
      | first :: _ => Some (fst (fst first), snd (fst first))
      end.

Definition match_by_multiple_fields (m : dict key entry4)
    (material_data : pydict) : option key :=
  match match_keywords m (field_material_name material_data) with
  | Some found => Some found
  | None =>
      match match_keywords m (field_model material_data) with
      | Some found => Some found
      | None =>
          match match_keywords m (field_brand material_data) with
          | Some found => Some found
          | None => match_keywords m (field_material material_data)
          end
      end
  end.
End Matcher.
End Legacy.

(** The loader of [code/material_classifier_langchain]: the table has no
    brand column and a mapping value is
    [(original_main, original_sub, keywords, notes)]. *)
Module Langchain.
Section Loader.
Variable lower : str -> str.

Definition mapping4 := dict key Legacy.entry4.

Definition load_row (st : option str * mapping4) (r : row)
  : result (option str * mapping4) :=
  match cell r 1, cell r 2, cell r 3, cell r 4 with
  | Ok c1, Ok c2, Ok c3, Ok c4 =>
      let main_cat := clean_cell c1 in
      let sub_cat := clean_cell c2 in
      let current_main_category :=
        if nonempty main_cat then Some main_cat else fst st in
      match current_main_category with
      | Some cm =>
          if nonempty cm && nonempty sub_cat then
            let normalized_main := normalize_category lower cm in
            let normalized_sub := normalize_category lower sub_cat in
            Ok (current_main_category,
                dict_set key_eq_dec (snd st) (normalized_main, normalized_sub)
                  (cm, sub_cat, clean_cell c3, clean_cell c4))
          else Ok (current_main_category, snd st)
      | None => Ok (current_main_category, snd st)
      end
  | _, _, _, _ => Raise IndexError
  end.

Fixpoint load_rows (st : option str * mapping4) (rows : list row)
  : result (option str * mapping4) :=
  match rows with
  | [] => Ok st
  | r :: rest =>
      match load_row st r with
      | Ok st' => load_rows st' rest
      | Raise e => Raise e
      end
  end.

Definition load_classification_standards (src : result (list row))
  : result mapping4 :=
  match src with
  | Raise e => Raise e
  | Ok rows =>
      match load_rows (None, []) rows with
      | Raise e => Raise e
      | Ok (_, classification_mapping) =>
          match classification_mapping with
          | [] => Raise NoRulesLoaded
          | _ :: _ => Ok classification_mapping
          end
      end
  end.
End Loader.
End Langchain.

(** ** Response extractor *)

(** [re.findall] of a lazy pattern [open .*? close] under [re.DOTALL]:
    [pending] holds, reversed, the text since the opening delimiter of the
    match being read. *)
Fixpoint findall_lazy_from (open close : char) (pending : option str)
    (s : str) : list str :=
  match s with
  | [] => []
  | c :: s' =>
      match pending with
      | None =>
          if (c =? open)%N then findall_lazy_from open close (Some [c]) s'
          else findall_lazy_from open close None s'
      | Some acc =>
          if (c =? close)%N
          then rev (c :: acc) :: findall_lazy_from open close None s'
          else findall_lazy_from open close (Some (c :: acc)) s'
      end
  end.

Definition findall_lazy (open close : char) (s : str) : list str :=
  findall_lazy_from open close None s.

Definition LBRACE : char := 0x7B%N.
Definition RBRACE : char := 0x7D%N.
Definition LBRACKET : char := 0x5B%N.
Definition RBRACKET : char := 0x5D%N.

Definition FENCE : str := lit "```".

(** [s[3:-3]] *)
Definition slice_3_m3 (s : str) : str := firstn (List.length s - 6) (skipn 3 s).

(** The clean-up of the reply before the scan. *)
Definition clean_content (content : str) : str :=
  let cleaned := strip content in
  if startswith FENCE cleaned && endswith FENCE cleaned then
    let cleaned := strip (slice_3_m3 cleaned) in
    if startswith (lit "json") cleaned then strip (skipn 4 cleaned)
    else cleaned
  else cleaned.

(** [json_matches[-1]] *)
Definition last_match (l : list str) : option str :=
  match l with
  | [] => None
  | x :: l' => Some (last l' x)
  end.

(** The text handed to the second [json.loads]. *)
Definition json_part (cleaned_content : str) : str :=
  match last_match (findall_lazy LBRACE RBRACE cleaned_content) with
  | Some part => part
  | None =>
      match last_match (findall_lazy LBRACKET RBRACKET cleaned_content) with
      | Some part => part
      | None => cleaned_content
      end
  end.



(** A JSON value: a dict, or something else. *)
Inductive parsed : Type :=
| JDict (d : pydict)
| JOther.

(** What [json.loads] does with a text: it returns a value, raises
    [json.JSONDecodeError], or raises something else ([ValueError] for an
    integer of too many digits, [RecursionError] for too deep a nesting). *)
Inductive loads : Type :=
| Returns (parsed_result : parsed)
| RaisesDecodeError
| RaisesOther.

(** A reply of the remote client: an exception, or the message content. *)
Inductive response : Type :=
| Failure (msg : str)
| Content (content : pyval).

(** ** Classification resolver *)

Inductive event : Type :=
| EvRequest (n : nat)        (* the n-th request of the process *)
| EvBackoff (seconds : nat)  (* [time.sleep(2**attempt)] *)
| EvRateLimit.               (* [time.sleep(Config.API_RATE_LIMIT)] *)

Record world : Type := {
  continuous_api_failures : nat;
  requests : nat;
  trace : list event
}.

Definition MAX_API_FAILURES : nat := 5.

Definition log_event (e : event) (w : world) : world :=
  {| continuous_api_failures := continuous_api_failures w;
     requests := requests w;
     trace := trace w ++ [e] |}.

Definition set_failures (n : nat) (w : world) : world :=
  {| continuous_api_failures := n;
     requests := requests w;
     trace := trace w |}.

Definition send_request (w : world) : world :=
  {| continuous_api_failures := continuous_api_failures w;
     requests := S (requests w);
     trace := trace w ++ [EvRequest (requests w)] |}.

Section Resolver.
Variable lower : str -> str.
(** [json.loads] *)
Variable json_loads : str -> loads.
(** [Config.MAX_RETRIES] *)
Variable MAX_RETRIES : nat.
(** The remote service: its reply to the n-th request of the process. *)
Variable remote : nat -> response.

(** From the reply to [parsed_result]: the body of the [try] after the
    client call (web variant).  Only a [json.JSONDecodeError] of the first
    [json.loads] is caught; any other exception, and every exception of the
    second one, leaves the attempt. *)
Definition parse_content (content : pyval) : result parsed :=
  if negb (truthy content) then Raise EmptyContent
  else
    let content := py_str content in
    match json_loads content with
    | Returns parsed_result => Ok parsed_result
    | RaisesOther => Raise LoadsError
    | RaisesDecodeError =>
        match json_loads (json_part (clean_content content)) with
        | Returns parsed_result => Ok parsed_result
        | RaisesDecodeError => Raise JSONDecodeError
        | RaisesOther => Raise LoadsError
        end
    end.

Definition checked_result (p : parsed) : result pydict :=
  match p with
  | JOther => Raise NotAnObject
  | JDict d =>
      if negb (dict_mem str_eq_dec d k_main_category)
         || negb (dict_mem str_eq_dec d k_sub_category)
      then Raise MissingFields
      else Ok (dict_set str_eq_dec d k_classification_source
                 (PStr (lit "deepseek_api")))
  end.

(** One remote attempt of the web variant, up to the [return]. *)
Definition attempt_web (r : response) : result pydict :=
  match r with
  | Failure msg => Raise (ClientError msg)
  | Content c =>
      match parse_content c with
      | Raise e => Raise e
      | Ok p => checked_result p
      end
  end.

Section RetryLoop.
(** What one attempt of the web variant makes of the reply, up to the
    reset of the counter: [attempt_web] in the code.  Nothing can raise
    between the reset and the [return], the result being a dict. *)
Variable attempt_body : response -> result pydict.

(** [for attempt in range(Config.MAX_RETRIES)], with [remaining] iterations
    left; falling out of the loop returns [None]. *)
Fixpoint retry_from (remaining attempt : nat) (w : world)
  : result (option pydict) * world :=
  match remaining with
  | O => (Ok None, w)
  | S remaining' =>
      let reply := remote (requests w) in
      let w := send_request w in
      match attempt_body reply with
      | Ok parsed_result => (Ok (Some parsed_result), set_failures 0 w)
      | Raise e =>
          let w := set_failures (continuous_api_failures w + 1) w in
          if MAX_API_FAILURES <=? continuous_api_failures w then (Raise e, w)
          else if attempt <? MAX_RETRIES - 1
               then retry_from remaining' (S attempt)
                      (log_event (EvBackoff (2 ^ attempt)) w)
               else (Raise e, w)
      end
  end.

(** [MaterialClassifier._call_deepseek_api] *)
Definition _call_deepseek_api (w : world) : result (option pydict) * world :=
  retry_from MAX_RETRIES 0 w.
End RetryLoop.

Definition formatted_data (material_data : pydict) : pydict :=
  [ (k_model, get_default material_data k_drawing_model
                (get_default material_data k_model (PStr [])));
    (k_brand, get_default material_data k_category_brand
                (get_default material_data k_brand (PStr [])));
    (k_supplier, get_default material_data k_supplier (PStr []));
    (k_material_name, get_default material_data k_material_name (PStr []));
    (k_material, get_default material_data k_material (PStr [])) ].

Definition keyword_result (found : key) : pydict :=
  [ (k_main_category, PStr (fst found));
    (k_sub_category, PStr (snd found));
    (k_classification_source, PStr (lit "keyword_matcher")) ].

(** [MaterialClassifier.classify_material] (web variant) *)
Definition classify_material (m : mapping) (material_data : pydict)
    (w : world) : result pydict * world :=
  match match_by_keywords_and_brand lower m (formatted_data material_data) with
  | Some local_match =>
      (validate_classification_result lower m (keyword_result local_match), w)
  | None =>
      match _call_deepseek_api attempt_web w with
      | (Ok (Some res), w') => (validate_classification_result lower m res, w')
      | (Ok None, w') => (Raise AttributeError, w')
      | (Raise e, w') => (Raise e, w')
      end
  end.

(** An element of the list [classify_batch] returns. *)
Inductive outcome : Type :=
| Success (original_data : pydict) (classification : pydict)
| Failed (original_data : pydict) (err : error).

Definition original_data_of (o : outcome) : pydict :=
  match o with
  | Success d _ => d
  | Failed d _ => d
  end.

Definition wrap (material : pydict) (r : result pydict) : outcome :=
  match r with
  | Ok classification_result => Success material classification_result
  | Raise e => Failed material e
  end.

(** [for i, material in enumerate(materials_list)] with [total] the length
    of the whole list. *)
Fixpoint batch_from (m : mapping) (total i : nat) (items : list pydict)
    (results : list outcome) (w : world) : list outcome * world :=
  match items with
  | [] => (results, w)
  | material :: rest =>
      let '(r, w) := classify_material m material w in
      let results := results ++ [wrap material r] in
      let w := if i <? total - 1 then log_event EvRateLimit w else w in
      batch_from m total (S i) rest results w
  end.

(** [MaterialClassifier.classify_batch] *)
Definition classify_batch (m : mapping) (materials_list : list pydict)
    (w : world) : list outcome * world :=
  batch_from m (List.length materials_list) 0 materials_list [] w.
End Resolver.

(** ** The call of [material_classifier_langchain] *)

Module LangchainResolver.
Section Call.
(** [Config.MAX_RETRIES] *)
Variable MAX_RETRIES : nat.
(** The remote service: what [self.client.invoke] gives at the n-th
    request of the process, an exception or the content of the message. *)
Variable remote : nat -> response.
(** [self.output_parser.parse], LangChain's JSON output parser: it raises
    or returns a JSON value, which need not be an object. *)
Variable parse : pyval -> result parsed.

(** The body of the [try]: the counter is reset as soon as the parser has
    returned, before the provenance tag is stored into the value, which
    raises [TypeError] when the value is no dict. *)
Definition attempt (reply : response) (w : world) : result pydict * world :=
  match reply with
  | Failure msg => (Raise (ClientError msg), w)
  | Content content =>
      match parse content with
      | Raise e => (Raise e, w)
      | Ok parsed_result =>
          let w := set_failures 0 w in
          match parsed_result with
          | JDict d =>
              (Ok (dict_set str_eq_dec d k_classification_source
                     (PStr (lit "deepseek_api"))), w)
          | JOther => (Raise TypeError, w)
          end
      end
  end.

(** [for attempt in range(Config.MAX_RETRIES)], with [remaining] iterations
    left; falling out of the loop returns [None]. *)
Fixpoint retry_from (remaining attempt_no : nat) (w : world)
  : result (option pydict) * world :=
  match remaining with
  | O => (Ok None, w)
  | S remaining' =>
      let reply := remote (requests w) in
      let w := send_request w in
      match attempt reply w with
      | (Ok parsed_result, w) => (Ok (Some parsed_result), w)
      | (Raise e, w) =>
          let w := set_failures (continuous_api_failures w + 1) w in
          if MAX_API_FAILURES <=? continuous_api_failures w then (Raise e, w)
          else if attempt_no <? MAX_RETRIES - 1
               then retry_from remaining' (S attempt_no)
                      (log_event (EvBackoff (2 ^ attempt_no)) w)
               else (Raise e, w)
      end
  end.

(** [MaterialClassifier._call_deepseek_api] *)
Definition _call_deepseek_api (w : world) : result (option pydict) * world :=
  retry_from MAX_RETRIES 0 w.


End Call.
End LangchainResolver.

(** ** Auxiliary notions for the statements *)

(** The text does not begin with a character [strip] removes. *)
Definition clean_head (s : str) : bool :=
  match s with
  | [] => true
  | c :: _ => negb (isspace c)
  end.


(** What the loader establishes of the mapping: keys are unique, every key
    is the normalized form of the originals stored under it, and no stored
    original is empty. *)
Definition canonical_store (lower : str -> str) (m : mapping) : Prop :=
  NoDup (dict_keys m)
  /\ forall k e, In (k, e) m ->
       k = (normalize_category lower (original_main e),
            normalize_category lower (original_sub e))
       /\ nonempty (original_main e) = true
       /\ nonempty (original_sub e) = true.

(** A candidate comes from the store when its pair is the pair of originals
    of some entry. *)
Definition from_store (m : mapping) (found : key) : Prop :=
  exists k e, In (k, e) m /\ found = (original_main e, original_sub e).

(** ** A small taxonomy for the examples *)

(** A missing cell: the float NaN, truthy and printed as [nan]. *)
Definition NaN : pyval := POther true (lit "nan").

Definition example_rows : list row :=
  [ [POther true (lit "1"); PStr (lit "PLC / IO Module"); PStr (lit "Cabinet");
     PStr (lit "plc, cabinet"); PStr (lit "control"); PStr (lit "Siemens, Omron")];
    [POther true (lit "2"); NaN; PStr (lit "Servo Drive");
     PStr (lit "servo"); NaN; PStr (lit "Omron")];
    [POther true (lit "3"); NaN; NaN; PStr (lit "ignored"); NaN; NaN];
    [POther true (lit "4"); PStr (lit "Robot"); PStr (lit "Six Axis");
     PStr (lit "robot"); NaN; NaN] ].

Definition example_entry (a b c : string) (d e : str) : entry :=
  {| original_main := lit a; original_sub := lit b; keywords := lit c;
     explanation := d; common_brands := e |}.

Definition example_mapping : mapping :=
  [ ((lit "plc/iomodule", lit "cabinet"),
     example_entry "PLC / IO Module" "Cabinet" "plc, cabinet"
       (lit "control") (lit "Siemens, Omron"));
    ((lit "plc/iomodule", lit "servodrive"),
     example_entry "PLC / IO Module" "Servo Drive" "servo" [] (lit "Omron"));
    ((lit "robot", lit "sixaxis"),
     example_entry "Robot" "Six Axis" "robot" [] []) ].

(** A reply of the model with its own spelling of a category. *)
Definition example_candidate : pydict :=
  [ (k_main_category, PStr (lit " plc / IO MODULE"));
    (k_sub_category, PStr (lit "CABINET "));
    (lit "confidence", POther true (lit "0.9"));
    (k_classification_source, PStr (lit "deepseek_api")) ].


(** ** The loading rule, as the specification words it *)

(** The main-category and sub-category cells of a row, a missing value read
    as empty. *)
Definition main_cell (r : row) : str := clean_cell (nth 1 r PNone).
Definition sub_cell (r : row) : str := clean_cell (nth 2 r PNone).

(** The current main category after some rows: the most recent non-empty
    main-category cell, if there is one. *)
Definition last_main (rows : list row) : option str :=
  find nonempty (rev (map main_cell rows)).

(** The mapping values the two loaders build from a row under main category
    [cm]. *)
Definition entry_of_row (cm : str) (r : row) : entry :=
  {| original_main := cm;
     original_sub := sub_cell r;
     keywords := clean_cell (nth 3 r PNone);
     explanation := clean_cell (nth 4 r PNone);
     common_brands := clean_cell (nth 5 r PNone) |}.

Definition entry4_of_row (cm : str) (r : row) : Legacy.entry4 :=
  (cm, sub_cell r, clean_cell (nth 3 r PNone), clean_cell (nth 4 r PNone)).

Section Contributions.
Variable E : Type.
Variable value_of_row : str -> row -> E.
Variable lower : str -> str.

(** What row [i] of the table contributes: an entry exactly when a main
    category is current at that row and its own sub-category cell is not
    empty. *)
Definition contribution (rows : list row) (i : nat) : option (key * E) :=
  match nth_error rows i, last_main (firstn (S i) rows) with
  | Some r, Some cm =>
      if nonempty (sub_cell r)
      then Some ((normalize_category lower cm,
                  normalize_category lower (sub_cell r)),
                 value_of_row cm r)
      else None
  | _, _ => None
  end.

Definition option_list (A : Type) (o : option A) : list A :=
  match o with Some a => [a] | None => [] end.

Definition contributions (rows : list row) : list (key * E) :=
  flat_map (fun i => option_list (contribution rows i))
    (seq 0 (List.length rows)).

(** The assignments [mapping[k] = v] in order. *)
Definition assign_all (kvs : list (key * E)) (m : dict key E) : dict key E :=
  fold_left (fun acc kv => dict_set key_eq_dec acc (fst kv) (snd kv)) kvs m.
End Contributions.

(** Every row has at least [n] cells. *)
Definition columns (n : nat) (rows : list row) : Prop :=
  Forall (fun r => n <= List.length r) rows.

(** The table has the six columns the web loader addresses. *)
Definition six_columns (rows : list row) : Prop := columns 6 rows.

(** Successive constructions in one process, the class-level cache threaded
    through them. *)
Fixpoint constructions (lower : str -> str) (cache : option mapping)
    (calls : list (result (list row) * pyval)) : list (result classifier) :=
  match calls with
  | [] => []
  | (src, api_key) :: rest =>
      let '(r, cache') := init lower cache src api_key in
      r :: constructions lower cache' rest
  end.

Definition holds_an_entry (r : result classifier) : Prop :=
  match r with
  | Ok c => classification_mapping c <> []
  | Raise _ => True
  end.


(** ** The matcher, as the specification words it *)

(** The matches of one field with later repetitions of a category dropped. *)
Definition distinct_matches (matches : list match_t) : list match_t :=
  fst (add_unseen matches ([], [])).

(** Brand match in the specification's words: the normalized record brand
    and a normalized candidate brand are substrings of each other in either
    direction. *)
Definition spec_brand_match (lower : str -> str) (record_brand : str)
    (candidate : match_t) : bool :=
  existsb
    (fun brand =>
       let candidate_brand := _normalize_text lower (PStr brand) in
       contains candidate_brand record_brand
       || contains record_brand candidate_brand)
    (stripped_items (snd candidate)).

(** Disambiguation in the specification's words: one distinct pair is
    returned directly; of several, the first brand-matching candidate, and
    the first candidate when none matches. *)
Definition spec_match_by_keywords_and_brand (lower : str -> str) (m : mapping)
    (material_data : pydict) : option key :=
  match match_by_multiple_fields lower m material_data with
  | [] => None
  | [single] => Some (category_of single)
  | (first :: _ :: _) as candidates =>
      let record_brand := _normalize_text lower (field_brand material_data) in
      match find (spec_brand_match lower record_brand) candidates with
      | Some chosen => Some (category_of chosen)
      | None => Some (category_of first)
      end
  end.

(** Two categories sharing a keyword, only the second with a brand list. *)
Definition valve_mapping : mapping :=
  [ ((lit "pneumatic", lit "valve"),
     example_entry "Pneumatic" "Valve" "valve" [] []);
    ((lit "hydraulic", lit "valve"),
     example_entry "Hydraulic" "Valve" "valve" [] (lit "SMC, Festo")) ].

(** The table the two categories come from. *)
Definition valve_rows : list row :=
  [ [POther true (lit "1"); PStr (lit "Pneumatic"); PStr (lit "Valve");
     PStr (lit "valve"); NaN; NaN];
    [POther true (lit "2"); PStr (lit "Hydraulic"); PStr (lit "Valve");
     PStr (lit "valve"); NaN; PStr (lit "SMC, Festo")] ].

(** A record with a name and no brand. *)
Definition valve_record : pydict := [ (k_material_name, PStr (lit "ball valve")) ].

(** The same record with a brand. *)
Definition festo_valve_record : pydict :=
  [ (k_material_name, PStr (lit "ball valve"));
    (k_brand, PStr (lit "FESTO AG")) ].

(** A record whose name and model match different categories. *)
Definition plc_record : pydict :=
  [ (k_material_name, PStr (lit "PLC rack"));
    (k_drawing_model, PStr (lit "robot-1")) ].

(** Records that reach the matcher through one field each, their keys
    written out: a name and a drawing-or-model cell that match different
    entries, a model under the short key only, a brand beside a name that
    matches nothing, and a raw material alone. *)
Definition name_model_record : pydict :=
  [ ([29289; 26009; 21517; 31216]%N, PStr (lit "PLC rack"));    (* 物料名称 *)
    ([22270; 21495; 47; 22411; 21495]%N, PStr (lit "robot-1")) ]. (* 图号/型号 *)

Definition short_model_record : pydict :=
  [ ([22411; 21495]%N, PStr (lit "servo-7")) ].                  (* 型号 *)

Definition brand_record : pydict :=
  [ ([29289; 26009; 21517; 31216]%N, PStr (lit "gasket"));      (* 物料名称 *)
    ([20998; 31867; 47; 21697; 29260]%N, PStr (lit "Robot Co")) ]. (* 分类/品牌 *)

Definition material_record : pydict :=
  [ ([26448; 26009]%N, PStr (lit "cabinet steel")) ].            (* 材料 *)


(** ** The extractor, as the specification words it *)



(** No brace occurs in the text. *)
Definition brace_free (s : str) : Prop := ~ In LBRACE s /\ ~ In RBRACE s.


(** A flat object: braces around a brace-free body. *)
Definition flat_object (body : str) : str := LBRACE :: body ++ [RBRACE].

Definition QUOTE : char := 0x22%N.

Definition quoted (s : string) : str := QUOTE :: lit s ++ [QUOTE].

(** The body of a classification object. *)
Definition classification_body (main sub : string) : str :=
  quoted "main_category" ++ lit ":" ++ quoted main ++ lit ","
  ++ quoted "sub_category" ++ lit ":" ++ quoted sub.

Definition classification_dict (main sub : string) : pydict :=
  [ (k_main_category, PStr (lit main)); (k_sub_category, PStr (lit sub)) ].

(** A reply that repeats a first attempt before the final answer. *)
Definition two_objects : str :=
  flat_object (classification_body "X1" "Y1") ++ lit " then "
  ++ flat_object (classification_body "X2" "Y2").

(** The two objects as the elements of one array. *)
Definition array_of_two : str :=
  lit "[" ++ flat_object (classification_body "X1" "Y1") ++ lit ","
  ++ flat_object (classification_body "X2" "Y2") ++ lit "]".


(** A reply that begins with an integer of 4301 digits, one more than
    Python converts, and ends with the second object. *)
Definition over_long_reply : str :=
  repeat 0x39%N 4301 ++ lit " "
  ++ flat_object (classification_body "X2" "Y2").

(** [json.loads] on the texts of the examples: the two objects and their
    array parse, the over-long integer makes it raise [ValueError], and the
    replies as a whole and everything else are decode errors. *)
Definition example_json_loads (s : str) : loads :=
  if str_eqb s (flat_object (classification_body "X1" "Y1"))
  then Returns (JDict (classification_dict "X1" "Y1"))
  else if str_eqb s (flat_object (classification_body "X2" "Y2"))
  then Returns (JDict (classification_dict "X2" "Y2"))
  else if str_eqb s array_of_two then Returns JOther
  else if str_eqb s over_long_reply then RaisesOther
  else RaisesDecodeError.


(** [t] is [s] without a brace-free prefix and a brace-free suffix. *)
Definition trims_to (t s : str) : Prop :=
  exists a b, s = a ++ t ++ b /\ brace_free a /\ brace_free b.


(** ** The failure ceiling and the batch, as the specification words them *)



Definition initial_world : world :=
  {| continuous_api_failures := 0; requests := 0; trace := [] |}.

(** A service that fails five times and then answers. *)
Definition recovering_remote (n : nat) : response :=
  if n <? 5 then Failure (lit "timeout")
  else Content (PStr (flat_object (classification_body "X2" "Y2"))).

(** A service that never answers. *)
Definition dead_remote (n : nat) : response := Failure (lit "timeout").




(** The batch by recursion on the list: classify the head, wait if a record
    follows, go on with the rest. *)
Fixpoint batch_spec (lower : str -> str) (json_loads : str -> loads)
    (MAX_RETRIES : nat) (remote : nat -> response) (m : mapping)
    (items : list pydict) (w : world) : list outcome * world :=
  match items with
  | [] => ([], w)
  | material :: rest =>
      let '(r, w1) :=
        classify_material lower json_loads MAX_RETRIES remote m material w in
      let w2 := match rest with
                | [] => w1
                | _ :: _ => log_event EvRateLimit w1
                end in
      let '(outcomes, w3) :=
        batch_spec lower json_loads MAX_RETRIES remote m rest w2 in
      (wrap material r :: outcomes, w3)
  end.

Definition is_rate_limit (e : event) : bool :=
  match e with EvRateLimit => true | _ => false end.

(** The number of inter-record delays in a trace. *)
Definition rate_limit_sleeps (t : list event) : nat :=
  List.length (filter is_rate_limit t).

(** A batch of three records: a local match, one that needs the service, a
    local match. *)
Definition unknown_record : pydict :=
  [ (k_material_name, PStr (lit "gasket")) ].

Definition example_batch : list pydict :=
  [ plc_record; unknown_record; plc_record ].


(** ** The mapping of the matcher's tests *)

Definition test_mapping4 : dict key Legacy.entry4 :=
  [ ((lit "testmain1", lit "testsub1"),
     (lit "Test Main 1", lit "Test Sub 1", lit "keyword1, keyword2",
      lit "Test notes 1"));
    ((lit "testmain2", lit "testsub2"),
     (lit "Test Main 2", lit "Test Sub 2",
      lit "keyword3" ++ [0x3001%N] ++ lit "keyword4", lit "Test notes 2"));
    ((lit "testmain3", lit "testsub3"),
     (lit "Test Main 3", lit "Test Sub 3", [], lit "Test notes 3")) ].

(** [PLC/IO模块/柜体] and a variant of it in another casing and spacing. *)
Definition plc_cabinet : str :=
  lit "PLC/IO" ++ [27169; 22359; 47; 26588; 20307]%N.

Definition plc_cabinet_variant : str :=
  lit "Plc / io" ++ [27169; 22359]%N ++ lit " /" ++ [26588; 20307]%N.


(** ** Notions for the further properties *)

(** The events of [k] consecutive attempts of one call, the first being
    request [n] at loop index [attempt]: a back-off of [2 ^ attempt] seconds
    between an attempt and the next, none after the last. *)
Fixpoint attempt_schedule (n attempt k : nat) : list event :=
  match k with
  | 0 => []
  | S k' =>
      EvRequest n ::
      match k' with
      | 0 => []
      | S _ => EvBackoff (2 ^ attempt) :: attempt_schedule (S n) (S attempt) k'
      end
  end.


(** The mapping of the earlier, four-component format with the same
    entries: the brand list is dropped. *)
Definition without_brands (m : mapping) : dict key Legacy.entry4 :=
  map (fun kv =>
         (fst kv,
          (original_main (snd kv), original_sub (snd kv), keywords (snd kv),
           explanation (snd kv))))
      m.

(** [p] occurs in [s] as a contiguous part. *)
Definition infix (p s : str) : Prop := exists a b, s = a ++ p ++ b.


(** The value last assigned to key [k] in a sequence of assignments. *)
Definition last_assigned (E : Type) (k : key) (kvs : list (key * E))
  : option E :=
  option_map snd
    (find (fun kv => if key_eq_dec (fst kv) k then true else false) (rev kvs)).

(** What a construction gives once the class-level cache holds [m]: a
    classifier on [m], or the missing-key error. *)
Definition built_on (m : mapping) (r : result classifier) : Prop :=
  match r with
  | Ok c => classification_mapping c = m
  | Raise e => e = ApiKeyMissing
  end.


(** Two rows that differ in spelling only. *)
Definition respelled_rows : list row :=
  [ [POther true (lit "1"); PStr (lit "Robot"); PStr (lit "Six Axis");
     PStr (lit "robot"); NaN; NaN];
    [POther true (lit "2"); PStr (lit "ROBOT"); PStr (lit "six axis");
     PStr (lit "arm"); NaN; NaN] ].


(** ** The loader of [code/claude] and the generator of its rules *)

Module Claude.

Definition RULES_HEADER : str :=        (* 5. 仅使用以下分类标准中的分类： *)
  [53; 46; 32; 20165; 20351; 29992; 20197; 19979; 20998; 31867; 26631; 20934;
   20013; 30340; 20998; 31867; 65306]%N.
Definition EXAMPLES_MARK : str := [31034; 20363; 65306]%N.            (* 示例： *)
Definition RULE_PREFIX : str := [45; 32; 22823; 31867; 65306]%N.      (* - 大类： *)
Definition SUB_SEPARATOR : str :=                                     (* ，二级类： *)
  [65292; 20108; 32423; 31867; 65306]%N.

(** [s.split(sep)] for a non-empty [sep]; [skip] counts the characters of a
    separator just found that are still to be passed over, [cur] holds the
    current piece, reversed. *)
Fixpoint split_str_from (sep : str) (skip : nat) (cur : str) (s : str)
  : list str :=
  match s with
  | [] => [rev cur]
  | c :: s' =>
      match skip with
      | S skip' => split_str_from sep skip' cur s'
      | 0 =>
          if startswith sep s
          then rev cur :: split_str_from sep (List.length sep - 1) [] s'
          else split_str_from sep 0 (c :: cur) s'
      end
  end.

Definition split_str (sep s : str) : list str := split_str_from sep 0 [] s.

(** [sep.join(items)] *)
Fixpoint join (sep : str) (items : list str) : str :=
  match items with
  | [] => []
  | [x] => x
  | x :: rest => x ++ sep ++ join sep rest
  end.

(** The truth value of [start_idx] and [end_idx]: unset and zero are
    falsy. *)
Definition truthy_idx (o : option nat) : bool :=
  match o with
  | Some (S _) => true
  | _ => false
  end.

(** The loop that looks for the rules block; [i] is the index of the first
    of [lines]. *)
Fixpoint find_block (i : nat) (start_idx : option nat) (lines : list str)
  : option nat * option nat :=
  match lines with
  | [] => (start_idx, None)
  | line :: rest =>
      let line := strip line in
      if str_eqb line RULES_HEADER then find_block (S i) (Some (i + 1)) rest
      else if truthy_idx start_idx && startswith EXAMPLES_MARK line
      then (start_idx, Some i)
      else find_block (S i) start_idx rest
  end.

Definition mapping2 := dict key (str * str).

Section Loader.
Variable lower : str -> str.

(** The body of the loop over the rule lines. *)
Definition parse_rule (m : mapping2) (rule : str) : mapping2 :=
  let rule := strip rule in
  if negb (nonempty rule) || negb (startswith RULE_PREFIX rule) then m
  else
    match split_str SUB_SEPARATOR (skipn (List.length RULE_PREFIX) rule) with
    | [part0; part1] =>
        let main_category := strip part0 in
        let sub_category := strip part1 in
        if negb (nonempty main_category) || negb (nonempty sub_category)
        then m
        else dict_set key_eq_dec m
               (normalize_category lower main_category,
                normalize_category lower sub_category)
               (main_category, sub_category)
    | _ => m
    end.

(** What the loader gives: the mapping, or the [ValueError] for a template
    without a rules block. *)
Inductive load_result : Type :=
| Loaded (m : mapping2)
| RulesBlockNotFound.

(** [MaterialClassifier.load_classification_standards] of [code/claude];
    [prompt_text] is [Config.PROMPT_TEMPLATE]. *)
Definition load_classification_standards (prompt_text : str) : load_result :=
  let lines := split_str [NEWLINE] prompt_text in
  let '(start_idx, end_idx) := find_block 0 None lines in
  if negb (truthy_idx start_idx) || negb (truthy_idx end_idx)
  then RulesBlockNotFound
  else
    match start_idx, end_idx with
    | Some s, Some e =>
        Loaded (fold_left parse_rule (firstn (e - s) (skipn s lines)) [])
    | _, _ => RulesBlockNotFound
    end.
End Loader.

(** The rule line [update_config_prompt_from_excel] writes for a table
    row. *)
Definition rule_line (main_category sub_category : str) : str :=
  RULE_PREFIX ++ strip main_category ++ SUB_SEPARATOR ++ strip sub_category.

(** Its loop over the rows: a row with a missing cell ([None]) is passed
    over. *)
Fixpoint classification_rules (rows : list (option str * option str))
  : list str :=
  match rows with
  | [] => []
  | (Some main_category, Some sub_category) :: rest =>
      rule_line main_category sub_category :: classification_rules rest
  | _ :: rest => classification_rules rest
  end.

(** Why an attempt of [_call_deepseek_api] fails in [code/claude]. *)
Inductive failure : Type :=
| RequestFailed (msg : str)   (* the request or the reading of the reply *)
| ContentNotText              (* [json.loads] of something that is no text *)
| ContentNotJSON              (* [json.JSONDecodeError] on the second parse *)
| ContentLoadsRaised          (* another exception of [json.loads] *)
| ResultNotAnObject
| ResultMissingFields.

Section Call.
(** [json.loads] *)
Variable json_loads : str -> loads.
(** [Config.MAX_RETRIES] *)
Variable MAX_RETRIES : nat.
(** The remote service: its reply to the n-th request of the process. *)
Variable remote : nat -> response.

Definition checked (parsed_result : parsed) : pydict + failure :=
  match parsed_result with
  | JOther => inr ResultNotAnObject
  | JDict d =>
      if negb (dict_mem str_eq_dec d k_main_category)
         || negb (dict_mem str_eq_dec d k_sub_category)
      then inr ResultMissingFields
      else inl d
  end.

(** One attempt, up to the [return]; the second [json.loads] reads the
    reply trimmed and without its code fence, which is [clean_content]. *)
Definition attempt (r : response) : pydict + failure :=
  match r with
  | Failure msg => inr (RequestFailed msg)
  | Content (PStr content) =>
      match json_loads content with
      | Returns parsed_result => checked parsed_result
      | RaisesOther => inr ContentLoadsRaised
      | RaisesDecodeError =>
          match json_loads (clean_content content) with
          | Returns parsed_result => checked parsed_result
          | RaisesDecodeError => inr ContentNotJSON
          | RaisesOther => inr ContentLoadsRaised
          end
      end
  | Content _ => inr ContentNotText
  end.

(** [for attempt in range(Config.MAX_RETRIES)] with [remaining] iterations
    left; the three handlers do the same; falling out of the loop returns
    [None]. *)
Fixpoint retry_from (remaining attempt_no : nat) (w : world)
  : (option pydict + failure) * world :=
  match remaining with
  | O => (inl None, w)
  | S remaining' =>
      let reply := remote (requests w) in
      let w := send_request w in
      match attempt reply with
      | inl parsed_result => (inl (Some parsed_result), w)
      | inr e =>
          if attempt_no <? MAX_RETRIES - 1
          then retry_from remaining' (S attempt_no)
                 (log_event (EvBackoff (2 ^ attempt_no)) w)
          else (inr e, w)
      end
  end.

(** [MaterialClassifier._call_deepseek_api] of [code/claude] *)
Definition _call_deepseek_api (w : world) : (option pydict + failure) * world :=
  retry_from MAX_RETRIES 0 w.

(** How [classify_material] ends: with the validated result, with the
    failure of the call, or with the error of the validator. *)
Inductive classified : Type :=
| Classified (res : pydict)
| CallFailed (e : failure)
| Rejected (e : error).

Variable lower : str -> str.

(** [MaterialClassifier.classify_material] of [code/claude]; the material
    only shapes the prompt, which the remote service is not modelled to
    read. *)
Definition classify_material (m : mapping2) (w : world) : classified * world :=
  match _call_deepseek_api w with
  | (inr e, w) => (CallFailed e, w)
  | (inl None, w) => (Rejected AttributeError, w)
  | (inl (Some res), w) =>
      match validate_classification_result_claude lower m res with
      | Ok res => (Classified res, w)
      | Raise e => (Rejected e, w)
      end
  end.
End Call.

(** A cell of a [csv.DictReader] row: text, [None] for a column the line is
    too short for, or the list of the surplus cells. *)
Inductive csv_cell : Type :=
| CText (s : str)
| CNone
| CList (l : list str).

(** A row: the cells by column name, the surplus ones under [None]. *)
Definition csv_row := dict (option str) csv_cell.

Definition column_eq_dec : forall a b : option str, {a = b} + {a <> b}.
Proof. decide equality. apply str_eq_dec. Defined.

(** [key in row and row[key].strip()] as a truth value; only text has a
    [strip]. *)
Definition field_filled (row : csv_row) (key : str) : result bool :=
  match dict_get column_eq_dec row (Some key) with
  | None => Ok false
  | Some (CText v) => Ok (nonempty (strip v))
  | Some _ => Raise AttributeError
  end.

(** [all(... for key in keys)]: the first falsy field ends the scan. *)
Fixpoint all_filled (row : csv_row) (keys : list str) : result bool :=
  match keys with
  | [] => Ok true
  | key :: keys' =>
      match field_filled row key with
      | Raise e => Raise e
      | Ok false => Ok false
      | Ok true => all_filled row keys'
      end
  end.

Definition REQUIRED_COLUMNS : list str := [k_model; k_brand; k_supplier].

(** The loop over the reader. *)
Fixpoint read_rows (rows materials_list : list csv_row)
  : result (list csv_row) :=
  match rows with
  | [] => Ok materials_list
  | row :: rest =>
      match all_filled row REQUIRED_COLUMNS with
      | Raise e => Raise e
      | Ok true => read_rows rest (materials_list ++ [row])
      | Ok false => read_rows rest materials_list
      end
  end.

(** [MaterialClassifier.read_materials_from_csv] of [code/claude]; [src] is
    what opening and reading the file gives. *)
Definition read_materials_from_csv (src : result (list csv_row))
  : result (list csv_row) :=
  match src with
  | Raise e => Raise e
  | Ok rows => read_rows rows []
  end.

End Claude.

(** [MaterialManager._extract_material_info] *)
Definition _extract_material_info (material_data : pydict) : pydict :=
  [ (k_material_name, get_default material_data k_material_name (PStr []));
    (k_model, get_default material_data k_drawing_model (PStr []));
    (k_brand, get_default material_data k_category_brand (PStr []));
    (k_supplier, get_default material_data k_supplier (PStr []));
    (k_material, get_default material_data k_material (PStr [])) ].

(** The row has text that is not blank under the column. *)
Definition filled (row : Claude.csv_row) (key : str) : bool :=
  match dict_get Claude.column_eq_dec row (Some key) with
  | Some (Claude.CText v) => nonempty (strip v)
  | _ => false
  end.

Definition complete_row (row : Claude.csv_row) : bool :=
  forallb (filled row) Claude.REQUIRED_COLUMNS.

Definition example_csv : list Claude.csv_row :=
  [ [ (Some k_model, Claude.CText (lit "S7-300"));
      (Some k_brand, Claude.CText (lit "Siemens"));
      (Some k_supplier, Claude.CText (lit "ACME")) ];
    [ (Some k_model, Claude.CText (lit "  "));
      (Some k_brand, Claude.CNone) ];
    [ (Some k_model, Claude.CText (lit "UPS2000"));
      (Some k_brand, Claude.CText (lit "APC"));
      (Some k_supplier, Claude.CText (lit "ACME"));
      (None, Claude.CList [lit "extra"]) ] ].

Definition short_csv : list Claude.csv_row :=
  [ [ (Some k_model, Claude.CText (lit "S7-300"));
      (Some k_brand, Claude.CNone);
      (Some k_supplier, Claude.CNone) ] ].

(** The pairs of names a table gives, as the generator strips them. *)
Fixpoint named_pairs (rows : list (option str * option str))
  : list (str * str) :=
  match rows with
  | [] => []
  | (Some a, Some b) :: rest => (strip a, strip b) :: named_pairs rest
  | _ :: rest => named_pairs rest
  end.

(** A name that the loader reads back from a rule line of the template it
    receives: not empty, trimmed, and without the full-width comma that
    starts the separator. *)
Definition plain_name (s : str) : Prop :=
  s <> [] /\ strip s = s /\ ~ In 65292%N s.

(** The assignments the loader of [code/claude] makes for a list of
    pairs. *)
Definition pair_assignments (lower : str -> str) (pairs : list (str * str))
  : list (key * (str * str)) :=
  map (fun p => ((normalize_category lower (fst p),
                  normalize_category lower (snd p)), p)) pairs.

(** A template around a list of rule lines. *)
Definition template_lines (pre : list str) (header : str) (rules : list str)
    (marker : str) (post : list str) : list str :=
  pre ++ header :: rules ++ marker :: post.

Definition example_template : str :=
  Claude.join [NEWLINE]
    (template_lines [lit "You are a classifier."; []]
       (lit "  " ++ Claude.RULES_HEADER)
       (Claude.classification_rules
          [ (Some (lit " Robot "), Some (lit "Six Axis"));
            (Some (lit "Robot"), None);
            (Some (lit "PLC / IO"), Some (lit "Cabinet ")) ])
       (Claude.EXAMPLES_MARK ++ lit " ...") [lit "end"]).


(** What the loader of [code/claude] stores: one pair of trimmed, non-empty
    names under the key made of their normal forms. *)
Definition canonical_pairs (lower : str -> str) (m : Claude.mapping2) : Prop :=
  NoDup (dict_keys m) /\
  forall k a b, In (k, (a, b)) m ->
    k = (normalize_category lower a, normalize_category lower b) /\
    a <> [] /\ b <> [] /\ strip a = a /\ strip b = b.

(** The result dictionary with exactly the two category fields. *)
Definition category_result (a b : str) : pydict :=
  [(k_main_category, PStr a); (k_sub_category, PStr b)].


(** A service that fails twice and then answers inside a code fence. *)
Definition fenced_remote (n : nat) : response :=
  if n <? 2 then Failure (lit "timeout")
  else Content (PStr (FENCE ++ lit "json" ++ [NEWLINE]
                      ++ flat_object (classification_body "X2" "Y2")
                      ++ [NEWLINE] ++ FENCE)).

(** A template with one rule, spelled otherwise than the service spells
    it. *)
Definition reply_template : str :=
  Claude.join [NEWLINE]
    [Claude.RULES_HEADER; Claude.rule_line (lit "x2") (lit " Y 2");
     Claude.EXAMPLES_MARK].


(** ** The prompt of [material_classifier_web] *)

Definition KEYWORDS_TAG : str :=                       (* ，关键词： *)
  [65292; 20851; 38190; 35789; 65306]%N.
Definition EXPLANATION_TAG : str :=                    (* ，释义： *)
  [65292; 37322; 20041; 65306]%N.
Definition BRANDS_TAG : str :=                         (* ，常用品牌： *)
  [65292; 24120; 29992; 21697; 29260; 65306]%N.

(** [(orig_sub, keywords, explanation, common_brands)] *)
Definition sub_entry := (str * str * str * str)%type.

(** The body of the first loop of [build_comprehensive_prompt]. *)
Definition group_entry (categories : dict str (list sub_entry)) (e : entry)
  : dict str (list sub_entry) :=
  let categories :=
    if negb (dict_mem str_eq_dec categories (original_main e))
    then dict_set str_eq_dec categories (original_main e) []
    else categories in
  match dict_get str_eq_dec categories (original_main e) with
  | Some subs =>
      dict_set str_eq_dec categories (original_main e)
        (subs ++ [(original_sub e, keywords e, explanation e,
                   common_brands e)])
  | None => categories
  end.

(** The line of one sub-category, without its line break. *)
Definition category_line (main_cat : str) (s : sub_entry) : str :=
  let '(sub_cat, keywords, explanation, common_brands) := s in
  Claude.RULE_PREFIX ++ main_cat ++ Claude.SUB_SEPARATOR ++ sub_cat
  ++ (if nonempty keywords then KEYWORDS_TAG ++ keywords else [])
  ++ (if nonempty explanation then EXPLANATION_TAG ++ explanation else [])
  ++ (if nonempty common_brands then BRANDS_TAG ++ common_brands else []).

(** The lines the second loop adds, in order. *)
Definition category_lines (categories : dict str (list sub_entry))
  : list str :=
  flat_map (fun c => map (category_line (fst c)) (snd c)) categories.

Section Prompt.
(** [Config.BASE_PROMPT_TEMPLATE] and [Config.PROMPT_EXAMPLES] *)
Variables BASE_PROMPT_TEMPLATE PROMPT_EXAMPLES : str.

(** [MaterialClassifier.build_comprehensive_prompt] *)
Definition build_comprehensive_prompt (m : mapping) : str :=
  let categories := fold_left group_entry (map snd m) [] in
  fold_left (fun base_prompt line => base_prompt ++ line ++ [NEWLINE])
    (category_lines categories) BASE_PROMPT_TEMPLATE
  ++ PROMPT_EXAMPLES.
End Prompt.

(** The line an entry of the mapping is written as. *)
Definition entry_line (e : entry) : str :=
  category_line (original_main e)
    (original_sub e, keywords e, explanation e, common_brands e).

(** * Properties *)

(** ** Text lemmas *)

Lemma lstrip_fixed s : clean_head s = true -> lstrip s = s.
Proof.
  destruct s as [|c s]; simpl; [reflexivity|].
  destruct (isspace c); [discriminate | reflexivity].
Qed.

Lemma clean_head_lstrip s : clean_head (lstrip s) = true.
Proof.
  induction s as [|c s IH]; simpl; [reflexivity|].
  destruct (isspace c) eqn:E; [exact IH | simpl; now rewrite E].
Qed.

Lemma lstrip_snoc l c :
  lstrip (l ++ [c]) =
  match lstrip l with
  | [] => if isspace c then [] else [c]
  | r => r ++ [c]
  end.
Proof.
  induction l as [|a l IH]; simpl; [reflexivity|].
  destruct (isspace a); [exact IH | reflexivity].
Qed.

Lemma rstrip_cons c t :
  rstrip (c :: t) =
  match rstrip t with
  | [] => if isspace c then [] else [c]
  | r => c :: r
  end.
Proof.
  unfold rstrip; simpl. rewrite lstrip_snoc.
  destruct (lstrip (rev t)) as [|a r] eqn:E; simpl.
  - destruct (isspace c); reflexivity.
  - rewrite rev_app_distr. simpl.
    destruct (rev r ++ [a]) eqn:E'; [destruct (rev r); discriminate|].
    reflexivity.
Qed.

Lemma clean_head_rstrip t : clean_head t = true -> clean_head (rstrip t) = true.
Proof.
  destruct t as [|c t]; [reflexivity|].
  simpl. intros H. rewrite rstrip_cons.
  destruct (rstrip t); [|exact H].
  destruct (isspace c) eqn:E; [discriminate | simpl; now rewrite E].
Qed.

Lemma rev_rstrip t : rev (rstrip t) = lstrip (rev t).
Proof. unfold rstrip. apply rev_involutive. Qed.

Lemma clean_head_strip s : clean_head (strip s) = true.
Proof. apply clean_head_rstrip, clean_head_lstrip. Qed.

Lemma clean_last_strip s : clean_head (rev (strip s)) = true.
Proof. unfold strip. rewrite rev_rstrip. apply clean_head_lstrip. Qed.

Lemma strip_fixed s :
  clean_head s = true -> clean_head (rev s) = true -> strip s = s.
Proof.
  intros H1 H2. unfold strip. rewrite (lstrip_fixed _ H1).
  unfold rstrip. rewrite (lstrip_fixed _ H2). apply rev_involutive.
Qed.

Lemma filter_fixed (A : Type) (p : A -> bool) l :
  (forall x, In x l -> p x = true) -> filter p l = l.
Proof.
  induction l as [|a l IH]; simpl; intros H; [reflexivity|].
  rewrite (H a (or_introl eq_refl)). f_equal. apply IH. auto.
Qed.

Lemma clean_head_filter (p : char -> bool) s :
  (forall c, p c = false -> isspace c = true) ->
  clean_head s = true -> clean_head (filter p s) = true.
Proof.
  intros Hp. destruct s as [|c s]; simpl; [reflexivity|].
  intros Hc. destruct (p c) eqn:E; simpl; [exact Hc|].
  rewrite (Hp c E) in Hc. discriminate.
Qed.

Lemma filter_rev_comm (A : Type) (p : A -> bool) l :
  rev (filter p l) = filter p (rev l).
Proof.
  induction l as [|a l IH]; simpl; [reflexivity|].
  rewrite filter_app. simpl. destruct (p a); simpl; rewrite <- IH.
  - reflexivity.
  - now rewrite app_nil_r.
Qed.

Lemma remove_char_space c :
  isspace c = true -> forall x, negb (x =? c)%N = false -> isspace x = true.
Proof.
  intros Hc x Hx. apply negb_false_iff, N.eqb_eq in Hx. now subst.
Qed.

Lemma clean_ends_remove_char c s :
  isspace c = true ->
  clean_head s = true /\ clean_head (rev s) = true ->
  clean_head (remove_char c s) = true /\
  clean_head (rev (remove_char c s)) = true.
Proof.
  intros Hc [H1 H2]. unfold remove_char. split.
  - apply clean_head_filter; [apply remove_char_space, Hc | exact H1].
  - rewrite filter_rev_comm.
    apply clean_head_filter; [apply remove_char_space, Hc | exact H2].
Qed.

Lemma In_remove_char c s x : In x (remove_char c s) -> In x s /\ x <> c.
Proof.
  unfold remove_char. intros H. apply filter_In in H. destruct H as [H1 H2].
  split; [exact H1|]. apply negb_true_iff, N.eqb_neq in H2. exact H2.
Qed.

Lemma remove_char_fixed c s : ~ In c s -> remove_char c s = s.
Proof.
  intros H. apply filter_fixed. intros x Hx.
  apply negb_true_iff, N.eqb_neq. intros ->. contradiction.
Qed.

Lemma In_lstrip s x : In x (lstrip s) -> In x s.
Proof.
  induction s as [|c s IH]; simpl; [tauto|].
  destruct (isspace c); simpl; auto.
Qed.

Lemma In_strip s x : In x (strip s) -> In x s.
Proof.
  unfold strip, rstrip. intros H. apply in_rev in H.
  apply In_lstrip in H. apply in_rev in H. apply In_lstrip in H. exact H.
Qed.

(** ** Normalization is idempotent *)

Section LowerFacts.
Variable lower : str -> str.
(** The three facts about [str.lower] the argument rests on: it commutes
    with [strip], every character it produces is itself lower-case, and a
    text of lower-case characters is left as it is. *)
Hypothesis lower_strip : forall s, lower (strip s) = strip (lower s).
Hypothesis lower_out : forall s c, In c (lower s) -> lower [c] = [c].
Hypothesis lower_stable :
  forall u, (forall c, In c u -> lower [c] = [c]) -> lower u = u.

Lemma normalize_category_fixed x :
  let r := remove_char TAB (remove_char SPACE (strip (lower x))) in
  normalize_category lower r = r.
Proof.
  intros r. unfold normalize_category.
  assert (Hends : clean_head r = true /\ clean_head (rev r) = true).
  { subst r. apply clean_ends_remove_char; [reflexivity|].
    apply clean_ends_remove_char; [reflexivity|].
    split; [apply clean_head_strip | apply clean_last_strip]. }
  destruct Hends as [Hh Hl]. rewrite (strip_fixed _ Hh Hl).
  assert (Hlow : lower r = r).
  { apply lower_stable. intros c Hc. subst r.
    apply In_remove_char in Hc. destruct Hc as [Hc _].
    apply In_remove_char in Hc. destruct Hc as [Hc _].
    apply In_strip in Hc. exact (lower_out _ _ Hc). }
  rewrite Hlow.
  assert (Hsp : ~ In SPACE r).
  { subst r. intros Hc. apply In_remove_char in Hc. destruct Hc as [Hc _].
    apply In_remove_char in Hc. destruct Hc as [_ Hc]. congruence. }
  rewrite (remove_char_fixed _ _ Hsp).
  apply remove_char_fixed. subst r. intros Hc.
  apply In_remove_char in Hc. destruct Hc as [_ Hc]. congruence.
Qed.

Lemma _normalize_text_fixed x :
  let r := remove_char NEWLINE
             (remove_char TAB (remove_char SPACE (strip (lower x)))) in
  _normalize_text lower (PStr r) = r.
Proof.
  intros r. unfold _normalize_text. simpl truthy. rewrite negb_involutive.
  unfold str_eqb. destruct (str_eq_dec r []) as [E|E]; [now rewrite E|].
  simpl py_str.
  assert (Hlow : lower r = r).
  { apply lower_stable. intros c Hc. subst r.
    apply In_remove_char in Hc. destruct Hc as [Hc _].
    apply In_remove_char in Hc. destruct Hc as [Hc _].
    apply In_remove_char in Hc. destruct Hc as [Hc _].
    apply In_strip in Hc. exact (lower_out _ _ Hc). }
  rewrite Hlow.
  assert (Hends : clean_head r = true /\ clean_head (rev r) = true).
  { subst r. apply clean_ends_remove_char; [reflexivity|].
    apply clean_ends_remove_char; [reflexivity|].
    apply clean_ends_remove_char; [reflexivity|].
    split; [apply clean_head_strip | apply clean_last_strip]. }
  destruct Hends as [Hh Hl]. rewrite (strip_fixed _ Hh Hl).
  assert (Hsp : ~ In SPACE r).
  { subst r. intros Hc. apply In_remove_char in Hc. destruct Hc as [Hc _].
    apply In_remove_char in Hc. destruct Hc as [Hc _].
    apply In_remove_char in Hc. destruct Hc as [_ Hc]. congruence. }
  rewrite (remove_char_fixed _ _ Hsp).
  assert (Htab : ~ In TAB r).
  { subst r. intros Hc. apply In_remove_char in Hc. destruct Hc as [Hc _].
    apply In_remove_char in Hc. destruct Hc as [_ Hc]. congruence. }
  rewrite (remove_char_fixed _ _ Htab).
  apply remove_char_fixed. subst r. intros Hc.
  apply In_remove_char in Hc. destruct Hc as [_ Hc]. congruence.
Qed.
End LowerFacts.

(** C9.  Normalization is idempotent in both variants: the expression of the
    loader and validator ([strip], [lower], remove space and tab) and the
    matcher's [_normalize_text] (which also removes newlines and maps a falsy
    value to the empty text) give the same text when applied to their own
    output.  [str.lower] enters through three of its properties. *)
Theorem normalization_idempotent (lower : str -> str)
  (lower_strip : forall s, lower (strip s) = strip (lower s))
  (lower_out : forall s c, In c (lower s) -> lower [c] = [c])
  (lower_stable :
     forall u, (forall c, In c u -> lower [c] = [c]) -> lower u = u) :
  (forall s : str,
      normalize_category lower (normalize_category lower s)
      = normalize_category lower s)
  /\ (forall text : pyval,
         _normalize_text lower (PStr (_normalize_text lower text))
         = _normalize_text lower text).
Proof.
  split.
  - intros s. unfold normalize_category at 2 3. rewrite lower_strip.
    apply (@normalize_category_fixed lower lower_out lower_stable).
  - intros text. unfold _normalize_text at 2 3.
    destruct (negb (truthy text)); [reflexivity|].
    apply (@_normalize_text_fixed lower lower_out lower_stable).
Qed.

(** *** ASCII lower-casing has the three properties *)

Lemma isspace_lower_ascii_char c : isspace (lower_ascii_char c) = isspace c.
Proof.
  unfold lower_ascii_char.
  destruct (N.leb_spec 0x41 c) as [H1|H1]; simpl; [|reflexivity].
  destruct (N.leb_spec c 0x5A) as [H2|H2]; simpl; [|reflexivity].
  assert (F : forall x, (0x41 <= x <= 0x7A)%N -> isspace x = false).
  { intros x Hx. unfold isspace.
    repeat match goal with
    | |- context [(x =? ?b)%N] =>
        replace (x =? b)%N with false by (symmetry; apply N.eqb_neq; lia)
    | |- context [(x <=? ?b)%N] =>
        replace (x <=? b)%N with false by (symmetry; apply N.leb_gt; lia)
    | |- context [(?b <=? x)%N] =>
        replace (b <=? x)%N with false by (symmetry; apply N.leb_gt; lia)
    end.
    repeat rewrite andb_false_r. reflexivity. }
  rewrite !F by lia. reflexivity.
Qed.

Lemma lstrip_lower_ascii s : lower_ascii (lstrip s) = lstrip (lower_ascii s).
Proof.
  induction s as [|c s IH]; simpl; [reflexivity|].
  rewrite isspace_lower_ascii_char. destruct (isspace c); [exact IH | reflexivity].
Qed.

Lemma lower_ascii_strip s : lower_ascii (strip s) = strip (lower_ascii s).
Proof.
  unfold strip, rstrip, lower_ascii.
  rewrite map_rev. fold (lower_ascii (lstrip (rev (lstrip s)))).
  rewrite lstrip_lower_ascii. unfold lower_ascii at 1. rewrite map_rev.
  fold (lower_ascii (lstrip s)). now rewrite lstrip_lower_ascii.
Qed.

Lemma lower_ascii_char_idem c :
  lower_ascii_char (lower_ascii_char c) = lower_ascii_char c.
Proof.
  unfold lower_ascii_char.
  destruct (N.leb_spec 0x41 c) as [H1|H1]; simpl;
    [destruct (N.leb_spec c 0x5A) as [H2|H2]; simpl|].
  - destruct (N.leb_spec 0x41 (c + 32)); simpl; [|reflexivity].
    destruct (N.leb_spec (c + 32) 0x5A); simpl; [lia | reflexivity].
  - destruct (N.leb_spec 0x41 c); simpl; [|reflexivity].
    destruct (N.leb_spec c 0x5A); simpl; [lia | reflexivity].
  - destruct (N.leb_spec 0x41 c); simpl; [lia | reflexivity].
Qed.

Lemma lower_ascii_out s c : In c (lower_ascii s) -> lower_ascii [c] = [c].
Proof.
  unfold lower_ascii. intros H. apply in_map_iff in H.
  destruct H as [x [<- _]]. simpl. now rewrite lower_ascii_char_idem.
Qed.

Lemma lower_ascii_stable u :
  (forall c, In c u -> lower_ascii [c] = [c]) -> lower_ascii u = u.
Proof.
  induction u as [|a u IH]; simpl; intros H; [reflexivity|].
  f_equal.
  - specialize (H a (or_introl eq_refl)). simpl in H. congruence.
  - apply IH. intros c Hc. apply H. now right.
Qed.

Lemma normalization_idempotent_witness :
  (forall s, lower_ascii (strip s) = strip (lower_ascii s))
  /\ (forall s c, In c (lower_ascii s) -> lower_ascii [c] = [c])
  /\ (forall u, (forall c, In c u -> lower_ascii [c] = [c]) -> lower_ascii u = u)
  /\ normalize_category lower_ascii
       (normalize_category lower_ascii (lit " PLC / IO "))
     = normalize_category lower_ascii (lit " PLC / IO ")
  /\ _normalize_text lower_ascii
       (PStr (_normalize_text lower_ascii (PStr (lit " PLC / IO "))))
     = _normalize_text lower_ascii (PStr (lit " PLC / IO ")).
Proof.
  split; [exact lower_ascii_strip|].
  split; [exact lower_ascii_out|].
  split; [exact lower_ascii_stable|].
  split.
  - apply (proj1 (normalization_idempotent lower_ascii lower_ascii_strip lower_ascii_out
                    lower_ascii_stable)).
  - apply (proj2 (normalization_idempotent lower_ascii lower_ascii_strip lower_ascii_out
                    lower_ascii_stable)).
Defined.

(** ** Dictionaries *)

Section DictFacts.
Variables K V : Type.
Variable K_eq_dec : forall a b : K, {a = b} + {a <> b}.

Lemma dict_get_set_same (d : dict K V) k v :
  dict_get K_eq_dec (dict_set K_eq_dec d k v) k = Some v.
Proof.
  induction d as [|[k' v'] d IH]; simpl.
  - destruct (K_eq_dec k k); [reflexivity | congruence].
  - destruct (K_eq_dec k k') as [E|E]; simpl.
    + destruct (K_eq_dec k k'); [reflexivity | congruence].
    + destruct (K_eq_dec k k'); [congruence | exact IH].
Qed.

Lemma dict_get_set_other (d : dict K V) k v k0 :
  k0 <> k ->
  dict_get K_eq_dec (dict_set K_eq_dec d k v) k0 = dict_get K_eq_dec d k0.
Proof.
  intros Hne. induction d as [|[k' v'] d IH]; simpl.
  - destruct (K_eq_dec k0 k); [congruence | reflexivity].
  - destruct (K_eq_dec k k') as [E|E]; simpl.
    + subst k'. destruct (K_eq_dec k0 k); [congruence | reflexivity].
    + destruct (K_eq_dec k0 k'); [reflexivity | exact IH].
Qed.

Lemma dict_set_nonempty (d : dict K V) k v :
  dict_set K_eq_dec d k v <> [].
Proof.
  destruct d as [|[k' v'] d]; simpl; [discriminate|].
  destruct (K_eq_dec k k'); discriminate.
Qed.

Lemma dict_get_In (d : dict K V) k v :
  dict_get K_eq_dec d k = Some v -> In (k, v) d.
Proof.
  induction d as [|[k' v'] d IH]; simpl; [discriminate|].
  destruct (K_eq_dec k k') as [E|E].
  - intros H. injection H as ->. subst. now left.
  - intros H. right. now apply IH.
Qed.

Lemma In_dict_set (d : dict K V) k v k0 v0 :
  In (k0, v0) (dict_set K_eq_dec d k v) ->
  (k0 = k /\ v0 = v) \/ In (k0, v0) d.
Proof.
  induction d as [|[k' v'] d IH]; simpl.
  - intros [H|[]]. left. now inversion H.
  - destruct (K_eq_dec k k') as [E|E]; simpl.
    + intros [H|H]; [left; inversion H; subst; auto | right; now right].
    + intros [H|H]; [right; now left|].
      destruct (IH H) as [H'|H']; [now left | right; now right].
Qed.
End DictFacts.

Lemma get_set_same (d : pydict) k v : get (dict_set str_eq_dec d k v) k = v.
Proof. unfold get, get_default. now rewrite dict_get_set_same. Qed.

Lemma get_set_other (d : pydict) k v k0 :
  k0 <> k -> get (dict_set str_eq_dec d k v) k0 = get d k0.
Proof.
  intros H. unfold get, get_default. now rewrite dict_get_set_other.
Qed.

(** ** The validator rewrites to the stored spelling *)

Lemma validate_with_canonical (lower : str -> str) (V : Type)
    (originals : V -> str * str) (m : dict key V) (res : pydict) (v : V) :
  truthy (get res k_main_category) = true ->
  truthy (get res k_sub_category) = true ->
  dict_get key_eq_dec m
    (normalize_category lower (py_str (get res k_main_category)),
     normalize_category lower (py_str (get res k_sub_category))) = Some v ->
  exists res',
    validate_with lower originals m res = Ok res'
    /\ get res' k_main_category = PStr (fst (originals v))
    /\ get res' k_sub_category = PStr (snd (originals v))
    /\ (forall k, k <> k_main_category -> k <> k_sub_category ->
                  dict_get str_eq_dec res' k = dict_get str_eq_dec res k).
Proof.
  intros Hm Hs Hk. unfold validate_with. rewrite Hm, Hs. simpl. rewrite Hk.
  destruct (originals v) as [om os]. eexists. split; [reflexivity|].
  split; [|split].
  - rewrite get_set_other by (vm_compute; discriminate).
    apply get_set_same.
  - apply get_set_same.
  - intros k H1 H2. rewrite dict_get_set_other by exact H2.
    now rewrite dict_get_set_other by exact H1.
Qed.

(** C1.  A candidate whose two category fields are truthy and whose
    normalized pair is a key of the mapping passes validation, and the
    result carries the original-cased strings stored under that key in both
    fields, every other field being left as it was; this holds for the
    5-tuple mapping of the web variant and the pair mapping of [code/claude]
    alike.  The stored strings depend on the key only, so the spelling of
    the candidate does not show in the result. *)
Theorem validate_rewrites_to_canonical (lower : str -> str) :
  (forall (m : mapping) (res : pydict) (e : entry),
      truthy (get res k_main_category) = true ->
      truthy (get res k_sub_category) = true ->
      dict_get key_eq_dec m
        (normalize_category lower (py_str (get res k_main_category)),
         normalize_category lower (py_str (get res k_sub_category))) = Some e ->
      exists res',
        validate_classification_result lower m res = Ok res'
        /\ get res' k_main_category = PStr (original_main e)
        /\ get res' k_sub_category = PStr (original_sub e)
        /\ (forall k, k <> k_main_category -> k <> k_sub_category ->
                      dict_get str_eq_dec res' k = dict_get str_eq_dec res k))
  /\ (forall (m : dict key (str * str)) (res : pydict) (p : str * str),
         truthy (get res k_main_category) = true ->
         truthy (get res k_sub_category) = true ->
         dict_get key_eq_dec m
           (normalize_category lower (py_str (get res k_main_category)),
            normalize_category lower (py_str (get res k_sub_category)))
         = Some p ->
         exists res',
           validate_classification_result_claude lower m res = Ok res'
           /\ get res' k_main_category = PStr (fst p)
           /\ get res' k_sub_category = PStr (snd p)
           /\ (forall k, k <> k_main_category -> k <> k_sub_category ->
                         dict_get str_eq_dec res' k = dict_get str_eq_dec res k)).
Proof.
  split.
  - intros m res e Hm Hs Hk.
    exact (validate_with_canonical lower
             (fun e => (original_main e, original_sub e)) m res Hm Hs Hk).
  - intros m res p Hm Hs Hk.
    exact (validate_with_canonical lower (fun p => p) m res Hm Hs Hk).
Qed.

Lemma example_rows_load :
  load_classification_standards lower_ascii (Ok example_rows)
  = Ok example_mapping.
Proof. vm_compute. reflexivity. Qed.

Lemma validate_rewrites_to_canonical_witness :
  truthy (get example_candidate k_main_category) = true
  /\ truthy (get example_candidate k_sub_category) = true
  /\ dict_get key_eq_dec example_mapping
       (normalize_category lower_ascii
          (py_str (get example_candidate k_main_category)),
        normalize_category lower_ascii
          (py_str (get example_candidate k_sub_category)))
     = Some (example_entry "PLC / IO Module" "Cabinet" "plc, cabinet"
               (lit "control") (lit "Siemens, Omron"))
  /\ exists res',
       validate_classification_result lower_ascii example_mapping
         example_candidate = Ok res'
       /\ get res' k_main_category = PStr (lit "PLC / IO Module")
       /\ get res' k_sub_category = PStr (lit "Cabinet")
       /\ (forall k, k <> k_main_category -> k <> k_sub_category ->
             dict_get str_eq_dec res' k
             = dict_get str_eq_dec example_candidate k).
Proof.
  split; [reflexivity|]. split; [reflexivity|]. split; [reflexivity|].
  apply (proj1 (validate_rewrites_to_canonical lower_ascii) example_mapping
           example_candidate
           (example_entry "PLC / IO Module" "Cabinet" "plc, cabinet"
              (lit "control") (lit "Siemens, Omron")));
    reflexivity.
Defined.

(** ** The taxonomy loader *)

Lemma cell_wide (r : row) i : i < List.length r -> cell r i = Ok (nth i r PNone).
Proof.
  intros H. unfold cell.
  destruct (nth_error r i) eqn:E.
  - now rewrite (nth_error_nth _ _ PNone E).
  - apply nth_error_None in E. lia.
Qed.

Lemma load_row_wide lower st (r : row) :
  6 <= List.length r ->
  (forall cm, fst st = Some cm -> nonempty cm = true) ->
  load_row lower st r =
  Ok (if nonempty (main_cell r) then Some (main_cell r) else fst st,
      match (if nonempty (main_cell r) then Some (main_cell r) else fst st) with
      | Some cm =>
          if nonempty (sub_cell r)
          then dict_set key_eq_dec (snd st)
                 (normalize_category lower cm,
                  normalize_category lower (sub_cell r))
                 (entry_of_row cm r)
          else snd st
      | None => snd st
      end).
Proof.
  intros Hw Hst. unfold load_row.
  rewrite !cell_wide by lia. fold (main_cell r). fold (sub_cell r).
  destruct (nonempty (main_cell r)) eqn:Em.
  - rewrite Em. simpl. destruct (nonempty (sub_cell r)); reflexivity.
  - destruct (fst st) as [cm|] eqn:Ec; [|reflexivity].
    rewrite (Hst cm eq_refl). simpl.
    destruct (nonempty (sub_cell r)); reflexivity.
Qed.

Lemma langchain_load_row_wide lower st (r : row) :
  5 <= List.length r ->
  (forall cm, fst st = Some cm -> nonempty cm = true) ->
  Langchain.load_row lower st r =
  Ok (if nonempty (main_cell r) then Some (main_cell r) else fst st,
      match (if nonempty (main_cell r) then Some (main_cell r) else fst st) with
      | Some cm =>
          if nonempty (sub_cell r)
          then dict_set key_eq_dec (snd st)
                 (normalize_category lower cm,
                  normalize_category lower (sub_cell r))
                 (entry4_of_row cm r)
          else snd st
      | None => snd st
      end).
Proof.
  intros Hw Hst. unfold Langchain.load_row.
  rewrite !cell_wide by lia. fold (main_cell r). fold (sub_cell r).
  destruct (nonempty (main_cell r)) eqn:Em.
  - rewrite Em. simpl. destruct (nonempty (sub_cell r)); reflexivity.
  - destruct (fst st) as [cm|] eqn:Ec; [|reflexivity].
    rewrite (Hst cm eq_refl). simpl.
    destruct (nonempty (sub_cell r)); reflexivity.
Qed.

Lemma last_main_snoc pre r :
  last_main (pre ++ [r]) =
  if nonempty (main_cell r) then Some (main_cell r) else last_main pre.
Proof.
  unfold last_main. rewrite map_app, rev_app_distr. reflexivity.
Qed.

Lemma last_main_nonempty rows cm : last_main rows = Some cm -> nonempty cm = true.
Proof. unfold last_main. intros H. now apply find_some in H. Qed.

Lemma flat_map_ext_in (A B : Type) (f g : A -> list B) l :
  (forall a, In a l -> f a = g a) -> flat_map f l = flat_map g l.
Proof.
  induction l as [|a l IH]; simpl; intros H; [reflexivity|].
  rewrite (H a (or_introl eq_refl)). f_equal. apply IH.
  intros b Hb. apply H. now right.
Qed.

(** The loop over the rows, for any row step that follows the rule on rows
    of sufficient width. *)
Section RowLoop.
Variable E : Type.
Variable value_of_row : str -> row -> E.
Variable lower : str -> str.
Variable width : nat.
Variable step :
  option str * dict key E -> row -> result (option str * dict key E).
Variable loop :
  option str * dict key E -> list row -> result (option str * dict key E).

Hypothesis loop_nil : forall st, loop st [] = Ok st.
Hypothesis loop_cons : forall st r rest,
  loop st (r :: rest) =
  match step st r with
  | Ok st' => loop st' rest
  | Raise e => Raise e
  end.
Hypothesis step_wide : forall st r,
  width <= List.length r ->
  (forall cm, fst st = Some cm -> nonempty cm = true) ->
  step st r =
  Ok (if nonempty (main_cell r) then Some (main_cell r) else fst st,
      match (if nonempty (main_cell r) then Some (main_cell r) else fst st) with
      | Some cm =>
          if nonempty (sub_cell r)
          then dict_set key_eq_dec (snd st)
                 (normalize_category lower cm,
                  normalize_category lower (sub_cell r))
                 (value_of_row cm r)
          else snd st
      | None => snd st
      end).

Lemma loop_app a : forall st b,
  loop st (a ++ b) =
  match loop st a with
  | Ok st' => loop st' b
  | Raise e => Raise e
  end.
Proof.
  induction a as [|r a IH]; intros st b; simpl.
  - now rewrite loop_nil.
  - rewrite !loop_cons. destruct (step st r); [apply IH | reflexivity].
Qed.

Lemma contribution_prefix pre (r : row) i :
  i < List.length pre ->
  contribution value_of_row lower (pre ++ [r]) i
  = contribution value_of_row lower pre i.
Proof.
  intros H. unfold contribution.
  rewrite nth_error_app1 by exact H.
  rewrite firstn_app. replace (S i - List.length pre) with 0 by lia.
  simpl. now rewrite app_nil_r.
Qed.

Lemma contribution_last pre (r : row) :
  contribution value_of_row lower (pre ++ [r]) (List.length pre) =
  match last_main (pre ++ [r]) with
  | Some cm =>
      if nonempty (sub_cell r)
      then Some ((normalize_category lower cm,
                  normalize_category lower (sub_cell r)),
                 value_of_row cm r)
      else None
  | None => None
  end.
Proof.
  unfold contribution.
  rewrite nth_error_app2 by lia. rewrite Nat.sub_diag. simpl nth_error.
  rewrite firstn_all2; [reflexivity|]. rewrite length_app. simpl. lia.
Qed.

Lemma contributions_snoc pre (r : row) :
  contributions value_of_row lower (pre ++ [r]) =
  contributions value_of_row lower pre
  ++ option_list
       (contribution value_of_row lower (pre ++ [r]) (List.length pre)).
Proof.
  unfold contributions. rewrite length_app. simpl List.length.
  rewrite Nat.add_1_r, seq_S, flat_map_app. simpl. rewrite app_nil_r.
  f_equal. apply flat_map_ext_in. intros i Hi. apply in_seq in Hi.
  rewrite contribution_prefix by lia. reflexivity.
Qed.

Lemma loop_spec rows :
  columns width rows ->
  loop (None, []) rows =
  Ok (last_main rows, assign_all (contributions value_of_row lower rows) []).
Proof.
  induction rows as [|r pre IH] using rev_ind; intros Hw;
    [now rewrite loop_nil|].
  apply Forall_app in Hw. destruct Hw as [Hpre Hr].
  apply Forall_inv in Hr.
  rewrite loop_app, (IH Hpre), loop_cons.
  rewrite step_wide; [|exact Hr|simpl; apply last_main_nonempty].
  rewrite loop_nil.
  simpl fst. simpl snd. rewrite <- last_main_snoc.
  rewrite contributions_snoc, contribution_last.
  unfold assign_all. rewrite fold_left_app.
  destruct (last_main (pre ++ [r])) as [cm|]; [|reflexivity].
  destruct (nonempty (sub_cell r)); reflexivity.
Qed.

Lemma contribution_iff rows i r :
  nth_error rows i = Some r ->
  (contribution value_of_row lower rows i <> None
   <-> last_main (firstn (S i) rows) <> None /\ nonempty (sub_cell r) = true).
Proof.
  intros Hr. unfold contribution. rewrite Hr.
  destruct (last_main (firstn (S i) rows)) as [cm|].
  - destruct (nonempty (sub_cell r)); split.
    + intros _. split; [discriminate | reflexivity].
    + intros _. discriminate.
    + intros H. now elim H.
    + intros [_ H]. discriminate.
  - split; [intros H; now elim H | intros [H _]; now elim H].
Qed.
End RowLoop.

Lemma load_rows_spec lower rows :
  six_columns rows ->
  load_rows lower (None, []) rows =
  Ok (last_main rows, assign_all (contributions entry_of_row lower rows) []).
Proof.
  apply loop_spec with (step := load_row lower).
  - reflexivity.
  - reflexivity.
  - intros st r. apply load_row_wide.
Qed.

Lemma langchain_load_rows_spec lower rows :
  columns 5 rows ->
  Langchain.load_rows lower (None, []) rows =
  Ok (last_main rows, assign_all (contributions entry4_of_row lower rows) []).
Proof.
  apply loop_spec with (step := Langchain.load_row lower).
  - reflexivity.
  - reflexivity.
  - intros st r. apply langchain_load_row_wide.
Qed.

(** C6.  On a table with the columns the loader addresses (six in the web
    variant, five in [material_classifier_langchain]), loading ends with the
    most recent non-empty main-category cell as the current main category
    and with exactly the contributions of the rows assigned in row order,
    where: a non-empty main cell becomes the current main category and an
    empty one leaves it as it was; row [i] contributes an entry if and only
    if a main category is current at that row and the row's own sub-category
    cell is not empty; and a cell whose text is [nan] is read as empty. *)
Theorem load_follows_row_rule (lower : str -> str) (rows : list row) :
  (six_columns rows ->
   load_rows lower (None, []) rows
   = Ok (last_main rows,
         assign_all (contributions entry_of_row lower rows) []))
  /\ (columns 5 rows ->
      Langchain.load_rows lower (None, []) rows
      = Ok (last_main rows,
            assign_all (contributions entry4_of_row lower rows) []))
  /\ (forall pre r,
         last_main (pre ++ [r])
         = if nonempty (main_cell r) then Some (main_cell r) else last_main pre)
  /\ (forall i r,
         nth_error rows i = Some r ->
         (contribution entry_of_row lower rows i <> None
          <-> last_main (firstn (S i) rows) <> None
              /\ nonempty (sub_cell r) = true)
         /\ (contribution entry4_of_row lower rows i <> None
             <-> last_main (firstn (S i) rows) <> None
                 /\ nonempty (sub_cell r) = true))
  /\ (forall v, strip (py_str v) = lit "nan" -> clean_cell v = []).
Proof.
  split; [exact (@load_rows_spec lower rows)|].
  split; [exact (@langchain_load_rows_spec lower rows)|].
  split; [exact last_main_snoc|]. split.
  - intros i r Hr. split; now apply contribution_iff.
  - intros v Hv. unfold clean_cell. rewrite Hv. reflexivity.
Qed.

Lemma load_follows_row_rule_witness :
  six_columns example_rows
  /\ load_rows lower_ascii (None, []) example_rows
     = Ok (Some (lit "Robot"), example_mapping)
  /\ contribution entry_of_row lower_ascii example_rows 1
     = Some ((lit "plc/iomodule", lit "servodrive"),
             example_entry "PLC / IO Module" "Servo Drive" "servo" []
               (lit "Omron"))
  /\ contribution entry_of_row lower_ascii example_rows 2 = None.
Proof.
  assert (Hw : six_columns example_rows).
  { repeat constructor. }
  split; [exact Hw|].
  split; [|split; reflexivity].
  rewrite (proj1 (load_follows_row_rule lower_ascii example_rows) Hw).
  reflexivity.
Defined.

(** ** An empty taxonomy is fatal *)

Lemma load_nonempty lower src m :
  load_classification_standards lower src = Ok m -> m <> [].
Proof.
  unfold load_classification_standards.
  destruct src as [rows|e]; [|discriminate].
  destruct (load_rows lower (None, []) rows) as [[cur m']|e]; [|discriminate].
  destruct m'; simpl; [discriminate|]. intros H E. subst m. discriminate H.
Qed.

Lemma langchain_load_nonempty lower src m :
  Langchain.load_classification_standards lower src = Ok m -> m <> [].
Proof.
  unfold Langchain.load_classification_standards.
  destruct src as [rows|e]; [|discriminate].
  destruct (Langchain.load_rows lower (None, []) rows) as [[cur m']|e];
    [|discriminate].
  destruct m'; simpl; [discriminate|]. intros H E. subst m. discriminate H.
Qed.

Lemma init_keeps_cache_nonempty lower cache src api_key r cache' :
  (forall m, cache = Some m -> m <> []) ->
  init lower cache src api_key = (r, cache') ->
  holds_an_entry r /\ (forall m, cache' = Some m -> m <> []).
Proof.
  intros Hc. unfold init. cbv zeta.
  destruct cache as [m0|].
  - specialize (Hc m0 eq_refl).
    destruct (negb (truthy api_key)); intros H; injection H as <- <-;
      (split; [simpl; auto | intros m H0; injection H0 as <-; exact Hc]).
  - destruct (load_classification_standards lower src) as [m|e] eqn:El.
    + apply load_nonempty in El.
      destruct (negb (truthy api_key)); intros H; injection H as <- <-;
        (split; [simpl; auto | intros m1 H0; injection H0 as <-; exact El]).
    + intros H. injection H as <- <-. split; [exact I | discriminate].
Qed.

Lemma constructions_hold_an_entry lower calls : forall cache,
  (forall m, cache = Some m -> m <> []) ->
  Forall holds_an_entry (constructions lower cache calls).
Proof.
  induction calls as [|[src api_key] rest IH]; intros cache Hc; simpl;
    [constructor|].
  destruct (init lower cache src api_key) as [r cache'] eqn:E.
  destruct (@init_keeps_cache_nonempty lower cache src api_key r cache' Hc E)
    as [Hr Hc'].
  constructor; [exact Hr | exact (IH cache' Hc')].
Qed.

(** C7.  Loading never yields an empty mapping: in the web variant and in
    [material_classifier_langchain] a source whose rows leave the mapping
    empty makes [load_classification_standards] raise and a mapping it
    returns has an entry; so has the mapping of every classifier constructed
    in a process that starts with the class-level cache unset. *)
Theorem empty_taxonomy_is_fatal (lower : str -> str) :
  (forall rows cur,
      load_rows lower (None, []) rows = Ok (cur, []) ->
      load_classification_standards lower (Ok rows) = Raise NoRulesLoaded)
  /\ (forall src m,
         load_classification_standards lower src = Ok m -> m <> [])
  /\ (forall rows cur,
         Langchain.load_rows lower (None, []) rows = Ok (cur, []) ->
         Langchain.load_classification_standards lower (Ok rows)
         = Raise NoRulesLoaded)
  /\ (forall src m,
         Langchain.load_classification_standards lower src = Ok m -> m <> [])
  /\ (forall calls,
         Forall holds_an_entry (constructions lower None calls)).
Proof.
  split; [|split; [|split; [|split]]].
  - intros rows cur H. unfold load_classification_standards. now rewrite H.
  - apply load_nonempty.
  - intros rows cur H. unfold Langchain.load_classification_standards.
    now rewrite H.
  - apply langchain_load_nonempty.
  - intros calls. apply constructions_hold_an_entry. discriminate.
Qed.

Lemma empty_taxonomy_is_fatal_witness :
  load_rows lower_ascii (None, [])
    [[POther true (lit "1"); NaN; PStr (lit "Cabinet"); NaN; NaN; NaN]]
  = Ok (None, [])
  /\ load_classification_standards lower_ascii
       (Ok [[POther true (lit "1"); NaN; PStr (lit "Cabinet"); NaN; NaN; NaN]])
     = Raise NoRulesLoaded
  /\ load_classification_standards lower_ascii (Ok example_rows)
     = Ok example_mapping
  /\ example_mapping <> [].
Proof.
  split; [reflexivity|].
  split.
  - apply (proj1 (empty_taxonomy_is_fatal lower_ascii)) with (cur := None).
    reflexivity.
  - split; [reflexivity|].
    apply (proj1 (proj2 (empty_taxonomy_is_fatal lower_ascii))
             (Ok example_rows) example_mapping).
    reflexivity.
Defined.

(** ** Field precedence of the keyword matcher *)

Lemma add_unseen_extends matches : forall acc,
  exists more, fst (add_unseen matches acc) = fst acc ++ more.
Proof.
  induction matches as [|mt rest IH]; intros acc; simpl.
  - exists []. now rewrite app_nil_r.
  - destruct (in_dec key_eq_dec (category_of mt) (snd acc)).
    + apply IH.
    + destruct (IH (fst acc ++ [mt], snd acc ++ [category_of mt])) as [more H].
      exists (mt :: more). rewrite H. simpl. now rewrite <- app_assoc.
Qed.

Lemma distinct_matches_nil matches :
  is_nil (distinct_matches matches) = is_nil matches.
Proof.
  unfold distinct_matches. destruct matches as [|mt rest]; [reflexivity|].
  simpl. destruct (add_unseen_extends rest ([mt], [category_of mt])) as [more H].
  rewrite H. reflexivity.
Qed.

Lemma is_nil_false (A : Type) (l : list A) : l <> [] -> is_nil l = false.
Proof. destruct l; [congruence | reflexivity]. Qed.

Lemma In_add_unseen matches : forall acc mt,
  In mt (fst (add_unseen matches acc)) -> In mt (fst acc) \/ In mt matches.
Proof.
  induction matches as [|x rest IH]; intros acc mt; simpl; [auto|].
  destruct (in_dec key_eq_dec (category_of x) (snd acc)); intros H.
  - destruct (IH _ _ H); auto.
  - destruct (IH _ _ H) as [H'|H']; [|auto].
    simpl in H'. apply in_app_or in H'. destruct H' as [H'|[H'|[]]]; auto.
Qed.

Lemma In_distinct_matches matches mt :
  In mt (distinct_matches matches) -> In mt matches.
Proof.
  unfold distinct_matches. intros H.
  destruct (In_add_unseen _ _ _ H) as [[]|H']. exact H'.
Qed.

Lemma match_by_multiple_fields_cases lower m material_data :
  let found f := match_keywords lower m (f material_data) in
  match_by_multiple_fields lower m material_data =
  if negb (is_nil (found field_material_name))
  then distinct_matches (found field_material_name)
  else if negb (is_nil (found field_model))
  then distinct_matches (found field_model)
  else if negb (is_nil (found field_brand))
  then distinct_matches (found field_brand)
  else distinct_matches (found field_material).
Proof.
  intros found. unfold match_by_multiple_fields.
  fold (found field_material_name). fold (found field_model).
  fold (found field_brand). fold (found field_material).
  fold (distinct_matches (found field_material_name)).
  pose proof (distinct_matches_nil (found field_material_name)) as H1.
  destruct (found field_material_name) as [|a l] eqn:E1.
  - simpl. fold (distinct_matches (found field_model)).
    pose proof (distinct_matches_nil (found field_model)) as H2.
    destruct (found field_model) as [|a2 l2] eqn:E2.
    + simpl. fold (distinct_matches (found field_brand)).
      pose proof (distinct_matches_nil (found field_brand)) as H3.
      destruct (found field_brand) as [|a3 l3] eqn:E3.
      * reflexivity.
      * simpl in H3. simpl negb. cbv iota.
        unfold distinct_matches in H3 |- *.
        destruct (add_unseen (a3 :: l3) ([], [])) as [al ch].
        simpl in H3 |- *. now rewrite H3.
    + simpl in H2. simpl negb. cbv iota.
      unfold distinct_matches in H2 |- *.
      destruct (add_unseen (a2 :: l2) ([], [])) as [al ch].
      simpl in H2 |- *. rewrite H2. simpl. now rewrite H2.
  - simpl in H1. simpl negb. cbv iota.
    unfold distinct_matches in H1 |- *.
    destruct (add_unseen (a :: l) ([], [])) as [al ch].
    simpl in H1 |- *. rewrite H1. simpl. rewrite H1. simpl. now rewrite H1.
Qed.

(** C4.  The matcher reads the material name under its key, the model
    under the drawing-or-model key or else the short model key, the brand
    under the category-or-brand key or else the short brand key, and the
    raw material under its key, and consults them in this order: the first
    one with a keyword match decides alone, and the result is the
    de-duplicated match list of that field.  When the material name matches,
    every returned match is a match of the material name and the result is
    the same for any record with that name, whatever else it holds.  The
    earlier matcher of [code/material_classifier] reads the same cells in
    the same order and answers with the pair of the first field that has
    one. *)
Theorem material_name_takes_precedence (lower : str -> str) (m : mapping)
    (material_data : pydict) :
  let name := get_default material_data k_material_name (PStr []) in
  let model := py_or (get_default material_data k_drawing_model (PStr []))
                     (get_default material_data k_model (PStr [])) in
  let brand := py_or (get_default material_data k_category_brand (PStr []))
                     (get_default material_data k_brand (PStr [])) in
  let material := get_default material_data k_material (PStr []) in
  let found v := match_keywords lower m v in
  let result := match_by_multiple_fields lower m material_data in
  (found name <> [] ->
     result = distinct_matches (found name)
     /\ result <> []
     /\ (forall mt, In mt result -> In mt (found name))
     /\ (forall other,
            get_default other k_material_name (PStr []) = name ->
            match_by_multiple_fields lower m other = result))
  /\ (found name = [] -> found model <> [] ->
        result = distinct_matches (found model))
  /\ (found name = [] -> found model = [] -> found brand <> [] ->
        result = distinct_matches (found brand))
  /\ (found name = [] -> found model = [] -> found brand = [] ->
        result = distinct_matches (found material))
  /\ (forall m4 : dict key Legacy.entry4,
        let found4 v := Legacy.match_keywords lower m4 v in
        let result4 := Legacy.match_by_multiple_fields lower m4 material_data in
        (forall k,
            found4 name = Some k ->
            result4 = Some k
            /\ forall other,
                 get_default other k_material_name (PStr []) = name ->
                 Legacy.match_by_multiple_fields lower m4 other = Some k)
        /\ (found4 name = None ->
            forall k, found4 model = Some k -> result4 = Some k)
        /\ (found4 name = None -> found4 model = None ->
            forall k, found4 brand = Some k -> result4 = Some k)
        /\ (found4 name = None -> found4 model = None ->
            found4 brand = None ->
            result4 = found4 material)).
Proof.
  intros name model brand material found result. subst result.
  pose proof (match_by_multiple_fields_cases lower m material_data) as Hc.
  cbv zeta in Hc. rewrite Hc. clear Hc.
  unfold field_material_name, field_model, field_brand, field_material.
  fold name model brand material. subst found. cbv beta.
  split; [|split; [|split; [|split]]].
  - intros H. rewrite (is_nil_false H). simpl.
    split; [reflexivity|]. split; [|split].
    + intros E.
      pose proof (distinct_matches_nil (match_keywords lower m name)) as Hn.
      rewrite E, (is_nil_false H) in Hn. discriminate.
    + apply In_distinct_matches.
    + intros other Ho.
      pose proof (match_by_multiple_fields_cases lower m other) as Hc.
      cbv zeta in Hc. rewrite Hc. unfold field_material_name at 1 2.
      rewrite Ho, (is_nil_false H). reflexivity.
  - intros E1 H2. rewrite E1, (is_nil_false H2). reflexivity.
  - intros E1 E2 H3. rewrite E1, E2, (is_nil_false H3). reflexivity.
  - intros E1 E2 E3. rewrite E1, E2, E3. reflexivity.
  - intros m4. cbv zeta.
    unfold Legacy.match_by_multiple_fields.
    unfold field_material_name, field_model, field_brand, field_material.
    fold name model brand material.
    split; [|split; [|split]].
    + intros k Hk. rewrite Hk. split; [reflexivity|].
      intros other Ho. now rewrite Ho, Hk.
    + intros E1 k Hk. now rewrite E1, Hk.
    + intros E1 E2 k Hk. now rewrite E1, E2, Hk.
    + intros E1 E2 E3. now rewrite E1, E2, E3.
Qed.

(** The four fields and the earlier matcher on the example taxonomy: a name
    that matches wins over a model that matches another entry, in both
    matchers; a model under the short key, a brand beside a name without a
    match, and a raw material alone are each found through their field. *)
Lemma material_name_takes_precedence_witness :
  (match_keywords lower_ascii example_mapping (PStr (lit "robot-1"))
   = [(lit "Robot", lit "Six Axis", [])]
   /\ match_by_multiple_fields lower_ascii example_mapping name_model_record
      = [(lit "PLC / IO Module", lit "Cabinet", lit "Siemens, Omron")])
  /\ match_by_multiple_fields lower_ascii example_mapping short_model_record
     = [(lit "PLC / IO Module", lit "Servo Drive", lit "Omron")]
  /\ match_by_multiple_fields lower_ascii example_mapping brand_record
     = [(lit "Robot", lit "Six Axis", [])]
  /\ match_by_multiple_fields lower_ascii example_mapping material_record
     = [(lit "PLC / IO Module", lit "Cabinet", lit "Siemens, Omron")]
  /\ (Legacy.match_keywords lower_ascii (without_brands example_mapping)
        (PStr (lit "robot-1")) = Some (lit "Robot", lit "Six Axis")
      /\ Legacy.match_by_multiple_fields lower_ascii
           (without_brands example_mapping) name_model_record
         = Some (lit "PLC / IO Module", lit "Cabinet"))
  /\ Legacy.match_by_multiple_fields lower_ascii
       (without_brands example_mapping) material_record
     = Some (lit "PLC / IO Module", lit "Cabinet").
Proof.
  pose proof (material_name_takes_precedence lower_ascii example_mapping
                name_model_record) as Hn.
  pose proof (material_name_takes_precedence lower_ascii example_mapping
                short_model_record) as Hm.
  pose proof (material_name_takes_precedence lower_ascii example_mapping
                brand_record) as Hb.
  pose proof (material_name_takes_precedence lower_ascii example_mapping
                material_record) as Hr.
  cbv zeta in Hn, Hm, Hb, Hr.
  split; [split; [reflexivity|]|].
  { rewrite (proj1 (proj1 Hn ltac:(vm_compute; discriminate))). reflexivity. }
  split.
  { rewrite (proj1 (proj2 Hm) eq_refl ltac:(vm_compute; discriminate)).
    reflexivity. }
  split.
  { rewrite (proj1 (proj2 (proj2 Hb)) eq_refl eq_refl
               ltac:(vm_compute; discriminate)).
    reflexivity. }
  split.
  { rewrite (proj1 (proj2 (proj2 (proj2 Hr))) eq_refl eq_refl eq_refl).
    reflexivity. }
  split; [split; [reflexivity|]|].
  { exact (proj1 (proj1 (proj2 (proj2 (proj2 (proj2 Hn)))
                          (without_brands example_mapping))
                    (lit "PLC / IO Module", lit "Cabinet") eq_refl)). }
  rewrite (proj2 (proj2 (proj2 (proj2 (proj2 (proj2 (proj2 Hr)))
                                  (without_brands example_mapping))))
             eq_refl eq_refl eq_refl).
  reflexivity.
Defined.

(** ** Brand disambiguation *)

Lemma hd_filter_find (A : Type) (p : A -> bool) l :
  hd_error (filter p l) = find p l.
Proof.
  induction l as [|a l IH]; simpl; [reflexivity|].
  destruct (p a); [reflexivity | exact IH].
Qed.

Lemma brand_matches_head lower nb candidates :
  hd_error (brand_matches lower nb candidates)
  = option_map category_of
      (find (fun c => brand_hit lower nb (snd c)) candidates).
Proof.
  unfold brand_matches. rewrite <- hd_filter_find.
  destruct (filter (fun mt => brand_hit lower nb (snd mt)) candidates);
    reflexivity.
Qed.

Lemma brand_hit_iff lower nb brands :
  brand_hit lower nb brands = true <->
  exists brand,
    In brand (stripped_items brands)
    /\ nonempty (_normalize_text lower (PStr brand)) = true
    /\ (contains (_normalize_text lower (PStr brand)) nb = true
        \/ contains nb (_normalize_text lower (PStr brand)) = true).
Proof.
  unfold brand_hit. destruct (nonempty brands) eqn:E; simpl.
  - rewrite existsb_exists. split.
    + intros [b [Hin Hb]]. apply andb_true_iff in Hb. destruct Hb as [H1 H2].
      apply orb_true_iff in H2. exists b. auto.
    + intros [b [Hin [H1 H2]]]. exists b. split; [exact Hin|].
      apply andb_true_iff. split; [exact H1|]. now apply orb_true_iff.
  - split; [discriminate|]. intros [b [Hin _]].
    unfold nonempty in E. apply negb_false_iff in E. unfold str_eqb in E.
    destruct (str_eq_dec brands []) as [->|]; [|discriminate].
    destruct Hin.
Qed.

(** C5, claim as stated, refuted.  With two candidates of which only the
    second lists brands and a record that carries no brand, the empty record
    brand is a substring of every candidate brand, so the second candidate is
    a brand match in the claim's sense; the code returns the first. *)
Lemma brand_disambiguation_counterexample :
  load_classification_standards lower_ascii (Ok valve_rows) = Ok valve_mapping
  /\ match_by_multiple_fields lower_ascii valve_mapping valve_record
  = [(lit "Pneumatic", lit "Valve", []);
     (lit "Hydraulic", lit "Valve", lit "SMC, Festo")]
  /\ spec_match_by_keywords_and_brand lower_ascii valve_mapping valve_record
     = Some (lit "Hydraulic", lit "Valve")
  /\ match_by_keywords_and_brand lower_ascii valve_mapping valve_record
     = Some (lit "Pneumatic", lit "Valve")
  /\ match_by_keywords_and_brand lower_ascii valve_mapping valve_record
     <> spec_match_by_keywords_and_brand lower_ascii valve_mapping valve_record.
Proof.
  split; [reflexivity|].
  split; [reflexivity|]. split; [reflexivity|]. split; [reflexivity|].
  vm_compute. discriminate.
Qed.

(** C5, amended.  Disambiguation returns a candidate whenever the keyword
    pass found one: a single distinct pair is returned directly; of several,
    when the record's normalized brand is empty the first candidate is
    returned, and otherwise the first candidate one of whose non-empty
    normalized brands contains, or is contained in, the record's normalized
    brand, with the first candidate of the keyword pass as the fallback when
    there is none. *)
Theorem brand_disambiguation (lower : str -> str) (m : mapping)
    (material_data : pydict) :
  let candidates := match_by_multiple_fields lower m material_data in
  let record_brand := _normalize_text lower (field_brand material_data) in
  let chosen := match_by_keywords_and_brand lower m material_data in
  (candidates <> [] -> chosen <> None)
  /\ (forall single, candidates = [single] ->
        chosen = Some (category_of single))
  /\ (forall first second rest, candidates = first :: second :: rest ->
        (record_brand = [] -> chosen = Some (category_of first))
        /\ (record_brand <> [] ->
            chosen =
            match find (fun c => brand_hit lower record_brand (snd c))
                    candidates with
            | Some hit => Some (category_of hit)
            | None => Some (category_of first)
            end))
  /\ (forall brands,
        brand_hit lower record_brand brands = true <->
        exists brand,
          In brand (stripped_items brands)
          /\ nonempty (_normalize_text lower (PStr brand)) = true
          /\ (contains (_normalize_text lower (PStr brand)) record_brand = true
              \/ contains record_brand (_normalize_text lower (PStr brand))
                 = true)).
Proof.
  intros candidates record_brand chosen.
  assert (Hsev : forall first second rest,
             candidates = first :: second :: rest ->
             (record_brand = [] -> chosen = Some (category_of first))
             /\ (record_brand <> [] ->
                 chosen =
                 match find (fun c => brand_hit lower record_brand (snd c))
                         candidates with
                 | Some hit => Some (category_of hit)
                 | None => Some (category_of first)
                 end)).
  { intros first second rest E. subst chosen.
    unfold match_by_keywords_and_brand. fold candidates. rewrite E.
    fold record_brand. split.
    - intros ->. reflexivity.
    - intros Hne. unfold nonempty, str_eqb.
      destruct (str_eq_dec record_brand []) as [E0|_]; [contradiction|].
      simpl negb. cbv iota.
      pose proof (brand_matches_head lower record_brand
                    (first :: second :: rest)) as Hh.
      destruct (brand_matches lower record_brand (first :: second :: rest))
        as [|bm bms];
        destruct (find (fun c => brand_hit lower record_brand (snd c))
                    (first :: second :: rest)) as [hit|];
        simpl in Hh; try discriminate; [reflexivity|].
      now injection Hh as ->. }
  split; [|split; [|split]].
  - intros Hne. subst chosen. unfold match_by_keywords_and_brand.
    fold candidates.
    destruct candidates as [|first [|second rest]] eqn:E;
      [congruence | discriminate |].
    fold record_brand.
    destruct (negb (nonempty record_brand)); [discriminate|].
    destruct (brand_matches lower record_brand (first :: second :: rest));
      discriminate.
  - intros single E. subst chosen. unfold match_by_keywords_and_brand.
    fold candidates. now rewrite E.
  - exact Hsev.
  - intros brands. apply brand_hit_iff.
Qed.

Lemma brand_disambiguation_witness :
  match_by_multiple_fields lower_ascii valve_mapping festo_valve_record
  = [(lit "Pneumatic", lit "Valve", []);
     (lit "Hydraulic", lit "Valve", lit "SMC, Festo")]
  /\ _normalize_text lower_ascii (field_brand festo_valve_record) <> []
  /\ match_by_keywords_and_brand lower_ascii valve_mapping festo_valve_record
     = Some (lit "Hydraulic", lit "Valve")
  /\ match_by_keywords_and_brand lower_ascii valve_mapping valve_record
     = Some (lit "Pneumatic", lit "Valve").
Proof.
  split; [reflexivity|]. split; [vm_compute; discriminate|]. split.
  - rewrite (proj2 (proj1 (proj2 (proj2 (brand_disambiguation lower_ascii
               valve_mapping festo_valve_record)))
               (lit "Pneumatic", lit "Valve", [])
               (lit "Hydraulic", lit "Valve", lit "SMC, Festo") []
               eq_refl)).
    + reflexivity.
    + vm_compute. discriminate.
  - apply (proj1 (proj1 (proj2 (proj2 (brand_disambiguation lower_ascii
             valve_mapping valve_record)))
             (lit "Pneumatic", lit "Valve", [])
             (lit "Hydraulic", lit "Valve", lit "SMC, Festo") []
             eq_refl)).
    reflexivity.
Defined.

(** ** What the loader establishes *)

Section StoreFacts.
Variable lower : str -> str.

Lemma dict_keys_set (d : mapping) k v :
  dict_keys (dict_set key_eq_dec d k v) =
  if in_dec key_eq_dec k (dict_keys d) then dict_keys d else dict_keys d ++ [k].
Proof.
  induction d as [|[k' v'] d IH]; simpl; [reflexivity|].
  destruct (key_eq_dec k k') as [E|E]; simpl.
  - subst k'. destruct (key_eq_dec k k); [reflexivity | congruence].
  - destruct (key_eq_dec k' k); [congruence|].
    rewrite IH. destruct (in_dec key_eq_dec k (dict_keys d)); reflexivity.
Qed.

Lemma dict_set_NoDup (d : mapping) k v :
  NoDup (dict_keys d) -> NoDup (dict_keys (dict_set key_eq_dec d k v)).
Proof.
  intros H. rewrite dict_keys_set.
  destruct (in_dec key_eq_dec k (dict_keys d)) as [Hin|Hin]; [exact H|].
  apply NoDup_app; [exact H | repeat constructor; intros [] |].
  intros x Hx [<-|[]]. contradiction.
Qed.

Lemma canonical_store_set (m : mapping) cm sub e :
  canonical_store lower m ->
  original_main e = cm -> original_sub e = sub ->
  nonempty cm = true -> nonempty sub = true ->
  canonical_store lower
    (dict_set key_eq_dec m
       (normalize_category lower cm, normalize_category lower sub) e).
Proof.
  intros [Hnd Hc] Hm Hs Hcm Hsub. split; [now apply dict_set_NoDup|].
  intros k e0 Hin. apply In_dict_set in Hin. destruct Hin as [[-> ->]|Hin].
  - rewrite Hm, Hs. auto.
  - now apply Hc.
Qed.

Lemma load_row_canonical st r st' :
  load_row lower st r = Ok st' ->
  canonical_store lower (snd st) ->
  (forall cm, fst st = Some cm -> nonempty cm = true) ->
  canonical_store lower (snd st')
  /\ (forall cm, fst st' = Some cm -> nonempty cm = true).
Proof.
  unfold load_row.
  destruct (cell r 1) as [c1|]; [|discriminate].
  destruct (cell r 2) as [c2|]; [|discriminate].
  destruct (cell r 3) as [c3|]; [|discriminate].
  destruct (cell r 4) as [c4|]; [|discriminate].
  destruct (cell r 5) as [c5|]; [|discriminate].
  intros H Hc Hcur.
  assert (Hcur' : forall cm,
             (if nonempty (clean_cell c1) then Some (clean_cell c1)
              else fst st) = Some cm -> nonempty cm = true).
  { intros cm. destruct (nonempty (clean_cell c1)) eqn:E.
    - intros Hx. injection Hx as <-. exact E.
    - apply Hcur. }
  destruct (if nonempty (clean_cell c1) then Some (clean_cell c1) else fst st)
    as [cm|] eqn:Ecur.
  - rewrite (Hcur' cm eq_refl) in H. simpl in H.
    destruct (nonempty (clean_cell c2)) eqn:Esub;
      injection H as <-; simpl; (split; [|exact Hcur']).
    + apply canonical_store_set; auto.
    + exact Hc.
  - injection H as <-. simpl. split; [exact Hc | discriminate].
Qed.

Lemma load_rows_canonical rows : forall st st',
  load_rows lower st rows = Ok st' ->
  canonical_store lower (snd st) ->
  (forall cm, fst st = Some cm -> nonempty cm = true) ->
  canonical_store lower (snd st').
Proof.
  induction rows as [|r rows IH]; intros st st'; simpl.
  - intros H. injection H as <-. auto.
  - destruct (load_row lower st r) as [st1|] eqn:E; [|discriminate].
    intros H Hc Hcur.
    destruct (load_row_canonical _ _ E Hc Hcur) as [Hc1 Hcur1].
    exact (IH _ _ H Hc1 Hcur1).
Qed.

Lemma load_canonical src m :
  load_classification_standards lower src = Ok m -> canonical_store lower m.
Proof.
  unfold load_classification_standards.
  destruct src as [rows|]; [|discriminate].
  destruct (load_rows lower (None, []) rows) as [[cur m']|] eqn:E;
    [|discriminate].
  destruct m' as [|kv m']; [discriminate|].
  intros H. injection H as <-.
  apply (load_rows_canonical _ _ E).
  - split; [constructor | intros k e []].
  - discriminate.
Qed.

Lemma canonical_lookup (m : mapping) k e :
  canonical_store lower m -> In (k, e) m ->
  dict_get key_eq_dec m k = Some e.
Proof.
  intros [Hnd _]. induction m as [|[k' e'] m IH]; simpl; [intros []|].
  inversion Hnd as [|? ? Hnot Hnd']; subst.
  intros [H|H].
  - injection H as -> ->. destruct (key_eq_dec k k); [reflexivity|congruence].
  - destruct (key_eq_dec k k') as [->|_]; [|now apply IH].
    elim Hnot. change k' with (fst (k', e)). now apply in_map.
Qed.

(** ** Matches come from the store *)

Lemma In_entry_matches n e mt :
  In mt (entry_matches lower n e) ->
  mt = (original_main e, original_sub e, common_brands e).
Proof.
  unfold entry_matches.
  destruct (negb (nonempty (keywords e))); [intros []|].
  destruct (stripped_items (keywords e)) as [|kw kws]; [intros []|].
  intros H. apply in_flat_map in H. destruct H as [x [_ H]].
  destruct (negb _); [destruct H|].
  destruct (contains _ n); [|destruct H].
  destruct H as [<-|[]]. reflexivity.
Qed.

Lemma In_match_keywords (m : mapping) v mt :
  In mt (match_keywords lower m v) ->
  exists k e, In (k, e) m
              /\ mt = (original_main e, original_sub e, common_brands e).
Proof.
  unfold match_keywords.
  destruct (negb (truthy v)); [intros []|].
  destruct (negb _); [intros []|].
  intros H. apply in_flat_map in H. destruct H as [[k e] [Hin H]].
  exists k, e. split; [exact Hin|]. exact (In_entry_matches _ _ _ H).
Qed.

Lemma In_match_by_multiple_fields (m : mapping) data mt :
  In mt (match_by_multiple_fields lower m data) ->
  exists k e, In (k, e) m
              /\ mt = (original_main e, original_sub e, common_brands e).
Proof.
  pose proof (match_by_multiple_fields_cases lower m data) as Hc.
  cbv zeta in Hc. rewrite Hc. clear Hc.
  repeat match goal with
  | |- context [if ?b then _ else _] => destruct b
  end; intros H; apply In_distinct_matches in H;
    exact (In_match_keywords _ _ _ H).
Qed.

Lemma match_by_keywords_and_brand_from_store (m : mapping) data found :
  match_by_keywords_and_brand lower m data = Some found ->
  from_store m found.
Proof.
  unfold match_by_keywords_and_brand.
  pose proof (In_match_by_multiple_fields m data) as Hin.
  destruct (match_by_multiple_fields lower m data)
    as [|first [|second rest]]; [discriminate| |].
  - intros H. injection H as <-.
    destruct (Hin first (or_introl eq_refl)) as [k [e [He ->]]].
    exists k, e. auto.
  - assert (Hfirst : from_store m (category_of first)).
    { destruct (Hin first (or_introl eq_refl)) as [k [e [He ->]]].
      exists k, e. auto. }
    destruct (negb _); [intros H; injection H as <-; exact Hfirst|].
    destruct (brand_matches lower _ (first :: second :: rest))
      as [|bm bms] eqn:Eb; intros H; injection H as <-; [exact Hfirst|].
    assert (Hbm : In bm (brand_matches lower
                           (_normalize_text lower (field_brand data))
                           (first :: second :: rest))).
    { rewrite Eb. now left. }
    unfold brand_matches in Hbm. apply in_map_iff in Hbm.
    destruct Hbm as [mt [<- Hmt]]. apply filter_In in Hmt.
    destruct Hmt as [Hmt _].
    destruct (Hin mt Hmt) as [k [e [He ->]]]. exists k, e. auto.
Qed.

Lemma validate_from_store (m : mapping) found :
  canonical_store lower m -> from_store m found ->
  validate_classification_result lower m (keyword_result found)
  = Ok (keyword_result found).
Proof.
  intros Hc [k [e [Hin ->]]].
  destruct (proj2 Hc k e Hin) as [Hk [Hm Hs]].
  pose proof (canonical_lookup _ _ Hc Hin) as Hget. rewrite Hk in Hget.
  unfold validate_classification_result, validate_with.
  change (get (keyword_result (original_main e, original_sub e))
            k_main_category) with (PStr (original_main e)).
  change (get (keyword_result (original_main e, original_sub e))
            k_sub_category) with (PStr (original_sub e)).
  simpl truthy. unfold nonempty in Hm, Hs. rewrite Hm, Hs. simpl.
  rewrite Hget. reflexivity.
Qed.
End StoreFacts.

(** C10.  For a taxonomy the loader returned: every key is the normalized
    form of the originals stored under it; a pair the keyword/brand matcher
    returns is the pair of originals of a stored entry; validation of the
    result built from it succeeds and leaves it as it is; and
    [classify_material] on a record with a local match returns that result
    without a remote request. *)
Theorem keyword_match_passes_validation (lower : str -> str)
    (json_loads : str -> loads) (MAX_RETRIES : nat)
    (remote : nat -> response) (src : result (list row)) (m : mapping) :
  load_classification_standards lower src = Ok m ->
  (forall k e, In (k, e) m ->
     k = (normalize_category lower (original_main e),
          normalize_category lower (original_sub e)))
  /\ (forall data found,
        match_by_keywords_and_brand lower m data = Some found ->
        from_store m found
        /\ validate_classification_result lower m (keyword_result found)
           = Ok (keyword_result found))
  /\ (forall material_data w found,
        match_by_keywords_and_brand lower m (formatted_data material_data)
        = Some found ->
        classify_material lower json_loads MAX_RETRIES remote m
          material_data w
        = (Ok (keyword_result found), w)).
Proof.
  intros Hload. pose proof (load_canonical lower src Hload) as Hc.
  assert (Hv : forall data found,
             match_by_keywords_and_brand lower m data = Some found ->
             from_store m found
             /\ validate_classification_result lower m (keyword_result found)
                = Ok (keyword_result found)).
  { intros data found H.
    pose proof (match_by_keywords_and_brand_from_store lower m data H) as Hf.
    split; [exact Hf | exact (validate_from_store Hc Hf)]. }
  split; [|split].
  - intros k e Hin. exact (proj1 (proj2 Hc k e Hin)).
  - exact Hv.
  - intros material_data w found H. unfold classify_material. rewrite H.
    now rewrite (proj2 (Hv _ _ H)).
Qed.

Lemma keyword_match_passes_validation_witness :
  load_classification_standards lower_ascii (Ok example_rows)
  = Ok example_mapping
  /\ match_by_keywords_and_brand lower_ascii example_mapping
       (formatted_data plc_record)
     = Some (lit "PLC / IO Module", lit "Cabinet")
  /\ classify_material lower_ascii (fun _ => RaisesDecodeError) 3 (fun _ => Failure [])
       example_mapping plc_record
       {| continuous_api_failures := 0; requests := 0; trace := [] |}
     = (Ok (keyword_result (lit "PLC / IO Module", lit "Cabinet")),
        {| continuous_api_failures := 0; requests := 0; trace := [] |}).
Proof.
  split; [reflexivity|]. split; [reflexivity|].
  apply (proj2 (proj2 (keyword_match_passes_validation lower_ascii
                         (fun _ => RaisesDecodeError) 3 (fun _ => Failure [])
                         (Ok example_rows) eq_refl))).
  reflexivity.
Defined.

(** ** The lazy scan *)

Section LazyScan.
Variables open close : char.






End LazyScan.


(** ** The clean-up removes no brace *)

Lemma brace_free_nil : brace_free [].
Proof. split; intros []. Qed.

Lemma brace_free_app a b : brace_free a -> brace_free b -> brace_free (a ++ b).
Proof.
  intros [H1 H2] [H3 H4].
  split; intros H; apply in_app_or in H; tauto.
Qed.

Lemma brace_free_incl a b :
  (forall x, In x a -> In x b) -> brace_free b -> brace_free a.
Proof. intros H [H1 H2]. split; intros Hin; apply H in Hin; tauto. Qed.

Lemma trims_to_refl s : trims_to s s.
Proof.
  exists [], []. rewrite app_nil_r.
  split; [reflexivity | split; apply brace_free_nil].
Qed.

Lemma trims_to_trans u t s : trims_to u t -> trims_to t s -> trims_to u s.
Proof.
  intros [a [b [-> [Ha Hb]]]] [a' [b' [-> [Ha' Hb']]]].
  exists (a' ++ a), (b ++ b'). split.
  - now rewrite <- !app_assoc.
  - split; now apply brace_free_app.
Qed.

Lemma spaces_brace_free a : Forall (fun c => isspace c = true) a -> brace_free a.
Proof.
  intros H. split; intros Hin;
    apply (proj1 (Forall_forall _ _) H) in Hin; discriminate.
Qed.

Lemma lstrip_split s :
  exists a, s = a ++ lstrip s /\ Forall (fun c => isspace c = true) a.
Proof.
  induction s as [|c s [a [E Ha]]]; simpl.
  - exists []. auto.
  - destruct (isspace c) eqn:Ec.
    + exists (c :: a). split; [simpl; now f_equal | now constructor].
    + exists []. auto.
Qed.

Lemma rstrip_split s :
  exists b, s = rstrip s ++ b /\ Forall (fun c => isspace c = true) b.
Proof.
  destruct (lstrip_split (rev s)) as [a [E Ha]].
  exists (rev a). split.
  - unfold rstrip. rewrite <- rev_app_distr, <- E. now rewrite rev_involutive.
  - apply Forall_rev. exact Ha.
Qed.

Lemma strip_trims s : trims_to (strip s) s.
Proof.
  destruct (lstrip_split s) as [a [Ea Ha]].
  destruct (rstrip_split (lstrip s)) as [b [Eb Hb]].
  exists a, b. split.
  - unfold strip. now rewrite <- Eb.
  - split; now apply spaces_brace_free.
Qed.

Lemma startswith_split p : forall s,
  startswith p s = true -> s = p ++ skipn (List.length p) s.
Proof.
  induction p as [|a p IH]; intros s; simpl; [reflexivity|].
  destruct s as [|b s]; [discriminate|].
  intros H. apply andb_true_iff in H. destruct H as [H1 H2].
  apply N.eqb_eq in H1. subst b. f_equal. now apply IH.
Qed.

Lemma endswith_split p s :
  endswith p s = true ->
  s = firstn (List.length s - List.length p) s ++ p.
Proof.
  unfold endswith. intros H. apply startswith_split in H.
  rewrite length_rev in H.
  assert (E : s = rev (skipn (List.length p) (rev s)) ++ p).
  { rewrite <- (rev_involutive p) at 2. rewrite <- rev_app_distr, <- H.
    now rewrite rev_involutive. }
  rewrite E at 1. f_equal.
  rewrite skipn_rev, rev_involutive. reflexivity.
Qed.

Lemma In_firstn (A : Type) n (l : list A) x : In x (firstn n l) -> In x l.
Proof.
  intros H. rewrite <- (firstn_skipn n l). apply in_or_app. now left.
Qed.

Lemma In_skipn (A : Type) n (l : list A) x : In x (skipn n l) -> In x l.
Proof.
  intros H. rewrite <- (firstn_skipn n l). apply in_or_app. now right.
Qed.

Lemma fence_brace_free : brace_free FENCE.
Proof.
  split; intros H; vm_compute in H; repeat destruct H as [H|H];
    try discriminate; exact H.
Qed.

Lemma startswith_app_l p : forall x y,
  List.length p <= List.length x -> startswith p (x ++ y) = startswith p x.
Proof.
  induction p as [|a p IH]; intros x y H; [reflexivity|].
  destruct x as [|b x]; simpl in *; [lia|].
  rewrite IH by lia. reflexivity.
Qed.

Lemma endswith_app_r p a t :
  List.length p <= List.length t -> endswith p (a ++ t) = endswith p t.
Proof.
  intros H. unfold endswith. rewrite rev_app_distr.
  apply startswith_app_l. now rewrite !length_rev.
Qed.

Lemma slice_trims s :
  startswith FENCE s = true -> endswith FENCE s = true ->
  trims_to (slice_3_m3 s) s.
Proof.
  intros Hs He. apply startswith_split in Hs.
  change (List.length FENCE) with 3 in Hs.
  unfold slice_3_m3. remember (skipn 3 s) as t eqn:Et. clear Et. subst s.
  rewrite length_app. change (List.length FENCE) with 3.
  replace (3 + List.length t - 6) with (List.length t - 3) by lia.
  destruct (Nat.le_gt_cases 3 (List.length t)) as [Hlen|Hlen].
  - rewrite endswith_app_r in He by exact Hlen.
    apply endswith_split in He. change (List.length FENCE) with 3 in He.
    exists FENCE, FENCE. split; [|split; exact fence_brace_free].
    now rewrite <- He.
  - replace (List.length t - 3) with 0 by lia. simpl firstn.
    exists (FENCE ++ t), []. split; [now rewrite app_nil_r|].
    split; [|apply brace_free_nil].
    apply endswith_split in He. rewrite length_app in He.
    change (List.length FENCE) with 3 in He.
    rewrite firstn_app in He. change (List.length FENCE) with 3 in He.
    replace (3 + List.length t - 3 - 3) with 0 in He by lia.
    simpl (firstn 0 t) in He. rewrite app_nil_r in He. rewrite He.
    apply brace_free_app; [|exact fence_brace_free].
    apply brace_free_incl with (b := FENCE); [|exact fence_brace_free].
    intros x Hx. exact (In_firstn _ _ _ Hx).
Qed.

Lemma json_tag_trims s :
  startswith (lit "json") s = true -> trims_to (skipn 4 s) s.
Proof.
  intros H. apply startswith_split in H.
  change (List.length (lit "json")) with 4 in H.
  exists (lit "json"), []. split; [now rewrite app_nil_r|].
  split; [|apply brace_free_nil].
  split; intros Hin; vm_compute in Hin; repeat destruct Hin as [Hin|Hin];
    try discriminate; exact Hin.
Qed.

Lemma clean_content_trims content : trims_to (clean_content content) content.
Proof.
  unfold clean_content.
  destruct (startswith FENCE (strip content) && endswith FENCE (strip content))
    eqn:E; [|apply strip_trims].
  apply andb_true_iff in E. destruct E as [Es Ee].
  assert (H1 : trims_to (strip (slice_3_m3 (strip content))) content).
  { eapply trims_to_trans; [apply strip_trims|].
    eapply trims_to_trans; [apply (slice_trims _ Es Ee) | apply strip_trims]. }
  destruct (startswith (lit "json") (strip (slice_3_m3 (strip content))))
    eqn:Ej; [|exact H1].
  eapply trims_to_trans; [apply strip_trims|].
  eapply trims_to_trans; [apply (json_tag_trims _ Ej) | exact H1].
Qed.


(** ** The extractor takes the last shortest-span match *)

Lemma startswith_self p : forall y, startswith p (p ++ y) = true.
Proof.
  induction p as [|a p IH]; intros y; simpl; [reflexivity|].
  now rewrite N.eqb_refl, IH.
Qed.

Lemma clean_head_app a b : a <> [] -> clean_head (a ++ b) = clean_head a.
Proof. destruct a; [congruence | reflexivity]. Qed.




Lemma strip_clean_ends x :
  clean_head x = true -> clean_head (rev x) = true -> strip x = x.
Proof. apply strip_fixed. Qed.












(** ** The consecutive-failure ceiling *)

Section Ceiling.
Variable MAX_RETRIES : nat.
Variable remote : nat -> response.
Variable attempt_body : response -> result pydict.

Lemma retry_from_S remaining attempt w :
  retry_from MAX_RETRIES remote attempt_body (S remaining) attempt w
  = match attempt_body (remote (requests w)) with
    | Ok d => (Ok (Some d), set_failures 0 (send_request w))
    | Raise e =>
        if MAX_API_FAILURES <=? continuous_api_failures w + 1
        then (Raise e,
              set_failures (continuous_api_failures w + 1) (send_request w))
        else if attempt <? MAX_RETRIES - 1
        then retry_from MAX_RETRIES remote attempt_body remaining (S attempt)
               (log_event (EvBackoff (2 ^ attempt))
                  (set_failures (continuous_api_failures w + 1)
                     (send_request w)))
        else (Raise e,
              set_failures (continuous_api_failures w + 1) (send_request w))
    end.
Proof. reflexivity. Qed.




End Ceiling.

Section LangchainCeiling.
Variable MAX_RETRIES : nat.
Variable remote : nat -> response.
Variable parse : pyval -> result parsed.





End LangchainCeiling.




(** ** The batch *)

Section Batch.
Variable lower : str -> str.
Variable json_loads : str -> loads.
Variable MAX_RETRIES : nat.
Variable remote : nat -> response.
Variable m : mapping.

Lemma batch_from_spec items : forall total i results w,
  total = i + List.length items ->
  batch_from lower json_loads MAX_RETRIES remote m total i items results w
  = (results
     ++ fst (batch_spec lower json_loads MAX_RETRIES remote m items w),
     snd (batch_spec lower json_loads MAX_RETRIES remote m items w)).
Proof.
  induction items as [|material rest IH]; intros total i results w Ht.
  - simpl. now rewrite app_nil_r.
  - cbn [batch_from batch_spec].
    destruct (classify_material lower json_loads MAX_RETRIES remote m
                material w) as [r w1].
    assert (Hsleep : (if i <? total - 1 then log_event EvRateLimit w1 else w1)
                     = match rest with
                       | [] => w1
                       | _ :: _ => log_event EvRateLimit w1
                       end).
    { destruct rest as [|y rest']; simpl in Ht.
      - destruct (Nat.ltb_spec i (total - 1)); [lia | reflexivity].
      - destruct (Nat.ltb_spec i (total - 1)); [reflexivity | lia]. }
    rewrite Hsleep. rewrite IH by (simpl in Ht; lia).
    destruct (batch_spec lower json_loads MAX_RETRIES remote m rest
                match rest with
                | [] => w1
                | _ :: _ => log_event EvRateLimit w1
                end) as [outcomes w3].
    simpl. now rewrite <- app_assoc.
Qed.

Lemma classify_batch_spec items w :
  classify_batch lower json_loads MAX_RETRIES remote m items w
  = batch_spec lower json_loads MAX_RETRIES remote m items w.
Proof.
  unfold classify_batch. rewrite batch_from_spec by reflexivity.
  simpl. now destruct (batch_spec lower json_loads MAX_RETRIES remote m items w).
Qed.

Lemma batch_spec_outcomes items : forall w,
  map original_data_of
    (fst (batch_spec lower json_loads MAX_RETRIES remote m items w))
  = items.
Proof.
  induction items as [|material rest IH]; intros w; [reflexivity|].
  cbn [batch_spec].
  destruct (classify_material lower json_loads MAX_RETRIES remote m
              material w) as [r w1].
  specialize (IH match rest with
                 | [] => w1
                 | _ :: _ => log_event EvRateLimit w1
                 end).
  destruct (batch_spec lower json_loads MAX_RETRIES remote m rest _)
    as [outcomes w3].
  simpl in *. rewrite IH. f_equal. now destruct r.
Qed.

(** The events a call adds are requests and back-offs. *)
Lemma retry_from_trace attempt_body remaining : forall attempt w,
  exists added,
    trace (snd (retry_from MAX_RETRIES remote attempt_body remaining attempt w))
    = trace w ++ added
    /\ rate_limit_sleeps added = 0.
Proof.
  induction remaining as [|k IH]; intros attempt w.
  - exists []. simpl. now rewrite app_nil_r.
  - rewrite retry_from_S.
    destruct (attempt_body (remote (requests w))) as [d|e].
    + exists [EvRequest (requests w)]. auto.
    + destruct (MAX_API_FAILURES <=? continuous_api_failures w + 1).
      * exists [EvRequest (requests w)]. auto.
      * destruct (attempt <? MAX_RETRIES - 1).
        -- destruct (IH (S attempt)
                       (log_event (EvBackoff (2 ^ attempt))
                          (set_failures (continuous_api_failures w + 1)
                             (send_request w)))) as [added [E Hn]].
           exists ([EvRequest (requests w); EvBackoff (2 ^ attempt)] ++ added).
           split.
           ++ rewrite E. simpl. now rewrite <- !app_assoc.
           ++ unfold rate_limit_sleeps in *. simpl. exact Hn.
        -- exists [EvRequest (requests w)]. auto.
Qed.

Lemma classify_material_trace material w :
  exists added,
    trace (snd (classify_material lower json_loads MAX_RETRIES remote m
                  material w))
    = trace w ++ added
    /\ rate_limit_sleeps added = 0.
Proof.
  unfold classify_material.
  destruct (match_by_keywords_and_brand lower m (formatted_data material)).
  - exists []. simpl. now rewrite app_nil_r.
  - unfold _call_deepseek_api.
    destruct (retry_from_trace (attempt_web json_loads) MAX_RETRIES 0 w)
      as [added [E Hn]].
    exists added.
    destruct (retry_from MAX_RETRIES remote (attempt_web json_loads)
                MAX_RETRIES 0 w) as [[[res|]|e] w']; auto.
Qed.

Lemma rate_limit_sleeps_app a b :
  rate_limit_sleeps (a ++ b) = rate_limit_sleeps a + rate_limit_sleeps b.
Proof. unfold rate_limit_sleeps. now rewrite filter_app, length_app. Qed.

Lemma batch_spec_trace items : forall w,
  exists added,
    trace (snd (batch_spec lower json_loads MAX_RETRIES remote m items w))
    = trace w ++ added
    /\ rate_limit_sleeps added = List.length items - 1.
Proof.
  induction items as [|material rest IH]; intros w.
  - exists []. simpl. now rewrite app_nil_r.
  - cbn [batch_spec].
    destruct (classify_material_trace material w) as [a1 [E1 H1]].
    destruct (classify_material lower json_loads MAX_RETRIES remote m
                material w) as [r w1].
    simpl in E1.
    destruct rest as [|y rest'].
    + exists a1. simpl. auto.
    + destruct (IH (log_event EvRateLimit w1)) as [a2 [E2 H2]].
      destruct (batch_spec lower json_loads MAX_RETRIES remote m (y :: rest')
                  (log_event EvRateLimit w1)) as [outcomes w3].
      simpl in E2 |- *. exists (a1 ++ [EvRateLimit] ++ a2). split.
      * rewrite E2, E1. now rewrite <- !app_assoc.
      * rewrite !rate_limit_sleeps_app, H1, H2. simpl. lia.
Qed.
End Batch.

(** C8.  [classify_batch] returns one outcome per record, in input order,
    each holding its record: a record that [classify_material] classifies
    is recorded as a success with the classification, one on which it
    raises is recorded as failed with the error, and in both cases the loop
    goes on with the records that follow.  A single record is followed by
    no delay; after a record that another one follows the delay is taken
    once and the rest of the batch runs from the state so reached, so a
    batch of [n] records takes [n - 1] delays. *)
Theorem classify_batch_isolates_failures (lower : str -> str)
    (json_loads : str -> loads) (MAX_RETRIES : nat)
    (remote : nat -> response) (m : mapping) (materials_list : list pydict)
    (w : world) :
  let classify := classify_material lower json_loads MAX_RETRIES remote m in
  let batch := classify_batch lower json_loads MAX_RETRIES remote m in
  List.length (fst (batch materials_list w)) = List.length materials_list
  /\ map original_data_of (fst (batch materials_list w)) = materials_list
  /\ batch [] w = ([], w)
  /\ (forall material classification w1,
         classify material w = (Ok classification, w1) ->
         batch [material] w = ([Success material classification], w1)
         /\ forall next rest,
              batch (material :: next :: rest) w
              = (Success material classification
                   :: fst (batch (next :: rest) (log_event EvRateLimit w1)),
                 snd (batch (next :: rest) (log_event EvRateLimit w1))))
  /\ (forall material e w1,
         classify material w = (Raise e, w1) ->
         batch [material] w = ([Failed material e], w1)
         /\ forall next rest,
              batch (material :: next :: rest) w
              = (Failed material e
                   :: fst (batch (next :: rest) (log_event EvRateLimit w1)),
                 snd (batch (next :: rest) (log_event EvRateLimit w1))))
  /\ (exists added,
         trace (snd (batch materials_list w)) = trace w ++ added
         /\ rate_limit_sleeps added = List.length materials_list - 1).
Proof.
  intros classify batch. subst classify batch.
  rewrite !classify_batch_spec.
  pose proof (batch_spec_outcomes lower json_loads MAX_RETRIES remote m
                materials_list w) as Hmap.
  assert (Hstep : forall material r w1,
            classify_material lower json_loads MAX_RETRIES remote m material w
            = (r, w1) ->
            classify_batch lower json_loads MAX_RETRIES remote m [material] w
            = ([wrap material r], w1)
            /\ forall next rest,
                 classify_batch lower json_loads MAX_RETRIES remote m
                   (material :: next :: rest) w
                 = (wrap material r
                      :: fst (classify_batch lower json_loads MAX_RETRIES
                                remote m (next :: rest)
                                (log_event EvRateLimit w1)),
                    snd (classify_batch lower json_loads MAX_RETRIES remote m
                           (next :: rest) (log_event EvRateLimit w1)))).
  { intros material r w1 E. split.
    - rewrite classify_batch_spec. cbn [batch_spec]. now rewrite E.
    - intros next rest. rewrite !classify_batch_spec. cbn [batch_spec].
      rewrite E.
      destruct (classify_material lower json_loads MAX_RETRIES remote m next
                  (log_event EvRateLimit w1)) as [r2 w2].
      now destruct (batch_spec lower json_loads MAX_RETRIES remote m rest _). }
  split; [|split; [|split; [|split; [|split]]]].
  - rewrite <- Hmap at 2. now rewrite length_map.
  - exact Hmap.
  - reflexivity.
  - intros material classification w1 E. exact (Hstep _ _ _ E).
  - intros material e w1 E. exact (Hstep _ _ _ E).
  - apply batch_spec_trace.
Qed.

(** The three-record example of the specification: the second record fails
    against a dead service and is recorded as failed, the first and third
    are recorded as successes, and two delays are taken. *)
Lemma classify_batch_isolates_failures_witness :
  let classify := classify_material lower_ascii example_json_loads 3
                    dead_remote example_mapping in
  let batch := classify_batch lower_ascii example_json_loads 3 dead_remote
                 example_mapping in
  let success := keyword_result (lit "PLC / IO Module", lit "Cabinet") in
  let w1 := log_event EvRateLimit initial_world in
  let w2 := log_event EvRateLimit (snd (classify unknown_record w1)) in
  classify plc_record initial_world = (Ok success, initial_world)
  /\ fst (classify unknown_record w1) = Raise (ClientError (lit "timeout"))
  /\ classify plc_record w2 = (Ok success, w2)
  /\ batch example_batch initial_world
     = ([ Success plc_record success;
          Failed unknown_record (ClientError (lit "timeout"));
          Success plc_record success ], w2)
  /\ rate_limit_sleeps (trace w2) = 2.
Proof.
  intros classify batch success w1 w2.
  assert (E0 : classify plc_record initial_world = (Ok success, initial_world))
    by reflexivity.
  assert (E1 : classify unknown_record w1
               = (Raise (ClientError (lit "timeout")),
                  snd (classify unknown_record w1))) by reflexivity.
  assert (E2 : classify plc_record w2 = (Ok success, w2)) by reflexivity.
  split; [exact E0|]. split; [reflexivity|]. split; [exact E2|].
  split; [|reflexivity].
  pose proof (classify_batch_isolates_failures lower_ascii example_json_loads
                3 dead_remote example_mapping example_batch initial_world)
    as H0.
  pose proof (classify_batch_isolates_failures lower_ascii example_json_loads
                3 dead_remote example_mapping example_batch w1) as H1.
  pose proof (classify_batch_isolates_failures lower_ascii example_json_loads
                3 dead_remote example_mapping example_batch w2) as H2.
  cbv zeta in H0, H1, H2.
  unfold batch, example_batch.
  rewrite (proj2 (proj1 (proj2 (proj2 (proj2 H0))) _ _ _ E0)
             unknown_record [plc_record]).
  fold w1.
  rewrite (proj2 (proj1 (proj2 (proj2 (proj2 (proj2 H1)))) _ _ _ E1)
             plc_record []).
  fold w2.
  rewrite (proj1 (proj1 (proj2 (proj2 (proj2 H2))) _ _ _ E2)).
  reflexivity.
Defined.

(** ** The repository's own examples *)

(** [test_normalize_text] of the matcher's tests. *)
Example normalize_text_examples :
  _normalize_text lower_ascii (PStr (lit "Test Text")) = lit "testtext"
  /\ _normalize_text lower_ascii
       (PStr (lit "  Test  " ++ [TAB] ++ lit " Text  ")) = lit "testtext"
  /\ _normalize_text lower_ascii (PStr []) = []
  /\ _normalize_text lower_ascii PNone = []
  /\ _normalize_text lower_ascii (PStr (lit "Test" ++ [NEWLINE] ++ lit "Text"))
     = lit "testtext".
Proof. repeat split; reflexivity. Qed.

(** [test_match_keywords] of the matcher's tests. *)
Example legacy_match_keywords_examples :
  Legacy.match_keywords lower_ascii test_mapping4 (PStr (lit "test keyword1"))
  = Some (lit "Test Main 1", lit "Test Sub 1")
  /\ Legacy.match_keywords lower_ascii test_mapping4
       (PStr (lit "test keyword4"))
     = Some (lit "Test Main 2", lit "Test Sub 2")
  /\ Legacy.match_keywords lower_ascii test_mapping4
       (PStr (lit "test keyword5")) = None
  /\ Legacy.match_keywords lower_ascii test_mapping4 PNone = None
  /\ Legacy.match_keywords lower_ascii test_mapping4
       (PStr (lit "test keyword1 keyword3"))
     = Some (lit "Test Main 1", lit "Test Sub 1").
Proof. repeat split; reflexivity. Qed.

(** The two spellings of the specification's validator example normalize to
    the same key. *)
Example normalize_category_example :
  normalize_category lower_ascii plc_cabinet_variant
  = normalize_category lower_ascii plc_cabinet.
Proof. reflexivity. Qed.

(** A fenced reply, with and without the language tag, is cleaned to the
    object inside; an object inside prose is found by the scan. *)
Example extraction_examples :
  let object := flat_object (classification_body "X2" "Y2") in
  clean_content (FENCE ++ [NEWLINE] ++ object ++ [NEWLINE] ++ FENCE) = object
  /\ clean_content
       (FENCE ++ lit "json" ++ [NEWLINE] ++ object ++ [NEWLINE] ++ FENCE)
     = object
  /\ json_part
       (clean_content
          (lit "The classification is: " ++ object
           ++ lit " according to our standards."))
     = object.
Proof. repeat split; reflexivity. Qed.

(** * Further properties of the engine *)

(** ** What a validated result is *)

Lemma dict_set_same_value (K V : Type)
    (K_eq_dec : forall a b : K, {a = b} + {a <> b}) (d : dict K V) k v :
  dict_get K_eq_dec d k = Some v -> dict_set K_eq_dec d k v = d.
Proof.
  induction d as [|[k' v'] d IH]; simpl; [discriminate|].
  destruct (K_eq_dec k k') as [E|E].
  - intros H. injection H as ->. reflexivity.
  - intros H. f_equal. now apply IH.
Qed.

Lemma validate_with_inv (lower : str -> str) (V : Type)
    (originals : V -> str * str) (m : dict key V) (res res' : pydict) :
  validate_with lower originals m res = Ok res' ->
  exists v,
    truthy (get res k_main_category) = true
    /\ truthy (get res k_sub_category) = true
    /\ dict_get key_eq_dec m
         (normalize_category lower (py_str (get res k_main_category)),
          normalize_category lower (py_str (get res k_sub_category)))
       = Some v
    /\ res' = dict_set str_eq_dec
                (dict_set str_eq_dec res k_main_category
                   (PStr (fst (originals v))))
                k_sub_category (PStr (snd (originals v))).
Proof.
  unfold validate_with.
  destruct (truthy (get res k_main_category)); [|discriminate].
  destruct (truthy (get res k_sub_category)); [|discriminate].
  simpl.
  destruct (dict_get key_eq_dec m _) as [v|] eqn:E; [|discriminate].
  destruct (originals v) as [om os] eqn:Eo. intros H. injection H as <-.
  exists v. rewrite Eo. repeat split; auto.
Qed.

Lemma validated_fields (lower : str -> str) (m : mapping) (res res' : pydict) :
  canonical_store lower m ->
  validate_classification_result lower m res = Ok res' ->
  exists k e,
    In (k, e) m
    /\ k = (normalize_category lower (original_main e),
            normalize_category lower (original_sub e))
    /\ get res' k_main_category = PStr (original_main e)
    /\ get res' k_sub_category = PStr (original_sub e)
    /\ (forall f, f <> k_main_category -> f <> k_sub_category ->
                  dict_get str_eq_dec res' f = dict_get str_eq_dec res f).
Proof.
  intros Hc H. apply validate_with_inv in H.
  destruct H as [e [_ [_ [Hget ->]]]]. simpl fst. simpl snd.
  pose proof (dict_get_In _ _ _ Hget) as Hin.
  eexists. exists e. split; [exact Hin|].
  split; [exact (proj1 (proj2 Hc _ _ Hin))|].
  split; [|split].
  - rewrite get_set_other by (vm_compute; discriminate). apply get_set_same.
  - apply get_set_same.
  - intros f H1 H2. rewrite dict_get_set_other by exact H2.
    now rewrite dict_get_set_other by exact H1.
Qed.

Lemma validated_member (lower : str -> str) (m : mapping)
    (res res' : pydict) :
  canonical_store lower m ->
  validate_classification_result lower m res = Ok res' ->
  exists e,
    get res' k_main_category = PStr (original_main e)
    /\ get res' k_sub_category = PStr (original_sub e)
    /\ dict_get key_eq_dec m
         (normalize_category lower (py_str (get res' k_main_category)),
          normalize_category lower (py_str (get res' k_sub_category)))
       = Some e.
Proof.
  intros Hc H.
  destruct (@validated_fields lower m res res' Hc H) as [k [e [Hin [Hk [Hm [Hs _]]]]]].
  exists e. split; [exact Hm|]. split; [exact Hs|].
  rewrite Hm, Hs. simpl py_str. rewrite <- Hk.
  exact (@canonical_lookup lower m k e Hc Hin).
Qed.

(** X1.  Against a taxonomy the loader returned, a result that passes
    validation is a member of the taxonomy: its two category fields hold the
    originals of a stored entry, and normalizing them gives that entry's
    key. *)
Theorem validated_result_is_member (lower : str -> str)
    (src : result (list row)) (m : mapping) (res res' : pydict) :
  load_classification_standards lower src = Ok m ->
  validate_classification_result lower m res = Ok res' ->
  exists e,
    get res' k_main_category = PStr (original_main e)
    /\ get res' k_sub_category = PStr (original_sub e)
    /\ dict_get key_eq_dec m
         (normalize_category lower (py_str (get res' k_main_category)),
          normalize_category lower (py_str (get res' k_sub_category)))
       = Some e.
Proof.
  intros Hload H.
  exact (@validated_member lower m res res' (load_canonical lower src Hload) H).
Qed.

Lemma validated_result_is_member_witness :
  load_classification_standards lower_ascii (Ok example_rows)
  = Ok example_mapping
  /\ exists res',
       validate_classification_result lower_ascii example_mapping
         example_candidate = Ok res'
       /\ exists e,
            get res' k_main_category = PStr (original_main e)
            /\ get res' k_sub_category = PStr (original_sub e)
            /\ dict_get key_eq_dec example_mapping
                 (normalize_category lower_ascii
                    (py_str (get res' k_main_category)),
                  normalize_category lower_ascii
                    (py_str (get res' k_sub_category)))
               = Some e.
Proof.
  split; [reflexivity|]. eexists. split; [reflexivity|].
  apply (validated_result_is_member lower_ascii (Ok example_rows)
           example_candidate eq_refl).
  reflexivity.
Defined.

(** X2.  Validation is idempotent on a loaded taxonomy: a result that has
    passed validation passes it again and is not changed by it. *)
Theorem validate_idempotent (lower : str -> str) (src : result (list row))
    (m : mapping) (res res' : pydict) :
  load_classification_standards lower src = Ok m ->
  validate_classification_result lower m res = Ok res' ->
  validate_classification_result lower m res' = Ok res'.
Proof.
  intros Hload H. pose proof (load_canonical lower src Hload) as Hc.
  destruct (@validated_fields lower m res res' Hc H) as [k [e [Hin [Hk [Hm [Hs _]]]]]].
  destruct (proj2 Hc k e Hin) as [_ [Hne1 Hne2]].
  unfold validate_classification_result, validate_with.
  rewrite Hm, Hs. simpl truthy. unfold nonempty in Hne1, Hne2.
  rewrite Hne1, Hne2. simpl. rewrite <- Hk, (@canonical_lookup lower m k e Hc Hin).
  f_equal.
  assert (E1 : dict_set str_eq_dec res' k_main_category
                 (PStr (original_main e)) = res').
  { apply dict_set_same_value. unfold get, get_default in Hm.
    destruct (dict_get str_eq_dec res' k_main_category) as [v|]; congruence. }
  rewrite E1. apply dict_set_same_value. unfold get, get_default in Hs.
  destruct (dict_get str_eq_dec res' k_sub_category) as [v|]; congruence.
Qed.

Lemma validate_idempotent_witness :
  load_classification_standards lower_ascii (Ok example_rows)
  = Ok example_mapping
  /\ exists res',
       validate_classification_result lower_ascii example_mapping
         example_candidate = Ok res'
       /\ validate_classification_result lower_ascii example_mapping res'
          = Ok res'.
Proof.
  split; [reflexivity|]. eexists. split; [reflexivity|].
  apply (validate_idempotent lower_ascii (Ok example_rows) example_candidate
           eq_refl).
  reflexivity.
Defined.

(** ** The retry loop *)

Section RetryFacts.
Variable MAX_RETRIES : nat.
Variable remote : nat -> response.
Variable attempt_body : response -> result pydict.

Lemma retry_from_schedule remaining : forall attempt w,
  attempt + remaining = MAX_RETRIES ->
  exists k,
    k <= remaining
    /\ (remaining = 0 <-> k = 0)
    /\ requests (snd (retry_from MAX_RETRIES remote attempt_body remaining
                        attempt w))
       = requests w + k
    /\ trace (snd (retry_from MAX_RETRIES remote attempt_body remaining
                     attempt w))
       = trace w ++ attempt_schedule (requests w) attempt k
    /\ (fst (retry_from MAX_RETRIES remote attempt_body remaining attempt w)
        = Ok None <-> remaining = 0).
Proof.
  induction remaining as [|rem IH]; intros attempt w Hsum.
  - exists 0. simpl. rewrite app_nil_r, Nat.add_0_r. repeat split; auto.
  - rewrite retry_from_S.
    assert (Hone : forall (r : result (option pydict)) w1,
               requests w1 = S (requests w) ->
               trace w1 = trace w ++ [EvRequest (requests w)] ->
               r <> Ok None ->
               exists k,
                 k <= S rem /\ (S rem = 0 <-> k = 0)
                 /\ requests (snd (r, w1)) = requests w + k
                 /\ trace (snd (r, w1))
                    = trace w ++ attempt_schedule (requests w) attempt k
                 /\ (fst (r, w1) = Ok None <-> S rem = 0)).
    { intros r w1 Hr Ht Hn. exists 1. simpl.
      repeat split; try lia; try (intros; discriminate); auto.
      intros E. contradiction. }
    destruct (attempt_body (remote (requests w))) as [d|e].
    + apply Hone; [reflexivity | reflexivity | discriminate].
    + destruct (MAX_API_FAILURES <=? continuous_api_failures w + 1).
      * apply Hone; [reflexivity | reflexivity | discriminate].
      * destruct (Nat.ltb_spec attempt (MAX_RETRIES - 1)) as [Hlt|Hge].
        -- destruct (IH (S attempt)
                       (log_event (EvBackoff (2 ^ attempt))
                          (set_failures (continuous_api_failures w + 1)
                             (send_request w))))
             as [k [Hk [Hz [Hr [Ht Hn]]]]]; [lia|].
           assert (Hk1 : k <> 0) by (intros E; apply Hz in E; lia).
           exists (S k). split; [lia|]. split; [split; discriminate|].
           split; [rewrite Hr; simpl; lia|]. split.
           ++ rewrite Ht. simpl. rewrite <- !app_assoc. simpl.
              destruct k as [|k']; [congruence | reflexivity].
           ++ rewrite Hn. split; intros; lia.
        -- apply Hone; [reflexivity | reflexivity | discriminate].
Qed.

Lemma retry_from_recovers remaining : forall attempt w j d,
  attempt + remaining = MAX_RETRIES ->
  j < remaining ->
  continuous_api_failures w + j < MAX_API_FAILURES ->
  (forall i, i < j ->
     exists e, attempt_body (remote (requests w + i)) = Raise e) ->
  attempt_body (remote (requests w + j)) = Ok d ->
  exists w',
    retry_from MAX_RETRIES remote attempt_body remaining attempt w
    = (Ok (Some d), w')
    /\ continuous_api_failures w' = 0
    /\ requests w' = requests w + S j
    /\ trace w' = trace w ++ attempt_schedule (requests w) attempt (S j).
Proof.
  induction remaining as [|rem IH]; intros attempt w j d Hsum Hj Hc Hfail Hok;
    [lia|].
  rewrite retry_from_S. destruct j as [|j].
  - rewrite Nat.add_0_r in Hok. rewrite Hok.
    eexists. split; [reflexivity|]. simpl. repeat split; lia.
  - destruct (Hfail 0 (Nat.lt_0_succ _)) as [e He].
    rewrite Nat.add_0_r in He. rewrite He.
    destruct (Nat.leb_spec MAX_API_FAILURES (continuous_api_failures w + 1));
      [lia|].
    destruct (Nat.ltb_spec attempt (MAX_RETRIES - 1)); [|lia].
    destruct (IH (S attempt)
                (log_event (EvBackoff (2 ^ attempt))
                   (set_failures (continuous_api_failures w + 1)
                      (send_request w))) j d)
      as [w' [E [Hf [Hr Ht]]]].
    + lia.
    + lia.
    + cbn [continuous_api_failures log_event set_failures send_request]. lia.
    + intros i Hi. cbn [requests log_event set_failures send_request].
      replace (S (requests w) + i) with (requests w + S i) by lia.
      apply Hfail. lia.
    + cbn [requests log_event set_failures send_request].
      replace (S (requests w) + j) with (requests w + S j) by lia. exact Hok.
    + exists w'. split; [exact E|]. split; [exact Hf|]. split.
      * rewrite Hr. cbn [requests log_event set_failures send_request]. lia.
      * rewrite Ht. cbn [trace requests log_event set_failures send_request].
        rewrite <- !app_assoc. reflexivity.
Qed.

Lemma retry_from_ok_inv remaining : forall attempt w d w',
  retry_from MAX_RETRIES remote attempt_body remaining attempt w
  = (Ok (Some d), w') ->
  continuous_api_failures w' = 0
  /\ requests w < requests w'
  /\ attempt_body (remote (requests w' - 1)) = Ok d.
Proof.
  induction remaining as [|rem IH]; intros attempt w d w'; [discriminate|].
  rewrite retry_from_S.
  destruct (attempt_body (remote (requests w))) as [d0|e] eqn:E.
  - intros H. injection H as <- <-.
    cbn [continuous_api_failures requests set_failures send_request].
    rewrite Nat.sub_succ, Nat.sub_0_r. auto.
  - destruct (MAX_API_FAILURES <=? continuous_api_failures w + 1);
      [discriminate|].
    destruct (attempt <? MAX_RETRIES - 1); [|discriminate].
    intros H. apply IH in H. destruct H as [H1 [H2 H3]].
    cbn [requests log_event set_failures send_request] in H2.
    split; [exact H1|]. split; [lia | exact H3].
Qed.
End RetryFacts.

(** X3.  One call of [_call_deepseek_api] sends at least one and at most
    [MAX_RETRIES] requests, one after the other, and sleeps between two
    attempts only, 1, 2, 4, ... seconds; it returns [None] exactly when
    [MAX_RETRIES] is zero, in which case it sends nothing. *)
Theorem call_follows_backoff_schedule (MAX_RETRIES : nat)
    (remote : nat -> response) (attempt_body : response -> result pydict)
    (w : world) :
  let run := _call_deepseek_api MAX_RETRIES remote attempt_body w in
  exists k,
    k <= MAX_RETRIES
    /\ (MAX_RETRIES = 0 <-> k = 0)
    /\ requests (snd run) = requests w + k
    /\ trace (snd run) = trace w ++ attempt_schedule (requests w) 0 k
    /\ (fst run = Ok None <-> MAX_RETRIES = 0).
Proof.
  intros run. subst run. unfold _call_deepseek_api.
  apply retry_from_schedule. reflexivity.
Qed.

(** X4.  If the first [j] replies to a call are failed attempts and the next
    one succeeds, with [j] below [MAX_RETRIES] and below what is left up to
    the failure ceiling, the call returns the result of that attempt after
    [j + 1] requests and [j] back-offs, and leaves the failure counter at
    zero. *)
Theorem call_recovers_after_failures (MAX_RETRIES : nat)
    (remote : nat -> response) (attempt_body : response -> result pydict)
    (w : world) (j : nat) (d : pydict) :
  j < MAX_RETRIES ->
  continuous_api_failures w + j < MAX_API_FAILURES ->
  (forall i, i < j ->
     exists e, attempt_body (remote (requests w + i)) = Raise e) ->
  attempt_body (remote (requests w + j)) = Ok d ->
  exists w',
    _call_deepseek_api MAX_RETRIES remote attempt_body w = (Ok (Some d), w')
    /\ continuous_api_failures w' = 0
    /\ requests w' = requests w + S j
    /\ trace w' = trace w ++ attempt_schedule (requests w) 0 (S j).
Proof.
  intros Hj Hc Hfail Hok. unfold _call_deepseek_api.
  apply retry_from_recovers; auto.
Qed.

Lemma call_recovers_after_failures_witness :
  let w := {| continuous_api_failures := 0; requests := 4; trace := [] |} in
  exists w',
    _call_deepseek_api 3 recovering_remote (attempt_web example_json_loads) w
    = (Ok (Some (dict_set str_eq_dec (classification_dict "X2" "Y2")
                   k_classification_source (PStr (lit "deepseek_api")))), w')
    /\ continuous_api_failures w' = 0
    /\ requests w' = 6
    /\ trace w' = [EvRequest 4; EvBackoff 1; EvRequest 5].
Proof.
  intros w.
  apply (@call_recovers_after_failures 3 recovering_remote
           (attempt_web example_json_loads) w 1).
  - repeat constructor.
  - repeat constructor.
  - intros i Hi. exists (ClientError (lit "timeout")).
    destruct i as [|i]; [reflexivity|].
    exfalso. apply (Nat.nlt_0_r i). apply (proj2 (Nat.succ_lt_mono i 0)).
    exact Hi.
  - reflexivity.
Defined.

(** ** What a remote attempt and a classification return *)

Lemma attempt_web_source (json_loads : str -> loads)
    (r : response) (d : pydict) :
  attempt_web json_loads r = Ok d ->
  get d k_classification_source = PStr (lit "deepseek_api").
Proof.
  unfold attempt_web. destruct r as [msg|content]; [discriminate|].
  destruct (parse_content json_loads content) as [p|e]; [|discriminate].
  unfold checked_result. destruct p as [d0|]; [|discriminate].
  destruct (negb _ || negb _); [discriminate|].
  intros H. injection H as <-. apply get_set_same.
Qed.

(** X5.  A remote attempt of the web variant that succeeds had a truthy
    reply, and its result is a dict that has both category keys and carries
    the provenance tag [deepseek_api]. *)
Theorem attempt_result_shape (json_loads : str -> loads)
    (r : response) (d : pydict) :
  attempt_web json_loads r = Ok d ->
  (exists content, r = Content content /\ truthy content = true)
  /\ dict_mem str_eq_dec d k_main_category = true
  /\ dict_mem str_eq_dec d k_sub_category = true
  /\ get d k_classification_source = PStr (lit "deepseek_api").
Proof.
  unfold attempt_web. destruct r as [msg|content]; [discriminate|].
  destruct (parse_content json_loads content) as [p|e] eqn:Ep; [|discriminate].
  unfold checked_result. destruct p as [d0|]; [|discriminate].
  destruct (dict_mem str_eq_dec d0 k_main_category) eqn:Em; [|discriminate].
  destruct (dict_mem str_eq_dec d0 k_sub_category) eqn:Es; [|discriminate].
  simpl. intros H. injection H as <-. split; [|split; [|split]].
  - exists content. split; [reflexivity|].
    unfold parse_content in Ep.
    destruct (truthy content); [reflexivity | discriminate].
  - unfold dict_mem in *.
    rewrite dict_get_set_other by (vm_compute; discriminate). exact Em.
  - unfold dict_mem in *.
    rewrite dict_get_set_other by (vm_compute; discriminate). exact Es.
  - apply get_set_same.
Qed.

Lemma attempt_result_shape_witness :
  attempt_web example_json_loads (Content (PStr two_objects))
  = Ok (dict_set str_eq_dec (classification_dict "X2" "Y2")
          k_classification_source (PStr (lit "deepseek_api")))
  /\ get (dict_set str_eq_dec (classification_dict "X2" "Y2")
            k_classification_source (PStr (lit "deepseek_api")))
       k_classification_source
     = PStr (lit "deepseek_api").
Proof.
  split; [reflexivity|].
  apply (@attempt_result_shape example_json_loads
           (Content (PStr two_objects)) _ eq_refl).
Defined.

(** X6.  Against a loaded taxonomy, a classification that succeeds is a
    member of the taxonomy, and it came either from the keyword matcher, with
    no request sent and the world left as it was, or from a remote attempt,
    with at least one request sent and the failure counter at zero. *)
Theorem classification_is_member_with_provenance (lower : str -> str)
    (json_loads : str -> loads) (MAX_RETRIES : nat)
    (remote : nat -> response) (src : result (list row)) (m : mapping)
    (material_data : pydict) (w w' : world) (res : pydict) :
  load_classification_standards lower src = Ok m ->
  classify_material lower json_loads MAX_RETRIES remote m material_data w
  = (Ok res, w') ->
  (exists e,
      get res k_main_category = PStr (original_main e)
      /\ get res k_sub_category = PStr (original_sub e)
      /\ dict_get key_eq_dec m
           (normalize_category lower (py_str (get res k_main_category)),
            normalize_category lower (py_str (get res k_sub_category)))
         = Some e)
  /\ ((get res k_classification_source = PStr (lit "keyword_matcher")
       /\ w' = w)
      \/ (get res k_classification_source = PStr (lit "deepseek_api")
          /\ requests w < requests w'
          /\ continuous_api_failures w' = 0)).
Proof.
  intros Hload. unfold classify_material.
  pose proof (load_canonical lower src Hload) as Hc.
  destruct (match_by_keywords_and_brand lower m (formatted_data material_data))
    as [found|] eqn:Em.
  - intros H. injection H as Hv <-.
    split; [exact (@validated_member lower m _ res Hc Hv)|].
    left. split; [|reflexivity].
    pose proof (@match_by_keywords_and_brand_from_store lower m _ _ Em) as Hf.
    rewrite (@validate_from_store lower m found Hc Hf) in Hv.
    injection Hv as <-. reflexivity.
  - destruct (_call_deepseek_api MAX_RETRIES remote (attempt_web json_loads) w)
      as [[[d|]|e] w1] eqn:Ecall; intros H; injection H as Hv <-;
      try discriminate.
    split; [exact (@validated_member lower m _ res Hc Hv)|].
    right. unfold _call_deepseek_api in Ecall.
    apply retry_from_ok_inv in Ecall. destruct Ecall as [Hf [Hr Hbody]].
    pose proof (attempt_web_source _ _ Hbody) as Hsrc.
    split; [|split; [exact Hr | exact Hf]].
    destruct (@validated_fields lower m d res Hc Hv)
      as [k [e [_ [_ [_ [_ Hother]]]]]].
    unfold get, get_default in Hsrc |- *.
    rewrite Hother by (vm_compute; discriminate). exact Hsrc.
Qed.

Lemma classification_is_member_with_provenance_witness :
  load_classification_standards lower_ascii (Ok example_rows)
  = Ok example_mapping
  /\ classify_material lower_ascii example_json_loads 3 dead_remote
       example_mapping plc_record initial_world
     = (Ok (keyword_result (lit "PLC / IO Module", lit "Cabinet")),
        initial_world)
  /\ exists e,
       get (keyword_result (lit "PLC / IO Module", lit "Cabinet"))
         k_main_category = PStr (original_main e)
       /\ get (keyword_result (lit "PLC / IO Module", lit "Cabinet"))
            k_sub_category = PStr (original_sub e)
       /\ dict_get key_eq_dec example_mapping
            (normalize_category lower_ascii
               (py_str (get (keyword_result
                               (lit "PLC / IO Module", lit "Cabinet"))
                          k_main_category)),
             normalize_category lower_ascii
               (py_str (get (keyword_result
                               (lit "PLC / IO Module", lit "Cabinet"))
                          k_sub_category)))
          = Some e.
Proof.
  split; [reflexivity|]. split; [reflexivity|].
  apply (proj1 (@classification_is_member_with_provenance lower_ascii
                  example_json_loads 3 dead_remote (Ok example_rows)
                  example_mapping plc_record initial_world initial_world
                  (keyword_result (lit "PLC / IO Module", lit "Cabinet"))
                  eq_refl eq_refl)).
Defined.

(** ** The keyword matcher *)

Lemma startswith_iff p : forall s,
  startswith p s = true <-> exists b, s = p ++ b.
Proof.
  induction p as [|a p IH]; intros s; simpl.
  - split; [intros _; now exists s | reflexivity].
  - destruct s as [|c s].
    + split; [discriminate | intros [b H]; discriminate].
    + rewrite andb_true_iff, N.eqb_eq, IH. split.
      * intros [-> [b ->]]. now exists b.
      * intros [b H]. injection H as -> ->. split; [reflexivity | now exists b].
Qed.

Lemma contains_infix p : forall s, contains p s = true <-> infix p s.
Proof.
  unfold infix. induction s as [|c s IH].
  - simpl. rewrite orb_false_r, startswith_iff. split.
    + intros [b H]. exists [], b. exact H.
    + intros [a [b H]]. destruct a; [now exists b | discriminate].
  - simpl. rewrite orb_true_iff, startswith_iff, IH. split.
    + intros [[b H]|[a [b H]]].
      * exists [], b. exact H.
      * exists (c :: a), b. simpl. now f_equal.
    + intros [a [b H]]. destruct a as [|x a].
      * left. now exists b.
      * right. injection H as -> ->. now exists a, b.
Qed.

Lemma stripped_items_nil : stripped_items [] = [].
Proof. reflexivity. Qed.

(** X7.  [match_keywords] returns exactly the entries one of whose keywords
    occurs in the field: a triple is among the matches if and only if the
    field value is truthy, its normalized text is not empty, and the triple
    is that of a stored entry with a keyword whose non-empty normalized text
    is a contiguous part of the normalized field text. *)
Theorem match_keywords_iff (lower : str -> str) (m : mapping)
    (material_name : pyval) (mt : match_t) :
  In mt (match_keywords lower m material_name)
  <-> truthy material_name = true
      /\ _normalize_text lower material_name <> []
      /\ exists k e keyword,
           In (k, e) m
           /\ mt = (original_main e, original_sub e, common_brands e)
           /\ In keyword (stripped_items (keywords e))
           /\ _normalize_text lower (PStr keyword) <> []
           /\ infix (_normalize_text lower (PStr keyword))
                (_normalize_text lower material_name).
Proof.
  unfold match_keywords, nonempty, str_eqb.
  destruct (truthy material_name); simpl;
    [|split; [intros [] | intros [H _]; discriminate]].
  destruct (str_eq_dec (_normalize_text lower material_name) []) as [E|E];
    simpl; [split; [intros [] | intros [_ [H _]]; contradiction]|].
  rewrite in_flat_map. split.
  - intros [[k e] [Hin H]]. split; [reflexivity|]. split; [exact E|].
    exists k, e. simpl in H. unfold entry_matches in H.
    destruct (negb (nonempty (keywords e))); [destruct H|].
    assert (H' : In mt
                   (flat_map
                      (fun keyword =>
                         if negb (nonempty (_normalize_text lower (PStr keyword)))
                         then []
                         else if contains (_normalize_text lower (PStr keyword))
                                   (_normalize_text lower material_name)
                              then [(original_main e, original_sub e,
                                     common_brands e)]
                              else [])
                      (stripped_items (keywords e)))).
    { destruct (stripped_items (keywords e)); [destruct H | exact H]. }
    apply in_flat_map in H'. destruct H' as [keyword [Hk Hm]].
    exists keyword. unfold nonempty, str_eqb in Hm.
    destruct (str_eq_dec (_normalize_text lower (PStr keyword)) []) as [E0|E0];
      [destruct Hm|]. simpl in Hm.
    destruct (contains _ _) eqn:Ec; [|destruct Hm].
    destruct Hm as [<-|[]]. apply contains_infix in Ec. auto.
  - intros [_ [_ [k [e [keyword [Hin [-> [Hk [Hne Hinf]]]]]]]]].
    exists (k, e). split; [exact Hin|]. simpl. unfold entry_matches.
    assert (Hkw : nonempty (keywords e) = true).
    { unfold nonempty, str_eqb. destruct (str_eq_dec (keywords e) []) as [E0|];
        [|reflexivity]. rewrite E0 in Hk. destruct Hk. }
    rewrite Hkw. simpl.
    assert (H' : In (original_main e, original_sub e, common_brands e)
                   (flat_map
                      (fun keyword =>
                         if negb (nonempty (_normalize_text lower (PStr keyword)))
                         then []
                         else if contains (_normalize_text lower (PStr keyword))
                                   (_normalize_text lower material_name)
                              then [(original_main e, original_sub e,
                                     common_brands e)]
                              else [])
                      (stripped_items (keywords e)))).
    { apply in_flat_map. exists keyword. split; [exact Hk|].
      unfold nonempty, str_eqb.
      destruct (str_eq_dec (_normalize_text lower (PStr keyword)) []);
        [contradiction|]. simpl.
      apply contains_infix in Hinf. rewrite Hinf. now left. }
    destruct (stripped_items (keywords e)); [destruct Hk | exact H'].
Qed.

Lemma add_unseen_inv matches : forall acc,
  snd acc = map category_of (fst acc) ->
  NoDup (snd acc) ->
  snd (add_unseen matches acc) = map category_of (fst (add_unseen matches acc))
  /\ NoDup (snd (add_unseen matches acc))
  /\ (forall c, In c (snd (add_unseen matches acc))
                <-> In c (snd acc) \/ In c (map category_of matches)).
Proof.
  induction matches as [|mt rest IH]; intros acc Hs Hn; simpl.
  - split; [exact Hs|]. split; [exact Hn|]. intros c. tauto.
  - destruct (in_dec key_eq_dec (category_of mt) (snd acc)) as [Hin|Hin].
    + destruct (IH acc Hs Hn) as [H1 [H2 H3]].
      split; [exact H1|]. split; [exact H2|]. intros c. rewrite H3.
      split; [tauto|]. intros [H|[<-|H]]; auto.
    + destruct (IH (fst acc ++ [mt], snd acc ++ [category_of mt]))
        as [H1 [H2 H3]].
      * simpl. rewrite map_app, Hs. reflexivity.
      * simpl. apply NoDup_app; [exact Hn | repeat constructor; intros [] |].
        intros x Hx [<-|[]]. contradiction.
      * split; [exact H1|]. split; [exact H2|]. intros c. rewrite H3.
        simpl. rewrite in_app_iff. simpl. tauto.
Qed.

Lemma distinct_matches_facts matches :
  NoDup (map category_of (distinct_matches matches))
  /\ (forall c, In c (map category_of (distinct_matches matches))
                <-> In c (map category_of matches))
  /\ hd_error (distinct_matches matches) = hd_error matches.
Proof.
  unfold distinct_matches.
  destruct (@add_unseen_inv matches ([], []) eq_refl (NoDup_nil _))
    as [H1 [H2 H3]].
  rewrite <- H1. split; [exact H2|]. split.
  - intros c. rewrite H3. simpl. tauto.
  - destruct matches as [|mt rest]; [reflexivity|]. simpl.
    destruct (add_unseen_extends rest ([mt], [category_of mt])) as [more E].
    rewrite E. reflexivity.
Qed.

(** X8.  The candidates [match_by_multiple_fields] returns are those of one
    field, in which each category occurs once: the categories are pairwise
    distinct, they are exactly the categories that field matched, and the
    first candidate is the first match of that field. *)
Theorem candidates_are_distinct (lower : str -> str) (m : mapping)
    (material_data : pydict) :
  let result := match_by_multiple_fields lower m material_data in
  NoDup (map category_of result)
  /\ exists field,
       (field = field_material_name \/ field = field_model
        \/ field = field_brand \/ field = field_material)
       /\ hd_error result
          = hd_error (match_keywords lower m (field material_data))
       /\ (forall c,
              In c (map category_of result)
              <-> In c (map category_of
                          (match_keywords lower m (field material_data)))).
Proof.
  intros result. subst result.
  pose proof (match_by_multiple_fields_cases lower m material_data) as Hc.
  cbv zeta in Hc. rewrite Hc. clear Hc.
  assert (H : forall field,
             (field = field_material_name \/ field = field_model
              \/ field = field_brand \/ field = field_material) ->
             NoDup (map category_of
                      (distinct_matches
                         (match_keywords lower m (field material_data))))
             /\ exists field0,
                  (field0 = field_material_name \/ field0 = field_model
                   \/ field0 = field_brand \/ field0 = field_material)
                  /\ hd_error (distinct_matches
                                 (match_keywords lower m (field material_data)))
                     = hd_error (match_keywords lower m (field0 material_data))
                  /\ (forall c,
                         In c (map category_of
                                 (distinct_matches
                                    (match_keywords lower m
                                       (field material_data))))
                         <-> In c (map category_of
                                     (match_keywords lower m
                                        (field0 material_data))))).
  { intros field Hf.
    destruct (distinct_matches_facts
                (match_keywords lower m (field material_data)))
      as [H1 [H2 H3]].
    split; [exact H1|]. exists field. auto. }
  repeat match goal with
  | |- context [if ?b then _ else _] => destruct b
  end; apply H; auto.
Qed.

(** X9.  The pair [match_by_keywords_and_brand] returns is the category of
    one of the candidates of the keyword pass, and it returns nothing exactly
    when the keyword pass found no candidate. *)
Theorem chosen_is_a_candidate (lower : str -> str) (m : mapping)
    (material_data : pydict) :
  let candidates := match_by_multiple_fields lower m material_data in
  let chosen := match_by_keywords_and_brand lower m material_data in
  (forall found, chosen = Some found ->
                 In found (map category_of candidates))
  /\ (chosen = None <-> candidates = []).
Proof.
  intros candidates chosen. subst chosen.
  unfold match_by_keywords_and_brand. fold candidates.
  destruct candidates as [|first [|second rest]].
  - split; [discriminate | tauto].
  - split; [|split; discriminate].
    intros found H. injection H as <-. now left.
  - destruct (negb _).
    + split; [|split; discriminate].
      intros found H. injection H as <-. now left.
    + destruct (brand_matches lower _ (first :: second :: rest))
        as [|bm bms] eqn:Eb.
      * split; [|split; discriminate].
        intros found H. injection H as <-. now left.
      * split; [|split; discriminate].
        intros found H. injection H as <-.
        assert (Hbm : In bm (brand_matches lower
                               (_normalize_text lower (field_brand material_data))
                               (first :: second :: rest))).
        { rewrite Eb. now left. }
        unfold brand_matches in Hbm. apply in_map_iff in Hbm.
        destruct Hbm as [mt [<- Hmt]]. apply filter_In in Hmt.
        apply in_map. exact (proj1 Hmt).
Qed.

Lemma split_on_free sep s : forall cur x,
  (forall c, In c cur -> sep c = false) ->
  In x (split_on sep cur s) -> forall c, In c x -> sep c = false.
Proof.
  induction s as [|a s IH]; intros cur x Hcur; simpl.
  - intros [<-|[]] c Hc. apply Hcur. now apply in_rev.
  - destruct (sep a) eqn:Ea.
    + intros [<-|H] c Hc.
      * apply Hcur. now apply in_rev.
      * apply (IH [] x); [intros ? [] | exact H | exact Hc].
    + apply IH. intros c [<-|Hc]; [exact Ea | now apply Hcur].
Qed.

Lemma strip_strip s : strip (strip s) = strip s.
Proof. apply strip_fixed; [apply clean_head_strip | apply clean_last_strip]. Qed.

(** X10.  Every keyword or brand the matcher takes from a cell is a
    non-empty text without leading or trailing whitespace and without any of
    the three separators. *)
Theorem stripped_items_are_trimmed (s x : str) :
  In x (stripped_items s) ->
  x <> []
  /\ strip x = x
  /\ clean_head x = true /\ clean_head (rev x) = true
  /\ (forall c, In c x -> is_list_separator c = false).
Proof.
  unfold stripped_items. intros H. apply in_map_iff in H.
  destruct H as [piece [<- Hp]]. apply filter_In in Hp.
  destruct Hp as [Hin Hne]. split; [|split; [|split; [|split]]].
  - unfold str_eqb in Hne. destruct (str_eq_dec (strip piece) []);
      [discriminate | assumption].
  - apply strip_strip.
  - apply clean_head_strip.
  - apply clean_last_strip.
  - intros c Hc. apply In_strip in Hc. unfold re_split_separators in Hin.
    apply (@split_on_free is_list_separator s [] piece); auto.
    intros ? [].
Qed.

Lemma stripped_items_are_trimmed_witness :
  In (lit "Festo") (stripped_items (lit "SMC, Festo"))
  /\ lit "Festo" <> []
  /\ strip (lit "Festo") = lit "Festo".
Proof.
  assert (H : In (lit "Festo") (stripped_items (lit "SMC, Festo"))).
  { right. left. reflexivity. }
  split; [exact H|].
  destruct (@stripped_items_are_trimmed (lit "SMC, Festo") (lit "Festo") H)
    as [H1 [H2 _]].
  split; [exact H1 | exact H2].
Defined.

(** ** The earlier matcher and the web matcher *)

Lemma legacy_entry_matches lower n (e : entry) :
  map (fun t : str * str * str => (fst (fst t), snd (fst t)))
    (Legacy.entry_matches lower n
       (original_main e, original_sub e, keywords e, explanation e))
  = map category_of (entry_matches lower n e).
Proof.
  unfold Legacy.entry_matches, entry_matches.
  destruct (negb (nonempty (keywords e))); [reflexivity|].
  destruct (stripped_items (keywords e)) as [|kw kws]; [reflexivity|].
  generalize (kw :: kws). intros l.
  induction l as [|x l IH]; [reflexivity|].
  simpl. rewrite !map_app, IH. f_equal.
  destruct (negb _); [reflexivity|]. destruct (contains _ n); reflexivity.
Qed.

Lemma legacy_flat_map lower n (m : mapping) :
  map (fun t : str * str * str => (fst (fst t), snd (fst t)))
    (flat_map (fun kv => Legacy.entry_matches lower n (snd kv))
       (without_brands m))
  = map category_of (flat_map (fun kv => entry_matches lower n (snd kv)) m).
Proof.
  induction m as [|[k e] m IH]; [reflexivity|].
  simpl. rewrite !map_app, IH. f_equal. apply legacy_entry_matches.
Qed.

Lemma legacy_match_keywords lower (m : mapping) v :
  Legacy.match_keywords lower (without_brands m) v
  = option_map category_of (hd_error (match_keywords lower m v)).
Proof.
  unfold Legacy.match_keywords, match_keywords.
  destruct (negb (truthy v)); [reflexivity|].
  destruct (negb (nonempty (_normalize_text lower v))); [reflexivity|].
  pose proof (legacy_flat_map lower (_normalize_text lower v) m) as H.
  destruct (flat_map (fun kv => Legacy.entry_matches lower _ (snd kv))
              (without_brands m)) as [|t ts];
    destruct (flat_map (fun kv => entry_matches lower _ (snd kv)) m)
      as [|mt mts]; simpl in H; try discriminate; [reflexivity|].
  injection H as H1 H2 _. simpl. unfold category_of. now rewrite H1, H2.
Qed.

(** X11.  On the same entries the earlier matcher of
    [code/material_classifier] answers with the category of the first
    candidate of the web matcher's keyword pass, and with nothing when that
    pass finds no candidate. *)
Theorem legacy_matcher_is_first_candidate (lower : str -> str) (m : mapping)
    (material_data : pydict) :
  Legacy.match_by_multiple_fields lower (without_brands m) material_data
  = option_map category_of
      (hd_error (match_by_multiple_fields lower m material_data)).
Proof.
  pose proof (match_by_multiple_fields_cases lower m material_data) as Hc.
  cbv zeta in Hc. rewrite Hc. clear Hc.
  unfold Legacy.match_by_multiple_fields. rewrite !legacy_match_keywords.
  assert (Hd : forall l, hd_error (distinct_matches l) = hd_error l).
  { intros l. apply distinct_matches_facts. }
  destruct (match_keywords lower m (field_material_name material_data))
    as [|a la] eqn:E1; simpl.
  - destruct (match_keywords lower m (field_model material_data))
      as [|b lb] eqn:E2; simpl.
    + destruct (match_keywords lower m (field_brand material_data))
        as [|c lc] eqn:E3; simpl.
      * now rewrite Hd.
      * rewrite Hd. reflexivity.
    + rewrite Hd. reflexivity.
  - rewrite Hd. reflexivity.
Qed.

(** ** The text handed to the parser *)

Lemma infix_refl s : infix s s.
Proof. exists [], []. now rewrite app_nil_r. Qed.

Lemma infix_trans u t s : infix u t -> infix t s -> infix u s.
Proof.
  intros [a [b ->]] [a' [b' ->]]. exists (a' ++ a), (b ++ b').
  now rewrite <- !app_assoc.
Qed.

Lemma infix_cons p c s : infix p s -> infix p (c :: s).
Proof. intros [a [b ->]]. now exists (c :: a), b. Qed.

Lemma infix_app_l p a s : infix p s -> infix p (a ++ s).
Proof. intros [a' [b ->]]. exists (a ++ a'), b. now rewrite <- app_assoc. Qed.

Lemma findall_lazy_infix open close s : forall pending x,
  In x (findall_lazy_from open close pending s) ->
  infix x (match pending with
           | Some acc => rev acc ++ s
           | None => s
           end).
Proof.
  induction s as [|c s IH]; intros pending x; simpl; [intros []|].
  destruct pending as [acc|].
  - destruct (c =? close)%N.
    + intros [<-|H].
      * exists [], s. simpl. now rewrite <- app_assoc.
      * apply infix_app_l, infix_cons. exact (IH None x H).
    + intros H. apply (IH (Some (c :: acc))) in H. simpl in H.
      now rewrite <- app_assoc in H.
  - destruct (c =? open)%N; intros H.
    + exact (IH (Some [c]) x H).
    + apply infix_cons. exact (IH None x H).
Qed.

Lemma last_match_In l x : last_match l = Some x -> In x l.
Proof.
  destruct l as [|a l]; simpl; [discriminate|]. intros H. injection H as <-.
  induction l as [|b l IH]; [now left|].
  destruct l as [|c l]; [right; now left|].
  change (last (b :: c :: l) a) with (last (c :: l) a).
  destruct IH as [IH|IH]; [left; exact IH | right; right; exact IH].
Qed.

Lemma json_part_infix cleaned : infix (json_part cleaned) cleaned.
Proof.
  unfold json_part.
  destruct (last_match (findall_lazy LBRACE RBRACE cleaned)) as [x|] eqn:E1.
  - apply last_match_In in E1.
    exact (findall_lazy_infix _ _ _ None _ E1).
  - destruct (last_match (findall_lazy LBRACKET RBRACKET cleaned))
      as [x|] eqn:E2.
    + apply last_match_In in E2.
      exact (findall_lazy_infix _ _ _ None _ E2).
    + apply infix_refl.
Qed.

(** X12.  The extractor never parses text that is not in the reply: the
    cleaned reply is a contiguous part of the reply, and the text handed to
    the second [json.loads] is a contiguous part of the cleaned reply. *)
Theorem parsed_text_is_part_of_reply (content : str) :
  infix (clean_content content) content
  /\ infix (json_part (clean_content content)) (clean_content content)
  /\ infix (json_part (clean_content content)) content.
Proof.
  assert (H1 : infix (clean_content content) content).
  { destruct (clean_content_trims content) as [a [b [E _]]]. now exists a, b. }
  split; [exact H1|]. split; [apply json_part_infix|].
  exact (infix_trans (json_part_infix _) H1).
Qed.

(** ** More on the loader *)

Lemma dict_set_length (K V : Type)
    (K_eq_dec : forall a b : K, {a = b} + {a <> b}) (d : dict K V) k v :
  List.length (dict_set K_eq_dec d k v) <= S (List.length d).
Proof.
  induction d as [|[k' v'] d IH]; simpl; [lia|].
  destruct (K_eq_dec k k'); simpl; lia.
Qed.

Lemma load_row_length lower st r st' :
  load_row lower st r = Ok st' ->
  List.length (snd st') <= S (List.length (snd st)).
Proof.
  unfold load_row.
  destruct (cell r 1); [|discriminate]. destruct (cell r 2); [|discriminate].
  destruct (cell r 3); [|discriminate]. destruct (cell r 4); [|discriminate].
  destruct (cell r 5); [|discriminate].
  destruct (if nonempty (clean_cell a) then Some (clean_cell a) else fst st)
    as [cm|].
  - destruct (nonempty cm && nonempty (clean_cell a0)); intros H;
      injection H as <-; simpl; [apply dict_set_length | lia].
  - intros H. injection H as <-. simpl. lia.
Qed.

Lemma load_rows_length lower rows : forall st st',
  load_rows lower st rows = Ok st' ->
  List.length (snd st') <= List.length (snd st) + List.length rows.
Proof.
  induction rows as [|r rows IH]; intros st st'; simpl.
  - intros H. injection H as <-. lia.
  - destruct (load_row lower st r) as [st1|] eqn:E; [|discriminate].
    intros H. apply IH in H. apply load_row_length in E. lia.
Qed.

(** X13.  A mapping the loader returns has pairwise distinct keys, at most
    one entry per row of the table, and no empty original name. *)
Theorem loaded_mapping_is_well_formed (lower : str -> str)
    (rows : list row) (m : mapping) :
  load_classification_standards lower (Ok rows) = Ok m ->
  NoDup (dict_keys m)
  /\ List.length m <= List.length rows
  /\ (forall k e, In (k, e) m ->
        original_main e <> [] /\ original_sub e <> []).
Proof.
  intros Hload. pose proof (load_canonical lower (Ok rows) Hload) as [Hn Hc].
  split; [exact Hn|]. split.
  - unfold load_classification_standards in Hload.
    destruct (load_rows lower (None, []) rows) as [[cur m']|] eqn:E;
      [|discriminate].
    apply load_rows_length in E. simpl in E.
    destruct m'; [discriminate|]. injection Hload as <-. exact E.
  - intros k e Hin. destruct (Hc k e Hin) as [_ [H1 H2]].
    unfold nonempty, str_eqb in H1, H2.
    destruct (str_eq_dec (original_main e) []); [discriminate|].
    destruct (str_eq_dec (original_sub e) []); [discriminate|]. auto.
Qed.

Lemma loaded_mapping_is_well_formed_witness :
  load_classification_standards lower_ascii (Ok example_rows)
  = Ok example_mapping
  /\ NoDup (dict_keys example_mapping)
  /\ List.length example_mapping <= List.length example_rows.
Proof.
  split; [reflexivity|].
  destruct (@loaded_mapping_is_well_formed lower_ascii example_rows
              example_mapping eq_refl) as [H1 [H2 _]].
  split; [exact H1 | exact H2].
Defined.

Lemma assign_all_snoc (E : Type) (kvs : list (key * E)) kv m0 :
  assign_all (kvs ++ [kv]) m0
  = dict_set key_eq_dec (assign_all kvs m0) (fst kv) (snd kv).
Proof. unfold assign_all. now rewrite fold_left_app. Qed.

Lemma dict_get_assign_all (E : Type) (kvs : list (key * E)) m0 k :
  dict_get key_eq_dec (assign_all kvs m0) k
  = match last_assigned k kvs with
    | Some v => Some v
    | None => dict_get key_eq_dec m0 k
    end.
Proof.
  induction kvs as [|kv kvs IH] using rev_ind; [reflexivity|].
  rewrite assign_all_snoc. unfold last_assigned. rewrite rev_app_distr.
  simpl. destruct (key_eq_dec (fst kv) k) as [E0|E0].
  - subst k. simpl. apply dict_get_set_same.
  - rewrite dict_get_set_other by congruence. exact IH.
Qed.

(** X14.  When several rows of a six-column table give the same normalized
    pair, the mapping holds the entry of the last of them: a lookup returns
    the value last assigned to the key among the contributions of the rows,
    and nothing for a key no row contributes. *)
Theorem later_row_replaces_earlier (lower : str -> str) (rows : list row)
    (m : mapping) (k : key) :
  six_columns rows ->
  load_classification_standards lower (Ok rows) = Ok m ->
  dict_get key_eq_dec m k
  = last_assigned k (contributions entry_of_row lower rows).
Proof.
  intros Hw Hload. unfold load_classification_standards in Hload.
  rewrite (load_rows_spec lower Hw) in Hload.
  destruct (assign_all (contributions entry_of_row lower rows) []) eqn:E;
    [discriminate|].
  injection Hload as <-. rewrite <- E, dict_get_assign_all.
  now destruct (last_assigned k (contributions entry_of_row lower rows)).
Qed.

Lemma later_row_replaces_earlier_witness :
  six_columns respelled_rows
  /\ load_classification_standards lower_ascii (Ok respelled_rows)
     = Ok [((lit "robot", lit "sixaxis"),
            example_entry "ROBOT" "six axis" "arm" [] [])]
  /\ dict_get key_eq_dec
       [((lit "robot", lit "sixaxis"),
         example_entry "ROBOT" "six axis" "arm" [] [])]
       (lit "robot", lit "sixaxis")
     = last_assigned (lit "robot", lit "sixaxis")
         (contributions entry_of_row lower_ascii respelled_rows).
Proof.
  assert (Hw : six_columns respelled_rows) by repeat constructor.
  split; [exact Hw|]. split; [reflexivity|].
  apply (@later_row_replaces_earlier lower_ascii respelled_rows _ _ Hw).
  reflexivity.
Defined.

Lemma load_row_narrow lower st (r : row) :
  List.length r < 6 -> load_row lower st r = Raise IndexError.
Proof.
  intros H. unfold load_row.
  assert (E : cell r 5 = Raise IndexError).
  { unfold cell. destruct (nth_error r 5) eqn:E; [|reflexivity].
    assert (nth_error r 5 <> None) by congruence.
    apply nth_error_Some in H0. lia. }
  rewrite E.
  destruct (cell r 1); destruct (cell r 2); destruct (cell r 3);
    destruct (cell r 4); reflexivity.
Qed.

Lemma load_row_error lower st r e :
  load_row lower st r = Raise e -> e = IndexError.
Proof.
  unfold load_row.
  destruct (cell r 1); destruct (cell r 2); destruct (cell r 3);
    destruct (cell r 4); destruct (cell r 5);
    try (intros H; injection H as <-; reflexivity).
  destruct (if nonempty (clean_cell a) then Some (clean_cell a) else fst st)
    as [cm|]; [|discriminate].
  destruct (nonempty cm && nonempty (clean_cell a0)); discriminate.
Qed.

Lemma langchain_load_row_narrow lower st (r : row) :
  List.length r < 5 -> Langchain.load_row lower st r = Raise IndexError.
Proof.
  intros H. unfold Langchain.load_row.
  assert (E : cell r 4 = Raise IndexError).
  { unfold cell. destruct (nth_error r 4) eqn:E; [|reflexivity].
    assert (nth_error r 4 <> None) by congruence.
    apply nth_error_Some in H0. lia. }
  rewrite E.
  destruct (cell r 1); destruct (cell r 2); destruct (cell r 3); reflexivity.
Qed.

Lemma langchain_load_row_error lower st r e :
  Langchain.load_row lower st r = Raise e -> e = IndexError.
Proof.
  unfold Langchain.load_row.
  destruct (cell r 1); destruct (cell r 2); destruct (cell r 3);
    destruct (cell r 4);
    try (intros H; injection H as <-; reflexivity).
  destruct (if nonempty (clean_cell a) then Some (clean_cell a) else fst st)
    as [cm|]; [|discriminate].
  destruct (nonempty cm && nonempty (clean_cell a0)); discriminate.
Qed.

Lemma load_rows_narrow lower rows : forall st,
  Exists (fun r => List.length r < 6) rows ->
  load_rows lower st rows = Raise IndexError.
Proof.
  induction rows as [|r rows IH]; intros st H; [inversion H|].
  simpl. destruct (load_row lower st r) as [st'|e] eqn:E.
  - apply IH. apply Exists_cons in H. destruct H as [H|H]; [|exact H].
    rewrite (@load_row_narrow lower st r H) in E. discriminate.
  - now rewrite (@load_row_error lower st r e E).
Qed.

Lemma langchain_load_rows_narrow lower rows : forall st,
  Exists (fun r => List.length r < 5) rows ->
  Langchain.load_rows lower st rows = Raise IndexError.
Proof.
  induction rows as [|r rows IH]; intros st H; [inversion H|].
  simpl. destruct (Langchain.load_row lower st r) as [st'|e] eqn:E.
  - apply IH. apply Exists_cons in H. destruct H as [H|H]; [|exact H].
    rewrite (@langchain_load_row_narrow lower st r H) in E. discriminate.
  - now rewrite (@langchain_load_row_error lower st r e E).
Qed.

(** X15.  The loaders address their columns by position without a check: a
    table with a row of fewer than six cells makes the web loader raise
    [IndexError], whatever the other rows hold, and so does a row of fewer
    than five cells in [material_classifier_langchain]; in particular the
    web loader rejects a table without the brand column. *)
Theorem narrow_table_raises (lower : str -> str) (rows : list row) :
  (Exists (fun r => List.length r < 6) rows ->
   load_classification_standards lower (Ok rows) = Raise IndexError)
  /\ (Exists (fun r => List.length r < 5) rows ->
      Langchain.load_classification_standards lower (Ok rows)
      = Raise IndexError).
Proof.
  split; intros H.
  - unfold load_classification_standards.
    now rewrite (@load_rows_narrow lower rows (None, []) H).
  - unfold Langchain.load_classification_standards.
    now rewrite (@langchain_load_rows_narrow lower rows (None, []) H).
Qed.

Lemma narrow_table_raises_witness :
  let five := [[POther true (lit "1"); PStr (lit "Robot"); PStr (lit "Arm");
                PStr (lit "robot"); NaN]] in
  Exists (fun r : row => List.length r < 6) five
  /\ load_classification_standards lower_ascii (Ok five) = Raise IndexError
  /\ Langchain.load_classification_standards lower_ascii (Ok five)
     = Ok [((lit "robot", lit "arm"),
            (lit "Robot", lit "Arm", lit "robot", []))].
Proof.
  intros five.
  assert (H : Exists (fun r : row => List.length r < 6) five).
  { left. repeat constructor. }
  split; [exact H|]. split; [|reflexivity].
  exact (proj1 (narrow_table_raises lower_ascii five) H).
Defined.

(** ** The class-level cache *)

Lemma constructions_built_on lower calls : forall m,
  Forall (built_on m) (constructions lower (Some m) calls).
Proof.
  induction calls as [|[src api_key] rest IH]; intros m; simpl;
    [constructor|].
  unfold init. cbv zeta. destruct (negb (truthy api_key)).
  - constructor; [reflexivity | apply IH].
  - constructor; [reflexivity | apply IH].
Qed.

(** X16.  The taxonomy is loaded once per process: as soon as a load has
    succeeded every later construction uses that mapping and never reads its
    own source, failing only for a missing API key; and a construction that
    fails for the missing key has still filled the cache. *)
Theorem taxonomy_is_loaded_once (lower : str -> str)
    (src : result (list row)) (m : mapping) (api_key : pyval)
    (calls : list (result (list row) * pyval)) :
  load_classification_standards lower src = Ok m ->
  snd (init lower None src api_key) = Some m
  /\ built_on m (fst (init lower None src api_key))
  /\ Forall (built_on m)
       (constructions lower None ((src, api_key) :: calls)).
Proof.
  intros Hload.
  assert (Hi : snd (init lower None src api_key) = Some m
               /\ built_on m (fst (init lower None src api_key))).
  { unfold init. cbv zeta. rewrite Hload.
    destruct (negb (truthy api_key)); split; reflexivity. }
  split; [exact (proj1 Hi)|]. split; [exact (proj2 Hi)|].
  simpl. destruct (init lower None src api_key) as [r cache'].
  simpl in Hi. destruct Hi as [-> Hr].
  constructor; [exact Hr | apply constructions_built_on].
Qed.

Lemma taxonomy_is_loaded_once_witness :
  load_classification_standards lower_ascii (Ok example_rows)
  = Ok example_mapping
  /\ Forall (built_on example_mapping)
       (constructions lower_ascii None
          [ (Ok example_rows, PNone);
            (Raise ReadError, PStr (lit "key"));
            (Ok valve_rows, PStr (lit "key")) ]).
Proof.
  split; [reflexivity|].
  apply (@taxonomy_is_loaded_once lower_ascii (Ok example_rows)
           example_mapping PNone
           [ (Raise ReadError, PStr (lit "key"));
             (Ok valve_rows, PStr (lit "key")) ] eq_refl).
Defined.

(** ** The template loader of [code/claude] *)

Section SplitFacts.
Variable c0 : char.
Variable sep' : str.

Lemma split_str_from_skip t : forall cur y,
  Claude.split_str_from (c0 :: sep') (List.length t) cur (t ++ y) =
  Claude.split_str_from (c0 :: sep') 0 cur y.
Proof.
  induction t as [|c t IH]; intros cur y; simpl.
  - destruct y; reflexivity.
  - apply IH.
Qed.

Lemma split_piece x : forall cur,
  ~ In c0 x ->
  Claude.split_str_from (c0 :: sep') 0 cur x = [rev cur ++ x].
Proof.
  induction x as [|c x IH]; intros cur H; simpl.
  - now rewrite app_nil_r.
  - destruct (N.eqb_spec c0 c) as [E|E]; [exfalso; apply H; now left|].
    simpl. rewrite IH; [|intros Hc; apply H; now right].
    simpl. now rewrite <- app_assoc.
Qed.

Lemma split_piece_sep x y : forall cur,
  ~ In c0 x ->
  Claude.split_str_from (c0 :: sep') 0 cur (x ++ (c0 :: sep') ++ y) =
  (rev cur ++ x) :: Claude.split_str_from (c0 :: sep') 0 [] y.
Proof.
  induction x as [|c x IH]; intros cur H.
  - cbn [app Claude.split_str_from startswith].
    rewrite N.eqb_refl, startswith_self. cbn [andb].
    rewrite app_nil_r. f_equal.
    cbn [List.length]. rewrite Nat.sub_succ, Nat.sub_0_r.
    apply split_str_from_skip.
  - cbn [app Claude.split_str_from startswith].
    destruct (N.eqb_spec c0 c) as [E|E]; [exfalso; apply H; now left|].
    cbn [andb]. rewrite IH; [|intros Hc; apply H; now right].
    simpl. now rewrite <- app_assoc.
Qed.
End SplitFacts.

Lemma str_eqb_eq a b : str_eqb a b = true <-> a = b.
Proof.
  unfold str_eqb. destruct (str_eq_dec a b); split; congruence.
Qed.

Lemma header_is_no_marker line :
  strip line = Claude.RULES_HEADER ->
  startswith Claude.EXAMPLES_MARK (strip line) = false.
Proof. intros ->. reflexivity. Qed.

Lemma truthy_idx_S i : 1 <= i -> Claude.truthy_idx (Some i) = true.
Proof. destruct i; [lia | reflexivity]. Qed.

Lemma find_block_marker : forall lines i st,
  Claude.truthy_idx st = true -> 1 <= i ->
  (exists mk, In mk lines /\
     startswith Claude.EXAMPLES_MARK (strip mk) = true) ->
  exists s e, Claude.find_block i st lines = (s, e) /\
    Claude.truthy_idx s = true /\ Claude.truthy_idx e = true.
Proof.
  induction lines as [|line rest IH]; intros i st Hst Hi [mk [Hin Hmk]];
    [destruct Hin|].
  cbn [Claude.find_block]. cbv zeta.
  destruct (str_eqb (strip line) Claude.RULES_HEADER) eqn:Eh.
  - apply str_eqb_eq in Eh.
    apply IH; [apply truthy_idx_S; lia | lia |].
    destruct Hin as [->|Hin]; [|now exists mk].
    rewrite (header_is_no_marker _ Eh) in Hmk. discriminate.
  - rewrite Hst. cbn [andb].
    destruct (startswith Claude.EXAMPLES_MARK (strip line)) eqn:Em.
    + exists st, (Some i). repeat split; [exact Hst | now apply truthy_idx_S].
    + apply IH; [exact Hst | lia |].
      destruct Hin as [->|Hin]; [congruence | now exists mk].
Qed.

Lemma find_block_header : forall pre i st h rest,
  (Claude.truthy_idx st = true -> 1 <= i) ->
  strip h = Claude.RULES_HEADER ->
  (exists mk, In mk rest /\
     startswith Claude.EXAMPLES_MARK (strip mk) = true) ->
  exists s e, Claude.find_block i st (pre ++ h :: rest) = (s, e) /\
    Claude.truthy_idx s = true /\ Claude.truthy_idx e = true.
Proof.
  induction pre as [|p pre IH]; intros i st h rest Hi Hh Hmk.
  - cbn [app Claude.find_block]. cbv zeta.
    rewrite (proj2 (str_eqb_eq _ _) Hh).
    apply find_block_marker; [apply truthy_idx_S; lia | lia | exact Hmk].
  - cbn [app Claude.find_block]. cbv zeta.
    destruct (str_eqb (strip p) Claude.RULES_HEADER).
    + apply IH; [intros _; lia | exact Hh | exact Hmk].
    + destruct (Claude.truthy_idx st) eqn:Est; cbn [andb].
      * destruct (startswith Claude.EXAMPLES_MARK (strip p)).
        -- exists st, (Some i).
           repeat split; [exact Est | apply truthy_idx_S; now apply Hi].
        -- apply IH; [intros _; specialize (Hi eq_refl); lia | exact Hh
                     | exact Hmk].
      * apply IH; [rewrite Est; discriminate | exact Hh | exact Hmk].
Qed.

Lemma find_block_end : forall lines i st s e,
  Claude.find_block i st lines = (s, Some e) ->
  exists mid mk post, lines = mid ++ mk :: post /\
    startswith Claude.EXAMPLES_MARK (strip mk) = true.
Proof.
  induction lines as [|line rest IH]; intros i st s e H; [discriminate|].
  cbn [Claude.find_block] in H. cbv zeta in H.
  destruct (str_eqb (strip line) Claude.RULES_HEADER).
  - destruct (IH _ _ _ _ H) as [mid [mk [post [E Hm]]]].
    exists (line :: mid), mk, post. split; [now rewrite E | exact Hm].
  - destruct (Claude.truthy_idx st && startswith Claude.EXAMPLES_MARK (strip line))
      eqn:Em.
    + apply andb_prop in Em. exists [], line, rest. split; [reflexivity | tauto].
    + destruct (IH _ _ _ _ H) as [mid [mk [post [E Hm]]]].
      exists (line :: mid), mk, post. split; [now rewrite E | exact Hm].
Qed.

Lemma find_block_start : forall lines i st s e,
  Claude.find_block i st lines = (s, Some e) ->
  Claude.truthy_idx st = false ->
  exists pre h mid mk post, lines = pre ++ h :: mid ++ mk :: post /\
    strip h = Claude.RULES_HEADER /\
    startswith Claude.EXAMPLES_MARK (strip mk) = true.
Proof.
  induction lines as [|line rest IH]; intros i st s e H Hst; [discriminate|].
  cbn [Claude.find_block] in H. cbv zeta in H.
  destruct (str_eqb (strip line) Claude.RULES_HEADER) eqn:Eh.
  - apply str_eqb_eq in Eh.
    destruct (find_block_end _ _ _ H) as [mid [mk [post [E Hm]]]].
    exists [], line, mid, mk, post. split; [now rewrite E | tauto].
  - rewrite Hst in H. cbn [andb] in H.
    destruct (IH _ _ _ _ H Hst) as [pre [h [mid [mk [post [E Hm]]]]]].
    exists (line :: pre), h, mid, mk, post. split; [now rewrite E | exact Hm].
Qed.

(** X17.  The loader of [code/claude] accepts a template exactly when one of
    its lines, trimmed, is the rules header and a later line, trimmed,
    begins with the examples marker; every other template raises. *)
Theorem template_accepted_iff (lower : str -> str) (prompt_text : str) :
  (exists m, Claude.load_classification_standards lower prompt_text
             = Claude.Loaded m) <->
  (exists pre h mid mk post,
     Claude.split_str [NEWLINE] prompt_text = pre ++ h :: mid ++ mk :: post /\
     strip h = Claude.RULES_HEADER /\
     startswith Claude.EXAMPLES_MARK (strip mk) = true).
Proof.
  unfold Claude.load_classification_standards. cbv zeta.
  split.
  - intros [m H].
    destruct (Claude.find_block 0 None (Claude.split_str [NEWLINE] prompt_text))
      as [s e] eqn:E.
    destruct s as [s|]; [|discriminate].
    destruct e as [e|]; [|destruct (negb _ || negb _); discriminate].
    exact (find_block_start _ _ _ E eq_refl).
  - intros [pre [h [mid [mk [post [E [Hh Hm]]]]]]].
    rewrite E.
    destruct (@find_block_header pre 0 None h (mid ++ mk :: post))
      as [s [e [Hf [Hs He]]]];
      [discriminate | exact Hh
      | exists mk; split; [apply in_or_app; right; now left | exact Hm] |].
    rewrite Hf, Hs, He. cbn [negb orb].
    destruct s; [|discriminate]. destruct e; [|discriminate].
    eexists. reflexivity.
Qed.

Section PairStore.
Variable lower : str -> str.

Lemma dict_keys_set_pairs (V : Type) (d : dict key V) k v :
  dict_keys (dict_set key_eq_dec d k v) =
  if in_dec key_eq_dec k (dict_keys d) then dict_keys d else dict_keys d ++ [k].
Proof.
  induction d as [|[k' v'] d IH]; simpl; [reflexivity|].
  destruct (key_eq_dec k k') as [E|E]; simpl.
  - subst k'. destruct (key_eq_dec k k); [reflexivity | congruence].
  - destruct (key_eq_dec k' k); [congruence|].
    rewrite IH. destruct (in_dec key_eq_dec k (dict_keys d)); reflexivity.
Qed.

Lemma dict_set_NoDup_pairs (V : Type) (d : dict key V) k v :
  NoDup (dict_keys d) -> NoDup (dict_keys (dict_set key_eq_dec d k v)).
Proof.
  intros H. rewrite dict_keys_set_pairs.
  destruct (in_dec key_eq_dec k (dict_keys d)) as [Hin|Hin]; [exact H|].
  apply NoDup_app; [exact H | repeat constructor; intros [] |].
  intros x Hx [<-|[]]. contradiction.
Qed.

Lemma dict_get_NoDup (V : Type) (d : dict key V) k v :
  NoDup (dict_keys d) -> In (k, v) d -> dict_get key_eq_dec d k = Some v.
Proof.
  induction d as [|[k' v'] d IH]; simpl; intros Hnd Hin; [destruct Hin|].
  inversion Hnd as [|? ? Hk Hd]; subst.
  destruct (key_eq_dec k k') as [E|E].
  - destruct Hin as [H|H]; [now inversion H|].
    exfalso. apply Hk. subst k'. now apply (in_map fst) in H.
  - destruct Hin as [H|H]; [inversion H; congruence | now apply IH].
Qed.

Lemma nonempty_true s : nonempty s = true <-> s <> [].
Proof.
  unfold nonempty, str_eqb. destruct (str_eq_dec s []); simpl; split;
    congruence.
Qed.

Lemma parse_rule_cases m rule :
  Claude.parse_rule lower m rule = m \/
  exists a b, a <> [] /\ b <> [] /\ strip a = a /\ strip b = b /\
    Claude.parse_rule lower m rule =
    dict_set key_eq_dec m
      (normalize_category lower a, normalize_category lower b) (a, b).
Proof.
  unfold Claude.parse_rule. cbv zeta.
  destruct (negb (nonempty (strip rule)) ||
            negb (startswith Claude.RULE_PREFIX (strip rule))); [now left|].
  destruct (Claude.split_str Claude.SUB_SEPARATOR
              (skipn (List.length Claude.RULE_PREFIX) (strip rule)))
    as [|p0 [|p1 [|p2 l]]]; try now left.
  destruct (nonempty (strip p0)) eqn:E0; [|now left].
  destruct (nonempty (strip p1)) eqn:E1; [|now left].
  right. exists (strip p0), (strip p1). cbn [negb orb].
  repeat split; try apply strip_strip; now apply nonempty_true.
Qed.

Lemma parse_rule_canonical m rule :
  canonical_pairs lower m -> canonical_pairs lower (Claude.parse_rule lower m rule).
Proof.
  intros [Hnd Hc].
  destruct (parse_rule_cases m rule) as [->|[a [b [Ha [Hb [Sa [Sb ->]]]]]]];
    [now split|].
  split; [now apply dict_set_NoDup_pairs|].
  intros k a' b' Hin.
  destruct (In_dict_set _ _ _ _ _ _ Hin) as [[-> Hv]|Hold]; [|now apply Hc].
  injection Hv as -> ->. auto.
Qed.

Lemma parse_rules_canonical rules : forall m,
  canonical_pairs lower m ->
  canonical_pairs lower (fold_left (Claude.parse_rule lower) rules m).
Proof.
  induction rules as [|r rules IH]; intros m H; [exact H|].
  simpl. apply IH. now apply parse_rule_canonical.
Qed.

Lemma load_inv prompt_text m :
  Claude.load_classification_standards lower prompt_text = Claude.Loaded m ->
  exists s e,
    m = fold_left (Claude.parse_rule lower)
          (firstn (e - s) (skipn s (Claude.split_str [NEWLINE] prompt_text))) [].
Proof.
  unfold Claude.load_classification_standards. cbv zeta.
  destruct (Claude.find_block 0 None (Claude.split_str [NEWLINE] prompt_text))
    as [s e].
  destruct (negb _ || negb _); [discriminate|].
  destruct s as [s|]; [|discriminate]. destruct e as [e|]; [|discriminate].
  intros H. injection H as <-. now exists s, e.
Qed.

Lemma parse_rule_other m rule :
  startswith Claude.RULE_PREFIX (strip rule) = false ->
  Claude.parse_rule lower m rule = m.
Proof.
  intros H. unfold Claude.parse_rule. cbv zeta. rewrite H.
  now rewrite orb_true_r.
Qed.

Lemma parse_rules_other rules : forall m,
  (forall r, In r rules -> startswith Claude.RULE_PREFIX (strip r) = false) ->
  fold_left (Claude.parse_rule lower) rules m = m.
Proof.
  induction rules as [|r rules IH]; intros m H; [reflexivity|].
  simpl. rewrite parse_rule_other; [|apply H; now left].
  apply IH. intros r' Hr'. apply H. now right.
Qed.

Lemma pair_passes_validation (m : Claude.mapping2) k a b :
  canonical_pairs lower m -> In (k, (a, b)) m ->
  validate_classification_result_claude lower m (category_result a b)
  = Ok (category_result a b).
Proof.
  intros [Hnd Hc] Hin.
  destruct (Hc _ _ _ Hin) as [Hk [Ha [Hb _]]].
  unfold validate_classification_result_claude, validate_with, category_result.
  cbv zeta.
  change (get [(k_main_category, PStr a); (k_sub_category, PStr b)]
            k_main_category) with (PStr a).
  change (get [(k_main_category, PStr a); (k_sub_category, PStr b)]
            k_sub_category) with (PStr b).
  cbn [truthy py_str].
  destruct a as [|ca a]; [congruence|]. destruct b as [|cb b]; [congruence|].
  cbn [negb orb].
  rewrite <- Hk. rewrite (dict_get_NoDup _ _ _ Hnd Hin).
  reflexivity.
Qed.
End PairStore.

(** X18.  What the loader of [code/claude] returns is a well-formed store:
    no key occurs twice, every key is the pair of normal forms of the two
    names stored under it, both names are trimmed and non-empty, and a
    result that carries a stored pair of names passes the validator
    unchanged. *)
Theorem template_mapping_is_well_formed (lower : str -> str)
    (prompt_text : str) (m : Claude.mapping2) :
  Claude.load_classification_standards lower prompt_text = Claude.Loaded m ->
  canonical_pairs lower m /\
  forall k a b, In (k, (a, b)) m ->
    validate_classification_result_claude lower m (category_result a b)
    = Ok (category_result a b).
Proof.
  intros H. destruct (load_inv _ _ H) as [s [e ->]].
  assert (Hc : canonical_pairs lower
                 (fold_left (Claude.parse_rule lower)
                    (firstn (e - s)
                       (skipn s (Claude.split_str [NEWLINE] prompt_text))) [])).
  { apply parse_rules_canonical. split; [constructor | intros ? ? ? []]. }
  split; [exact Hc|].
  intros k a b Hin. now apply pair_passes_validation with (k := k).
Qed.

Lemma template_mapping_is_well_formed_witness :
  exists m,
    Claude.load_classification_standards lower_ascii example_template
    = Claude.Loaded m /\ List.length m = 2 /\ canonical_pairs lower_ascii m.
Proof.
  eexists. split; [vm_compute; reflexivity|].
  split; [reflexivity|].
  apply (@template_mapping_is_well_formed lower_ascii example_template).
  vm_compute. reflexivity.
Defined.

(** X19.  A template whose lines never begin, once trimmed, with the rule
    prefix is not refused for that: when its block is found the loader
    returns the empty mapping. *)
Theorem template_without_rules_loads_empty (lower : str -> str)
    (prompt_text : str) (m : Claude.mapping2) :
  (forall line, In line (Claude.split_str [NEWLINE] prompt_text) ->
     startswith Claude.RULE_PREFIX (strip line) = false) ->
  Claude.load_classification_standards lower prompt_text = Claude.Loaded m ->
  m = [].
Proof.
  intros Hno H. destruct (load_inv _ _ H) as [s [e ->]].
  apply parse_rules_other. intros r Hr. apply Hno.
  apply In_firstn in Hr. now apply In_skipn in Hr.
Qed.

Lemma template_without_rules_loads_empty_witness :
  exists m,
    Claude.load_classification_standards lower_ascii
      (Claude.RULES_HEADER ++ [NEWLINE] ++ lit "- no rule here" ++ [NEWLINE]
         ++ Claude.EXAMPLES_MARK)
    = Claude.Loaded m /\ m = [].
Proof.
  eexists. split; [vm_compute; reflexivity|].
  apply (@template_without_rules_loads_empty lower_ascii
           (Claude.RULES_HEADER ++ [NEWLINE] ++ lit "- no rule here"
              ++ [NEWLINE] ++ Claude.EXAMPLES_MARK) []).
  - intros line Hl. vm_compute in Hl.
    destruct Hl as [<-|[<-|[<-|[]]]]; reflexivity.
  - vm_compute. reflexivity.
Defined.

Section Generated.
Variable lower : str -> str.

Lemma rule_line_plain a b :
  plain_name a -> plain_name b ->
  strip (Claude.RULE_PREFIX ++ a ++ Claude.SUB_SEPARATOR ++ b)
  = Claude.RULE_PREFIX ++ a ++ Claude.SUB_SEPARATOR ++ b.
Proof.
  intros _ [Hb [Sb _]]. apply strip_fixed; [reflexivity|].
  rewrite !rev_app_distr, <- !app_assoc. rewrite clean_head_app.
  - pose proof (clean_last_strip b) as H. now rewrite Sb in H.
  - intros E. apply Hb. apply (f_equal (@rev char)) in E.
    now rewrite rev_involutive in E.
Qed.

Lemma parse_generated_rule m a b :
  plain_name a -> plain_name b ->
  Claude.parse_rule lower m
    (Claude.RULE_PREFIX ++ a ++ Claude.SUB_SEPARATOR ++ b)
  = dict_set key_eq_dec m
      (normalize_category lower a, normalize_category lower b) (a, b).
Proof.
  intros Ha Hb. unfold Claude.parse_rule. cbv zeta.
  rewrite (rule_line_plain Ha Hb).
  destruct Ha as [Na [Sa Ca]]. destruct Hb as [Nb [Sb Cb]].
  change (nonempty (Claude.RULE_PREFIX ++ a ++ Claude.SUB_SEPARATOR ++ b))
    with true.
  rewrite startswith_self. cbn [negb orb].
  change (skipn (List.length Claude.RULE_PREFIX)
            (Claude.RULE_PREFIX ++ a ++ Claude.SUB_SEPARATOR ++ b))
    with (a ++ Claude.SUB_SEPARATOR ++ b).
  unfold Claude.split_str, Claude.SUB_SEPARATOR.
  rewrite split_piece_sep; [|exact Ca].
  rewrite split_piece; [|exact Cb].
  cbn [rev app]. rewrite Sa, Sb.
  rewrite (proj2 (nonempty_true a) Na), (proj2 (nonempty_true b) Nb).
  reflexivity.
Qed.

Lemma parse_generated_rules rows : forall m,
  (forall a b, In (a, b) (named_pairs rows) -> plain_name a /\ plain_name b) ->
  fold_left (Claude.parse_rule lower) (Claude.classification_rules rows) m
  = assign_all (pair_assignments lower (named_pairs rows)) m.
Proof.
  induction rows as [|[[a|] [b|]] rows IH]; intros m H; simpl;
    try (apply IH; exact H); [reflexivity|].
  unfold Claude.rule_line.
  destruct (H (strip a) (strip b)) as [Ha Hb]; [now left|].
  rewrite (parse_generated_rule m Ha Hb).
  unfold assign_all in IH. rewrite IH; [reflexivity|].
  intros a' b' Hin. apply H. now right.
Qed.

Lemma generated_rule_shape rows r :
  In r (Claude.classification_rules rows) ->
  exists a b, In (a, b) (named_pairs rows) /\
    r = Claude.RULE_PREFIX ++ a ++ Claude.SUB_SEPARATOR ++ b.
Proof.
  induction rows as [|[[a|] [b|]] rows IH]; simpl; intros H;
    try (destruct (IH H) as [a' [b' [Hin E]]]; now exists a', b').
  - destruct H.
  - destruct H as [<-|H].
    + exists (strip a), (strip b). split; [now left | reflexivity].
    + destruct (IH H) as [a' [b' [Hin E]]]. exists a', b'. split;
        [now right | exact E].
Qed.

Lemma find_block_rules rules rest : forall i st,
  (forall r, In r rules ->
     strip r <> Claude.RULES_HEADER /\
     startswith Claude.EXAMPLES_MARK (strip r) = false) ->
  Claude.find_block i st (rules ++ rest)
  = Claude.find_block (i + List.length rules) st rest.
Proof.
  induction rules as [|r rules IH]; intros i st H.
  - simpl. now rewrite Nat.add_0_r.
  - cbn [app Claude.find_block List.length]. cbv zeta.
    destruct (H r (or_introl eq_refl)) as [Hh Hm].
    destruct (str_eqb (strip r) Claude.RULES_HEADER) eqn:E;
      [apply str_eqb_eq in E; contradiction|].
    rewrite Hm, andb_false_r.
    rewrite IH; [f_equal; lia | intros r' Hr'; apply H; now right].
Qed.

Lemma find_block_preamble pre rest : forall i st,
  (Claude.truthy_idx st = false /\
   forall l, In l pre -> strip l <> Claude.RULES_HEADER) \/
  (forall l, In l pre -> startswith Claude.EXAMPLES_MARK (strip l) = false) ->
  exists st', Claude.find_block i st (pre ++ rest)
              = Claude.find_block (i + List.length pre) st' rest.
Proof.
  induction pre as [|p pre IH]; intros i st H.
  - exists st. simpl. now rewrite Nat.add_0_r.
  - cbn [app Claude.find_block List.length]. cbv zeta.
    replace (i + S (List.length pre)) with (S i + List.length pre) by lia.
    destruct H as [[Hst Hh]|Hm].
    + destruct (str_eqb (strip p) Claude.RULES_HEADER) eqn:E;
        [apply str_eqb_eq in E; exfalso; now apply (Hh p (or_introl eq_refl))|].
      rewrite Hst. cbn [andb].
      apply IH. left. split; [exact Hst | intros l Hl; apply Hh; now right].
    + rewrite (Hm p (or_introl eq_refl)), andb_false_r.
      destruct (str_eqb (strip p) Claude.RULES_HEADER);
        apply IH; right; intros l Hl; apply Hm; now right.
Qed.

Lemma slice_middle (A : Type) (pre : list A) h rules rest s e :
  s = List.length pre + 1 -> e = s + List.length rules ->
  firstn (e - s) (skipn s (pre ++ h :: rules ++ rest)) = rules.
Proof.
  intros -> ->.
  replace (List.length pre + 1 + List.length rules - (List.length pre + 1))
    with (List.length rules) by lia.
  replace (pre ++ h :: rules ++ rest) with ((pre ++ [h]) ++ rules ++ rest)
    by (now rewrite <- app_assoc).
  replace (List.length pre + 1) with (List.length (pre ++ [h]))
    by (rewrite length_app; reflexivity).
  rewrite skipn_app, skipn_all, Nat.sub_diag. cbn [skipn app].
  rewrite firstn_app, firstn_all, Nat.sub_diag. cbn [firstn].
  apply app_nil_r.
Qed.
End Generated.

(** X20.  Rule lines of the form the generator of
    [update_config_from_excel.py] writes are read back by the loader of
    [code/claude]: when the lines of the template the loader receives are,
    between the header line and the marker line, those the generator's loop
    builds from the rows of a table, the mapping is what assigning, row
    after row, the trimmed pair of names under its normalised key gives.
    The names must be plain (non-empty once trimmed, without the full-width
    comma) and the lines before the header hold no second header or no
    marker.  The template is the text the loader receives; how the generated
    lines get there through the source of [config.py] is no part of the
    statement. *)
Theorem generated_rules_are_read_back (lower : str -> str)
    (rows : list (option str * option str))
    (pre post : list str) (header marker : str) (prompt_text : str) :
  Claude.split_str [NEWLINE] prompt_text
  = template_lines pre header (Claude.classification_rules rows) marker post ->
  (forall l, In l pre -> strip l <> Claude.RULES_HEADER) \/
  (forall l, In l pre -> startswith Claude.EXAMPLES_MARK (strip l) = false) ->
  strip header = Claude.RULES_HEADER ->
  startswith Claude.EXAMPLES_MARK (strip marker) = true ->
  (forall a b, In (a, b) (named_pairs rows) -> plain_name a /\ plain_name b) ->
  Claude.load_classification_standards lower prompt_text
  = Claude.Loaded
      (assign_all (pair_assignments lower (named_pairs rows)) []).
Proof.
  intros Hlines Hpre Hh Hm Hplain.
  assert (Hrule : forall r, In r (Claude.classification_rules rows) ->
            strip r = r /\ exists t, r = 45%N :: t).
  { intros r Hr. destruct (generated_rule_shape _ _ Hr) as [a [b [Hin ->]]].
    destruct (Hplain _ _ Hin) as [Ha Hb].
    split; [now apply rule_line_plain | eexists; reflexivity]. }
  unfold Claude.load_classification_standards. cbv zeta.
  rewrite Hlines. unfold template_lines.
  destruct (@find_block_preamble pre
              (header :: Claude.classification_rules rows ++ marker :: post)
              0 None) as [st' Ef].
  { destruct Hpre as [H|H]; [left; split; [reflexivity | exact H] | now right]. }
  rewrite Ef. cbn [Claude.find_block]. cbv zeta.
  rewrite (proj2 (str_eqb_eq _ _) Hh).
  rewrite find_block_rules.
  - cbn [Claude.find_block]. cbv zeta.
    destruct (str_eqb (strip marker) Claude.RULES_HEADER) eqn:E.
    { apply str_eqb_eq in E. rewrite (header_is_no_marker _ E) in Hm.
      discriminate. }
    rewrite Hm. cbn [plus].
    rewrite truthy_idx_S by lia. cbn [andb].
    rewrite !truthy_idx_S by lia.
    cbn [negb orb]. f_equal.
    rewrite slice_middle by lia.
    now apply parse_generated_rules.
  - intros r Hr. destruct (Hrule r Hr) as [Sr [t Et]].
    rewrite Sr, Et. split; [discriminate | reflexivity].
Qed.

Lemma generated_rules_are_read_back_witness :
  Claude.load_classification_standards lower_ascii example_template
  = Claude.Loaded
      (assign_all
         (pair_assignments lower_ascii
            (named_pairs
               [ (Some (lit " Robot "), Some (lit "Six Axis"));
                 (Some (lit "Robot"), None);
                 (Some (lit "PLC / IO"), Some (lit "Cabinet ")) ])) []).
Proof.
  assert (Hfree : forall (c : char) (l : str),
            forallb (fun x => negb (x =? c)%N) l = true -> ~ In c l).
  { intros c l H Hc. rewrite forallb_forall in H. specialize (H c Hc).
    now rewrite N.eqb_refl in H. }
  apply (@generated_rules_are_read_back lower_ascii
           [ (Some (lit " Robot "), Some (lit "Six Axis"));
             (Some (lit "Robot"), None);
             (Some (lit "PLC / IO"), Some (lit "Cabinet ")) ]
           [lit "You are a classifier."; []] [lit "end"]
           (lit "  " ++ Claude.RULES_HEADER)
           (Claude.EXAMPLES_MARK ++ lit " ...") example_template).
  - vm_compute. reflexivity.
  - left. intros l [<-|[<-|[]]]; vm_compute; discriminate.
  - vm_compute. reflexivity.
  - vm_compute. reflexivity.
  - intros a b H. vm_compute in H.
    destruct H as [H|[H|[]]]; injection H as <- <-;
      (split; (split; [discriminate|]);
       (split; [vm_compute; reflexivity|]);
       apply Hfree; vm_compute; reflexivity).
Defined.

(** ** The call and the resolver of [code/claude] *)

Section ClaudeCall.
Variable json_loads : str -> loads.
Variable MAX_RETRIES : nat.
Variable remote : nat -> response.

Lemma claude_retry_spec remaining : forall attempt_no w,
  remaining + attempt_no = MAX_RETRIES ->
  exists k,
    k <= remaining /\
    requests (snd (Claude.retry_from json_loads MAX_RETRIES remote
                     remaining attempt_no w)) = requests w + k /\
    trace (snd (Claude.retry_from json_loads MAX_RETRIES remote
                  remaining attempt_no w))
    = trace w ++ attempt_schedule (requests w) attempt_no k /\
    continuous_api_failures
      (snd (Claude.retry_from json_loads MAX_RETRIES remote
              remaining attempt_no w)) = continuous_api_failures w /\
    (forall i, i < k - 1 ->
       exists e, Claude.attempt json_loads (remote (requests w + i)) = inr e) /\
    match fst (Claude.retry_from json_loads MAX_RETRIES remote
                 remaining attempt_no w) with
    | inr e =>
        k = remaining /\ 1 <= k /\
        Claude.attempt json_loads (remote (requests w + (k - 1))) = inr e
    | inl (Some d) =>
        1 <= k /\
        Claude.attempt json_loads (remote (requests w + (k - 1))) = inl d
    | inl None => remaining = 0
    end.
Proof.
  induction remaining as [|rem IH]; intros a w Hsum.
  - exists 0. cbn [Claude.retry_from fst snd attempt_schedule].
    rewrite Nat.add_0_r, app_nil_r.
    repeat split; auto; try lia; try (intros i Hi; lia).
  - cbn [Claude.retry_from]. cbv zeta.
    destruct (Claude.attempt json_loads (remote (requests w))) as [d|e] eqn:Ea.
    + exists 1. cbn [fst snd send_request requests trace
                     continuous_api_failures attempt_schedule].
      replace (requests w + (1 - 1)) with (requests w) by lia.
      repeat split; auto; try lia; try (intros i Hi; lia).
    + destruct (a <? MAX_RETRIES - 1) eqn:El.
      * apply Nat.ltb_lt in El.
        destruct (IH (S a)
                    (log_event (EvBackoff (2 ^ a)) (send_request w)))
          as [k [Hk [Hr [Ht [Hf [Hfail Hres]]]]]]; [lia|].
        cbn [log_event send_request requests trace continuous_api_failures]
          in Hr, Ht, Hf, Hfail, Hres.
        assert (Hk1 : 1 <= k).
        { destruct (fst (Claude.retry_from json_loads MAX_RETRIES remote rem
                           (S a) _)) as [[d|]|e'] in Hres; lia. }
        exists (S k). split; [lia|]. split; [rewrite Hr; lia|].
        split.
        { rewrite Ht, <- !app_assoc. f_equal.
          destruct k as [|k']; [lia|]. reflexivity. }
        split; [exact Hf|]. split.
        { intros i Hi. destruct i as [|i].
          - rewrite Nat.add_0_r. now exists e.
          - destruct (Hfail i) as [e' He']; [lia|]. exists e'.
            now replace (requests w + S i) with (S (requests w) + i) by lia. }
        replace (requests w + (S k - 1)) with (S (requests w) + (k - 1)) by lia.
        destruct (fst (Claude.retry_from json_loads MAX_RETRIES remote rem
                         (S a) _)) as [[d|]|e'];
          [exact (conj (le_n_S _ _ (Nat.le_0_l _)) (proj2 Hres)) | lia |].
        destruct Hres as [-> [_ H]]. repeat split; auto; lia.
      * apply Nat.ltb_ge in El.
        exists 1. cbn [fst snd send_request requests trace
                       continuous_api_failures attempt_schedule].
        replace (requests w + (1 - 1)) with (requests w) by lia.
        repeat split; auto; try lia; try (intros i Hi; lia).
Qed.
End ClaudeCall.

(** X21.  The call of [code/claude] is decided by the first attempt that
    succeeds among [MAX_RETRIES]: it sends one request per attempt, sleeps
    [2 ** attempt] seconds between two attempts, returns the object of the
    first successful attempt, and raises the failure of the last attempt
    only after all [MAX_RETRIES] have failed; it keeps no count of failures
    across calls. *)
Theorem claude_call_outcome (json_loads : str -> loads)
    (MAX_RETRIES : nat) (remote : nat -> response) (w : world) :
  exists k,
    k <= MAX_RETRIES /\
    requests (snd (Claude._call_deepseek_api json_loads MAX_RETRIES remote w))
    = requests w + k /\
    trace (snd (Claude._call_deepseek_api json_loads MAX_RETRIES remote w))
    = trace w ++ attempt_schedule (requests w) 0 k /\
    continuous_api_failures
      (snd (Claude._call_deepseek_api json_loads MAX_RETRIES remote w))
    = continuous_api_failures w /\
    (forall i, i < k - 1 ->
       exists e, Claude.attempt json_loads (remote (requests w + i)) = inr e) /\
    match fst (Claude._call_deepseek_api json_loads MAX_RETRIES remote w) with
    | inr e =>
        k = MAX_RETRIES /\ 1 <= k /\
        Claude.attempt json_loads (remote (requests w + (k - 1))) = inr e
    | inl (Some d) =>
        1 <= k /\
        Claude.attempt json_loads (remote (requests w + (k - 1))) = inl d
    | inl None => MAX_RETRIES = 0
    end.
Proof.
  unfold Claude._call_deepseek_api.
  apply claude_retry_spec. apply Nat.add_0_r.
Qed.

(** X22.  What the resolver of [code/claude] returns for a material is a
    member of the loaded taxonomy in its stored spelling, and it was
    obtained from the remote service: at least one and at most
    [MAX_RETRIES] requests were sent. *)
Theorem claude_classification_is_member (lower : str -> str)
    (json_loads : str -> loads) (MAX_RETRIES : nat)
    (remote : nat -> response) (prompt_text : str) (m : Claude.mapping2)
    (w w' : world) (res : pydict) :
  Claude.load_classification_standards lower prompt_text = Claude.Loaded m ->
  Claude.classify_material json_loads MAX_RETRIES remote lower m w
  = (Claude.Classified res, w') ->
  (exists a b,
     In ((normalize_category lower a, normalize_category lower b), (a, b)) m
     /\ get res k_main_category = PStr a
     /\ get res k_sub_category = PStr b) /\
  requests w < requests w' <= requests w + MAX_RETRIES.
Proof.
  intros Hload H.
  assert (Hc : canonical_pairs lower m).
  { destruct (load_inv _ _ Hload) as [s [e ->]].
    apply parse_rules_canonical. split; [constructor | intros ? ? ? []]. }
  unfold Claude.classify_material, Claude._call_deepseek_api in H.
  destruct (@claude_retry_spec json_loads MAX_RETRIES remote MAX_RETRIES 0 w
              (Nat.add_0_r _)) as [k [Hk [Hr [_ [_ [_ Hres]]]]]].
  destruct (Claude.retry_from json_loads MAX_RETRIES remote MAX_RETRIES 0 w)
    as [r w1].
  cbn [fst snd] in Hr, Hres.
  destruct r as [[d|]|e]; try discriminate.
  destruct (validate_classification_result_claude lower m d) as [res1|e] eqn:Ev;
    [|discriminate].
  injection H as <- <-.
  split; [|lia].
  apply validate_with_inv in Ev.
  destruct Ev as [[a b] [_ [_ [Hget ->]]]]. cbn [fst snd].
  pose proof (dict_get_In _ _ _ Hget) as Hin.
  destruct (proj2 Hc _ _ _ Hin) as [Hkey _].
  exists a, b. split; [now rewrite <- Hkey|].
  split.
  - rewrite get_set_other by (vm_compute; discriminate). apply get_set_same.
  - apply get_set_same.
Qed.

Lemma claude_classification_is_member_witness :
  exists m res w',
    Claude.load_classification_standards lower_ascii reply_template
    = Claude.Loaded m /\
    Claude.classify_material example_json_loads 3 fenced_remote lower_ascii m
      initial_world = (Claude.Classified res, w') /\
    (exists a b,
       In ((normalize_category lower_ascii a, normalize_category lower_ascii b),
           (a, b)) m
       /\ get res k_main_category = PStr a
       /\ get res k_sub_category = PStr b) /\
    requests initial_world < requests w' <= requests initial_world + 3.
Proof.
  do 3 eexists. split; [vm_compute; reflexivity|].
  split; [vm_compute; reflexivity|].
  apply (@claude_classification_is_member lower_ascii example_json_loads 3
           fenced_remote reply_template).
  - vm_compute. reflexivity.
  - vm_compute. reflexivity.
Defined.

(** ** The CSV reader of [code/claude] and the manager's extraction *)

Lemma field_filled_ok row key b :
  Claude.field_filled row key = Ok b -> b = filled row key.
Proof.
  unfold Claude.field_filled, filled.
  destruct (dict_get Claude.column_eq_dec row (Some key)) as [[v| |l]|];
    intros H; try discriminate; now injection H as <-.
Qed.

Lemma all_filled_ok row keys : forall b,
  Claude.all_filled row keys = Ok b -> b = forallb (filled row) keys.
Proof.
  induction keys as [|key keys IH]; intros b; simpl.
  - intros H. now injection H as <-.
  - destruct (Claude.field_filled row key) as [[|]|e] eqn:E; try discriminate;
      rewrite <- (field_filled_ok _ _ E); simpl.
    + apply IH.
    + intros H. now injection H as <-.
Qed.

Lemma all_filled_error row keys : forall e,
  Claude.all_filled row keys = Raise e -> e = AttributeError.
Proof.
  induction keys as [|key keys IH]; intros e; simpl; [discriminate|].
  unfold Claude.field_filled.
  destruct (dict_get Claude.column_eq_dec row (Some key)) as [[v| |l]|];
    try (intros H; now injection H as <-); try discriminate.
  destruct (nonempty (strip v)); [apply IH | discriminate].
Qed.

Lemma read_rows_ok rows : forall acc kept,
  Claude.read_rows rows acc = Ok kept ->
  kept = acc ++ filter complete_row rows.
Proof.
  induction rows as [|row rows IH]; intros acc kept;
    cbn [Claude.read_rows filter].
  - intros H. injection H as <-. now rewrite app_nil_r.
  - destruct (Claude.all_filled row Claude.REQUIRED_COLUMNS) as [b|e] eqn:E;
      [|discriminate].
    apply all_filled_ok in E. unfold complete_row. rewrite <- E.
    destruct b; intros H; apply IH in H; [|exact H].
    now rewrite <- app_assoc in H.
Qed.

Lemma read_rows_error rows : forall acc e,
  Claude.read_rows rows acc = Raise e -> e = AttributeError.
Proof.
  induction rows as [|row rows IH]; intros acc e; cbn [Claude.read_rows];
    [discriminate|].
  destruct (Claude.all_filled row Claude.REQUIRED_COLUMNS) as [[|]|e'] eqn:E.
  - apply IH.
  - apply IH.
  - intros H. injection H as <-. now apply all_filled_error in E.
Qed.

(** X23.  When the CSV reader of [code/claude] returns, it returns the rows
    that are complete, in the order of the file: a row is kept exactly when
    each of the three required columns holds text that is not blank. *)
Theorem csv_read_keeps_complete_rows (rows kept : list Claude.csv_row) :
  Claude.read_materials_from_csv (Ok rows) = Ok kept ->
  kept = filter complete_row rows /\
  forall row key, In row kept -> In key Claude.REQUIRED_COLUMNS ->
    exists v, dict_get Claude.column_eq_dec row (Some key)
              = Some (Claude.CText v) /\ strip v <> [].
Proof.
  intros H. apply read_rows_ok in H. simpl in H. subst kept.
  split; [reflexivity|].
  intros row key Hrow Hkey. apply filter_In in Hrow. destruct Hrow as [_ Hc].
  unfold complete_row in Hc. rewrite forallb_forall in Hc.
  specialize (Hc key Hkey). unfold filled in Hc.
  destruct (dict_get Claude.column_eq_dec row (Some key)) as [[v| |l]|];
    try discriminate.
  exists v. split; [reflexivity | now apply nonempty_true].
Qed.

Lemma csv_read_keeps_complete_rows_witness :
  exists kept,
    Claude.read_materials_from_csv (Ok example_csv) = Ok kept /\
    List.length kept = 2 /\
    kept = filter complete_row example_csv.
Proof.
  eexists. split; [vm_compute; reflexivity|]. split; [reflexivity|].
  apply (@csv_read_keeps_complete_rows example_csv).
  vm_compute. reflexivity.
Defined.

Lemma read_rows_raises row rows : forall acc,
  In row rows ->
  Claude.all_filled row Claude.REQUIRED_COLUMNS = Raise AttributeError ->
  Claude.read_rows rows acc = Raise AttributeError.
Proof.
  induction rows as [|r rows IH]; intros acc Hin Hrow; [destruct Hin|].
  cbn [Claude.read_rows].
  destruct Hin as [->|Hin]; [now rewrite Hrow|].
  destruct (Claude.all_filled r Claude.REQUIRED_COLUMNS) as [[|]|e] eqn:E.
  - now apply IH.
  - now apply IH.
  - f_equal. now apply all_filled_error in E.
Qed.

Lemma all_filled_raises row key after : forall before,
  (forall k, In k before -> filled row k = true) ->
  Claude.field_filled row key = Raise AttributeError ->
  Claude.all_filled row (before ++ key :: after) = Raise AttributeError.
Proof.
  induction before as [|k before IH]; intros Hb Hkey; cbn [app Claude.all_filled].
  - now rewrite Hkey.
  - pose proof (Hb k (or_introl eq_refl)) as Hk.
    unfold filled in Hk. unfold Claude.field_filled at 1.
    destruct (dict_get Claude.column_eq_dec row (Some k)) as [[v| |l]|];
      try discriminate.
    rewrite Hk. apply IH; [|exact Hkey].
    intros k' Hk'. apply Hb. now right.
Qed.

(** X24.  A row is not passed over when a required column holds something
    that is no text, as in a line too short for its header, and the required
    columns before it are filled: the whole read fails with the
    [AttributeError] of its [strip]. *)
Theorem csv_short_row_aborts_read (rows : list Claude.csv_row)
    (row : Claude.csv_row) (before after : list str) (key : str)
    (cell : Claude.csv_cell) :
  In row rows ->
  Claude.REQUIRED_COLUMNS = before ++ key :: after ->
  (forall k, In k before -> filled row k = true) ->
  dict_get Claude.column_eq_dec row (Some key) = Some cell ->
  (forall v, cell <> Claude.CText v) ->
  Claude.read_materials_from_csv (Ok rows) = Raise AttributeError.
Proof.
  intros Hin Hreq Hb Hcell Hno.
  apply read_rows_raises with (row := row); [exact Hin|].
  rewrite Hreq. apply all_filled_raises; [exact Hb|].
  unfold Claude.field_filled. rewrite Hcell.
  destruct cell as [v| |l]; [now destruct (Hno v) | reflexivity | reflexivity].
Qed.

Lemma csv_short_row_aborts_read_witness :
  Claude.read_materials_from_csv (Ok (example_csv ++ short_csv))
  = Raise AttributeError.
Proof.
  apply (@csv_short_row_aborts_read (example_csv ++ short_csv)
           [ (Some k_model, Claude.CText (lit "S7-300"));
             (Some k_brand, Claude.CNone);
             (Some k_supplier, Claude.CNone) ]
           [k_model] [k_supplier] k_brand Claude.CNone).
  - apply in_or_app. right. now left.
  - reflexivity.
  - intros k [<-|[]]. reflexivity.
  - reflexivity.
  - discriminate.
Defined.

Lemma extract_then_format (material_data : pydict) :
  formatted_data (_extract_material_info material_data)
  = [ (k_model, get_default material_data k_drawing_model (PStr []));
      (k_brand, get_default material_data k_category_brand (PStr []));
      (k_supplier, get_default material_data k_supplier (PStr []));
      (k_material_name, get_default material_data k_material_name (PStr []));
      (k_material, get_default material_data k_material (PStr [])) ].
Proof. reflexivity. Qed.

(** X25.  What the manager extracts from a raw record passes the formatting
    step of [classify_material] unchanged: formatting it again changes no
    field, so the model is the raw drawing-or-model cell and the brand the
    raw category-or-brand cell, whatever the raw record holds under the
    short names. *)
Theorem extraction_survives_formatting (material_data : pydict) (k : str) :
  dict_get str_eq_dec (formatted_data (_extract_material_info material_data)) k
  = dict_get str_eq_dec (_extract_material_info material_data) k.
Proof.
  rewrite extract_then_format. unfold _extract_material_info.
  cbn [dict_get].
  destruct (str_eq_dec k k_model) as [->|?];
    [reflexivity|].
  destruct (str_eq_dec k k_brand) as [->|?]; [reflexivity|].
  destruct (str_eq_dec k k_supplier) as [->|?]; [reflexivity|].
  destruct (str_eq_dec k k_material_name) as [->|?]; [reflexivity|].
  destruct (str_eq_dec k k_material) as [->|?]; reflexivity.
Qed.

(** ** The prompt of the web variant *)

Lemma category_lines_set_new (cats : dict str (list sub_entry)) main l :
  dict_get str_eq_dec cats main = None ->
  category_lines (dict_set str_eq_dec cats main l)
  = category_lines cats ++ map (category_line main) l.
Proof.
  unfold category_lines.
  induction cats as [|[k v] cats IH]; simpl; intros H.
  - now rewrite app_nil_r.
  - destruct (str_eq_dec main k); [discriminate|].
    simpl. rewrite IH by exact H. now rewrite app_assoc.
Qed.

Lemma category_lines_set_old (cats : dict str (list sub_entry)) main old x :
  dict_get str_eq_dec cats main = Some old ->
  Permutation (category_lines (dict_set str_eq_dec cats main (old ++ [x])))
    (category_lines cats ++ [category_line main x]).
Proof.
  unfold category_lines.
  induction cats as [|[k v] cats IH]; simpl; intros H; [discriminate|].
  destruct (str_eq_dec main k) as [E|E].
  - injection H as ->. subst k. simpl. rewrite map_app. simpl.
    rewrite <- !app_assoc. apply Permutation_app_head.
    apply Permutation_app_comm.
  - simpl. rewrite <- app_assoc. apply Permutation_app_head. now apply IH.
Qed.

Lemma group_entry_lines cats e :
  Permutation (category_lines (group_entry cats e))
    (category_lines cats ++ [entry_line e]).
Proof.
  unfold group_entry, dict_mem, entry_line. cbv zeta.
  destruct (dict_get str_eq_dec cats (original_main e)) as [old|] eqn:E.
  - cbn [negb]. rewrite E. now apply category_lines_set_old.
  - cbn [negb]. rewrite dict_get_set_same.
    eapply Permutation_trans.
    + apply category_lines_set_old. apply dict_get_set_same.
    + rewrite (@category_lines_set_new cats (original_main e) [] E). simpl map.
      now rewrite app_nil_r.
Qed.

Lemma group_all_lines es : forall cats,
  Permutation (category_lines (fold_left group_entry es cats))
    (category_lines cats ++ map entry_line es).
Proof.
  induction es as [|e es IH]; intros cats; simpl.
  - now rewrite app_nil_r.
  - eapply Permutation_trans; [apply IH|].
    change (entry_line e :: map entry_line es)
      with ([entry_line e] ++ map entry_line es).
    rewrite app_assoc. apply Permutation_app_tail. apply group_entry_lines.
Qed.

Lemma dict_set_keys_NoDup (V : Type) (d : dict str V) k v :
  NoDup (dict_keys d) -> NoDup (dict_keys (dict_set str_eq_dec d k v)).
Proof.
  induction d as [|[k' v'] d IH]; simpl; intros H.
  - repeat constructor. intros [].
  - inversion H as [|? ? Hk Hd]; subst.
    destruct (str_eq_dec k k') as [E|E]; simpl; [now constructor|].
    constructor; [|now apply IH].
    intros Hin. apply Hk. clear -Hin E.
    induction d as [|[k2 v2] d IHd]; simpl in *.
    + destruct Hin as [<-|[]]. congruence.
    + destruct (str_eq_dec k k2); simpl in Hin; [exact Hin|].
      destruct Hin as [->|Hin]; [now left | right; now apply IHd].
Qed.

Lemma group_entry_NoDup cats e :
  NoDup (dict_keys cats) -> NoDup (dict_keys (group_entry cats e)).
Proof.
  intros H. unfold group_entry. cbv zeta.
  destruct (negb (dict_mem str_eq_dec cats (original_main e))).
  - rewrite dict_get_set_same. now apply dict_set_keys_NoDup, dict_set_keys_NoDup.
  - destruct (dict_get str_eq_dec cats (original_main e));
      [now apply dict_set_keys_NoDup | exact H].
Qed.

Lemma group_all_NoDup es : forall cats,
  NoDup (dict_keys cats) ->
  NoDup (dict_keys (fold_left group_entry es cats)).
Proof.
  induction es as [|e es IH]; intros cats H; [exact H|].
  simpl. apply IH. now apply group_entry_NoDup.
Qed.

Lemma append_lines lines : forall base,
  fold_left (fun base_prompt line => base_prompt ++ line ++ [NEWLINE])
    lines base
  = base ++ List.concat (map (fun line => line ++ [NEWLINE]) lines).
Proof.
  induction lines as [|l lines IH]; intros base; simpl.
  - now rewrite app_nil_r.
  - rewrite IH. now rewrite <- !app_assoc.
Qed.

(** X26.  The prompt of the web variant is the base template, one line per
    entry of the mapping, and the examples: the lines are those of the
    entries, each exactly once, gathered under their main category, every
    main category forming one group. *)
Theorem prompt_lists_every_entry_once (BASE_PROMPT_TEMPLATE PROMPT_EXAMPLES : str)
    (m : mapping) :
  exists categories,
    NoDup (dict_keys categories) /\
    build_comprehensive_prompt BASE_PROMPT_TEMPLATE PROMPT_EXAMPLES m
    = BASE_PROMPT_TEMPLATE
      ++ List.concat (map (fun line => line ++ [NEWLINE])
                   (category_lines categories))
      ++ PROMPT_EXAMPLES /\
    Permutation (category_lines categories)
      (map (fun kv => entry_line (snd kv)) m).
Proof.
  exists (fold_left group_entry (map snd m) []).
  split; [apply group_all_NoDup; constructor|].
  split.
  - unfold build_comprehensive_prompt. cbv zeta.
    rewrite append_lines. now rewrite <- app_assoc.
  - pose proof (group_all_lines (map snd m) []) as H.
    now rewrite map_map in H.
Qed.
